(** * The Home Assistant core: event bus, state machine and service registry

    A shallow embedding of [homeassistant/__init__.py] and the properties of
    its specification.

    Conventions of the embedding.
    - A Python [str] is a Rocq [string]; its characters are read as the code
      points U+0000 to U+00FF.
    - Python objects that are mutated or compared by identity live in a store
      and are passed around as references ([loc]): [dict] objects and
      [State] objects.  Function objects carry an identity number.
    - A method is a computation in the monad [M]: it reads and writes the
      [World] (the store and the four kernel objects) and either returns a
      value or raises.
    - Every method body is taken as one atomic step: the locks of the source
      ([with self._lock]) are not represented.  The closure of
      [listen_once] holds no lock between its test and its assignment:
      [worker_step] gives the two steps of a worker that runs it. *)

From Stdlib Require Import ZArith Ascii String DecimalString DecimalZ DecimalFacts.
From stdpp Require Import base gmap strings list option.

Open Scope string_scope.
Open Scope Z_scope.
Open Scope list_scope.

(** ** Strings *)

Module Str.

Definition between (lo hi n : N) : bool := ((lo <=? n) && (n <=? hi))%N.

(** The class [\w] of [re] on a [str] pattern: the characters for which
    [str.isalnum] holds, and the underscore.  Below U+0080 these are
    [0-9A-Za-z_]; the remaining ranges are the alphanumeric code points of
    U+0080 to U+00FF. *)
Definition is_word (c : ascii) : bool :=
  let n := N_of_ascii c in
  between 48 57 n || between 65 90 n || (n =? 95)%N || between 97 122 n
  || (n =? 170)%N || between 178 179 n || (n =? 181)%N || between 185 186 n
  || between 188 190 n || between 192 214 n || between 216 246 n
  || between 248 255 n.

(** The class [[A-Za-z0-9_]] of the specification's grammar. *)
Definition is_ascii_word (c : ascii) : bool :=
  let n := N_of_ascii c in
  between 48 57 n || between 65 90 n || (n =? 95)%N || between 97 122 n.

(** [str.lower] on one character: the upper-case letters of U+0000 to U+00FF
    are [A-Z], U+00C0 to U+00D6 and U+00D8 to U+00DE; each is 32 below its
    lower-case letter.  (Beyond U+00FF, and so outside the strings of this
    development, the lower-case form of a character can be more than one
    character: that of U+0130 is [i] followed by U+0307.) *)
Definition lower_char (c : ascii) : ascii :=
  let n := N_of_ascii c in
  if between 65 90 n || between 192 214 n || between 216 222 n
  then ascii_of_N (n + 32) else c.

(** [s.lower()] *)
Fixpoint lower (s : string) : string :=
  match s with
  | EmptyString => EmptyString
  | String c r => String (lower_char c) (lower r)
  end.

(** The longest prefix of word characters (what a greedy [\w+] or [\w*]
    consumes first), and the rest of the string. *)
Fixpoint span_word (s : string) : string * string :=
  match s with
  | String c r =>
      if is_word c then let '(w, rest) := span_word r in (String c w, rest)
      else (EmptyString, s)
  | EmptyString => (EmptyString, EmptyString)
  end.

Definition newline : ascii := ascii_of_N 10.

(** [$] without [re.MULTILINE]: at the end of the string, or just before a
    newline that is the last character of the string. *)
Definition at_dollar (rest : string) : bool :=
  match rest with
  | EmptyString => true
  | String c EmptyString => bool_decide (c = newline)
  | _ => false
  end.

Definition nonempty (s : string) : bool :=
  match s with EmptyString => false | _ => true end.

End Str.

(** [ENTITY_ID_PATTERN.match(entity_id)] for
    [ENTITY_ID_PATTERN = re.compile(r"^(?P<domain>\w+)\.(?P<entity>\w+)$")]:
    the two groups when the string matches, [None] otherwise.  [match]
    anchors at the start; a dot is no word character, so the only split that
    can succeed gives each [\w+] its longest run. *)
Definition ENTITY_ID_PATTERN_match (entity_id : string) : option (string * string) :=
  let '(domain, rest1) := Str.span_word entity_id in
  match rest1 with
  | String "." rest2 =>
      let '(entity, rest3) := Str.span_word rest2 in
      if Str.nonempty domain && Str.nonempty entity && Str.at_dollar rest3
      then Some (domain, entity) else None
  | _ => None
  end.

(** The entity-id grammar in the words of the specification:
    [<word>.<word>], a word being one or more characters of a class.  The
    specification takes the class [[A-Za-z0-9_]], [Str.is_ascii_word]. *)
Fixpoint all_chars (p : ascii → bool) (s : string) : bool :=
  match s with
  | EmptyString => true
  | String c r => p c && all_chars p r
  end.

Definition is_word_of (p : ascii → bool) (s : string) : bool :=
  Str.nonempty s && all_chars p s.

Definition entity_id_grammar (p : ascii → bool) (s : string) : Prop :=
  ∃ domain object_id,
    s = domain +:+ "." +:+ object_id ∧
    is_word_of p domain = true ∧ is_word_of p object_id = true.

(** [s.endswith("\n")] *)
Fixpoint ends_with_newline (s : string) : bool :=
  match s with
  | EmptyString => false
  | String c EmptyString => bool_decide (c = Str.newline)
  | String _ r => ends_with_newline r
  end.

(** ** Constants *)

(** Modelled from the spec: the event types of [homeassistant/const.py],
    which is not among the sources; section 6 of the specification lists
    their values. *)
Definition EVENT_HOMEASSISTANT_START : string := "homeassistant_start".
Definition EVENT_HOMEASSISTANT_STOP : string := "homeassistant_stop".
Definition EVENT_STATE_CHANGED : string := "state_changed".
Definition EVENT_TIME_CHANGED : string := "time_changed".
Definition EVENT_CALL_SERVICE : string := "call_service".
Definition EVENT_SERVICE_EXECUTED : string := "service_executed".
Definition EVENT_SERVICE_REGISTERED : string := "service_registered".

(** Modelled from the spec: the reserved event-data attributes of
    [homeassistant/const.py] (section 6 of the specification). *)
Definition ATTR_NOW : string := "now".
Definition ATTR_DOMAIN : string := "domain".
Definition ATTR_SERVICE : string := "service".
Definition ATTR_SERVICE_CALL_ID : string := "service_call_id".

(** Modelled from the spec: the sentinel [MATCH_ALL] of
    [homeassistant/const.py].  The specification names it as a reserved
    event type without giving the string; no statement below depends on
    which string it is. *)
Definition MATCH_ALL : string := "*".

(** How long we wait for the result of a service call, in seconds. *)
Definition SERVICE_CALL_LIMIT : Z := 10.

(** Define number of MINIMUM worker threads. *)
Definition MIN_WORKER_THREAD : nat := 2.

(** ** Time *)

(** A [datetime] is a number of microseconds on the wall clock. *)
Abbreviation datetime := Z (only parsing).

Definition second : Z := 1000000.

(** Modelled from the spec: [util.strip_microseconds] of
    [homeassistant/util.py], which is not among the sources: the time
    "truncated to whole seconds". *)
Definition strip_microseconds (dattim : datetime) : datetime :=
  dattim - dattim mod second.

Definition whole_seconds (dattim : datetime) : Prop := dattim mod second = 0.

(** ** Values and objects *)

Abbreviation loc := positive (only parsing).

(** The values stored in the attributes of a state: [None], integers and
    strings, on which Python's [==] is structural equality. *)
Inductive scalar :=
  | SNone
  | SInt (z : Z)
  | SStr (s : string).

#[export] Instance scalar_eq_dec : EqDecision scalar.
Proof. solve_decision. Defined.

(** [str(v)] *)
Definition str (v : scalar) : string :=
  match v with
  | SNone => "None"
  | SInt z => NilZero.string_of_int (Z.to_int z)
  | SStr s => s
  end.

(** The values stored in the data of an event or of a service call. *)
Inductive pyval :=
  | VNone
  | VInt (z : Z)
  | VStr (s : string)
  | VTime (t : datetime)
  | VState (l : loc).

#[export] Instance pyval_eq_dec : EqDecision pyval.
Proof. solve_decision. Defined.

(** Object to represent a state within the state machine; [attributes]
    refers to a [dict] of the store. *)
Record State := mkState {
  entity_id : string;
  state : string;
  attributes : loc;
  last_changed : datetime;
  last_updated : datetime
}.

#[export] Instance State_eq_dec : EqDecision State.
Proof. solve_decision. Defined.

Inductive EventOrigin := local | remote.

#[export] Instance EventOrigin_eq_dec : EqDecision EventOrigin.
Proof. solve_decision. Defined.

(** Represents an event within the bus; [data] refers to a [dict] of the
    store. *)
Record Event := mkEvent {
  event_type : string;
  data : loc;
  origin : EventOrigin
}.

#[export] Instance Event_eq_dec : EqDecision Event.
Proof. solve_decision. Defined.

(** Represents a call to a service. *)
Record ServiceCall := mkServiceCall {
  domain : string;
  service : string;
  call_data : loc
}.

#[export] Instance ServiceCall_eq_dec : EqDecision ServiceCall.
Proof. solve_decision. Defined.

(** Provides priorities for bus events. *)
Inductive JobPriority :=
  | EVENT_CALLBACK
  | EVENT_SERVICE
  | EVENT_STATE
  | EVENT_TIME
  | EVENT_DEFAULT.

#[export] Instance JobPriority_eq_dec : EqDecision JobPriority.
Proof. solve_decision. Defined.

(** The callables that are listeners of the bus.  Function objects are
    compared by identity: a closure carries the number [fn] it got when the
    enclosing method created it.
    - [Callback f]: a callable of a component, number [f]; it is opaque, and
      has no attribute named [run];
    - [onetime_listener fn event_type listener]: the closure of
      [EventBus.listen_once];
    - [service_executed fn call_id executed_event]: the closure of
      [ServiceRegistry.call];
    - [_event_to_service_call]: the bound method of the service registry. *)
Inductive listener :=
  | Callback (f : nat)
  | onetime_listener (fn : nat) (event_type : string) (target : listener)
  | service_executed (fn : nat) (call_id : string) (executed_event : nat)
  | _event_to_service_call.

#[export] Instance listener_eq_dec : EqDecision listener.
Proof. solve_decision. Defined.

(** A job of the worker pool is a pair [(func, arg)] run as [func(arg)]:
    a listener with its event, or [_execute_service] with the pair of a
    service (a callable of a component, by number) and its call. *)
Inductive job_body :=
  | Listen (func : listener) (arg : Event)
  | Execute (service_func : nat) (call : ServiceCall).

#[export] Instance job_body_eq_dec : EqDecision job_body.
Proof. solve_decision. Defined.

Record job := mkJob { job_priority : JobPriority; job_func : job_body }.

#[export] Instance job_eq_dec : EqDecision job.
Proof. solve_decision. Defined.

(** A call of a callable of a component, as the history keeps it. *)
Inductive invocation :=
  | Called (f : nat) (arg : Event)
  | Served (service_func : nat) (call : ServiceCall).

#[export] Instance invocation_eq_dec : EqDecision invocation.
Proof. solve_decision. Defined.

(** ** The world *)

(** The store, the clock, the objects of the kernel ([EventBus],
    the worker pool, [StateMachine], [ServiceRegistry]) and two histories.

    Modelled from the spec: the worker pool [util.ThreadPool] of
    [homeassistant/util.py] is not among the sources; of it the world keeps
    [pending], the jobs that [add_job] enqueued, in the order of the calls.

    The histories record what the source does but does not store: [fired]
    holds the [Event] object that each [EventBus.fire] builds, [calls] holds
    each call of a callable of a component. *)
Record World := mkWorld {
  attr_dicts : gmap loc (gmap string scalar);
  data_dicts : gmap loc (gmap string pyval);
  state_objs : gmap loc State;
  next_fn : nat;
  run_attr : gset nat;
  flags : gmap nat bool;
  clock : datetime;
  _listeners : gmap string (list listener);
  pending : list job;
  _states : gmap string loc;
  _services : gmap string (gmap string nat);
  _cur_id : Z;
  self_id : Z;
  fired : list Event;
  calls : list invocation
}.

Definition set_attr_dicts (f : gmap loc (gmap string scalar) → gmap loc (gmap string scalar))
    (w : World) : World :=
  mkWorld (f (attr_dicts w)) (data_dicts w) (state_objs w) (next_fn w)
    (run_attr w) (flags w) (clock w) (_listeners w) (pending w) (_states w)
    (_services w) (_cur_id w) (self_id w) (fired w) (calls w).

Definition set_data_dicts (f : gmap loc (gmap string pyval) → gmap loc (gmap string pyval))
    (w : World) : World :=
  mkWorld (attr_dicts w) (f (data_dicts w)) (state_objs w) (next_fn w)
    (run_attr w) (flags w) (clock w) (_listeners w) (pending w) (_states w)
    (_services w) (_cur_id w) (self_id w) (fired w) (calls w).

Definition set_state_objs (f : gmap loc State → gmap loc State) (w : World) : World :=
  mkWorld (attr_dicts w) (data_dicts w) (f (state_objs w)) (next_fn w)
    (run_attr w) (flags w) (clock w) (_listeners w) (pending w) (_states w)
    (_services w) (_cur_id w) (self_id w) (fired w) (calls w).

Definition set_next_fn (f : nat → nat) (w : World) : World :=
  mkWorld (attr_dicts w) (data_dicts w) (state_objs w) (f (next_fn w))
    (run_attr w) (flags w) (clock w) (_listeners w) (pending w) (_states w)
    (_services w) (_cur_id w) (self_id w) (fired w) (calls w).

Definition set_run_attr (f : gset nat → gset nat) (w : World) : World :=
  mkWorld (attr_dicts w) (data_dicts w) (state_objs w) (next_fn w)
    (f (run_attr w)) (flags w) (clock w) (_listeners w) (pending w) (_states w)
    (_services w) (_cur_id w) (self_id w) (fired w) (calls w).

Definition set_flags (f : gmap nat bool → gmap nat bool) (w : World) : World :=
  mkWorld (attr_dicts w) (data_dicts w) (state_objs w) (next_fn w)
    (run_attr w) (f (flags w)) (clock w) (_listeners w) (pending w) (_states w)
    (_services w) (_cur_id w) (self_id w) (fired w) (calls w).

Definition set_clock (f : datetime → datetime) (w : World) : World :=
  mkWorld (attr_dicts w) (data_dicts w) (state_objs w) (next_fn w)
    (run_attr w) (flags w) (f (clock w)) (_listeners w) (pending w) (_states w)
    (_services w) (_cur_id w) (self_id w) (fired w) (calls w).

Definition set_listeners (f : gmap string (list listener) → gmap string (list listener))
    (w : World) : World :=
  mkWorld (attr_dicts w) (data_dicts w) (state_objs w) (next_fn w)
    (run_attr w) (flags w) (clock w) (f (_listeners w)) (pending w) (_states w)
    (_services w) (_cur_id w) (self_id w) (fired w) (calls w).

Definition set_pending (f : list job → list job) (w : World) : World :=
  mkWorld (attr_dicts w) (data_dicts w) (state_objs w) (next_fn w)
    (run_attr w) (flags w) (clock w) (_listeners w) (f (pending w)) (_states w)
    (_services w) (_cur_id w) (self_id w) (fired w) (calls w).

Definition set_states (f : gmap string loc → gmap string loc) (w : World) : World :=
  mkWorld (attr_dicts w) (data_dicts w) (state_objs w) (next_fn w)
    (run_attr w) (flags w) (clock w) (_listeners w) (pending w) (f (_states w))
    (_services w) (_cur_id w) (self_id w) (fired w) (calls w).

Definition set_services (f : gmap string (gmap string nat) → gmap string (gmap string nat))
    (w : World) : World :=
  mkWorld (attr_dicts w) (data_dicts w) (state_objs w) (next_fn w)
    (run_attr w) (flags w) (clock w) (_listeners w) (pending w) (_states w)
    (f (_services w)) (_cur_id w) (self_id w) (fired w) (calls w).

Definition set_cur_id (f : Z → Z) (w : World) : World :=
  mkWorld (attr_dicts w) (data_dicts w) (state_objs w) (next_fn w)
    (run_attr w) (flags w) (clock w) (_listeners w) (pending w) (_states w)
    (_services w) (f (_cur_id w)) (self_id w) (fired w) (calls w).

Definition set_fired (f : list Event → list Event) (w : World) : World :=
  mkWorld (attr_dicts w) (data_dicts w) (state_objs w) (next_fn w)
    (run_attr w) (flags w) (clock w) (_listeners w) (pending w) (_states w)
    (_services w) (_cur_id w) (self_id w) (f (fired w)) (calls w).

Definition set_calls (f : list invocation → list invocation) (w : World) : World :=
  mkWorld (attr_dicts w) (data_dicts w) (state_objs w) (next_fn w)
    (run_attr w) (flags w) (clock w) (_listeners w) (pending w) (_states w)
    (_services w) (_cur_id w) (self_id w) (fired w) (f (calls w)).

(** A kernel that was just built, as [HomeAssistant.__init__] leaves it:
    [ServiceRegistry.__init__] has subscribed [_event_to_service_call] to
    [call_service]. *)
Definition initial (now : datetime) (id_self : Z) : World :=
  mkWorld ∅ ∅ ∅ 0%nat ∅ ∅ now
    {[ EVENT_CALL_SERVICE := [_event_to_service_call] ]} [] ∅ ∅ 0 id_self [] [].

(** ** Computations *)

Inductive exn :=
  | InvalidEntityFormatError
  | KeyError
  | ValueError
  | TypeError
  | DanglingReference.

Inductive outcome (A : Type) :=
  | Return (a : A)
  | Raise (e : exn).

Arguments Return {A} a.
Arguments Raise {A} e.

(** A computation runs in a world, ends in a value or in an exception, and
    leaves a world: what it wrote before raising stays written. *)
Definition M (A : Type) : Type := World → outcome A * World.

#[export] Instance M_ret : MRet M := λ A a w, (Return a, w).

#[export] Instance M_bind : MBind M := λ A B f m w,
  match m w with
  | (Return a, w') => f a w'
  | (Raise e, w') => (Raise e, w')
  end.

Definition raise {A} (e : exn) : M A := λ w, (Raise e, w).
Definition gets {A} (f : World → A) : M A := λ w, (Return (f w), w).
Definition modify (f : World → World) : M unit := λ w, (Return tt, f w).

(** The world that a computation leaves, and how it ends. *)
Definition exec {A} (m : M A) (w : World) : World := (m w).2.
Definition result {A} (m : M A) (w : World) : outcome A := (m w).1.

(** A reference is read through the store; a reference to nothing is an
    error that no Python program meets. *)
Definition deref {A} (o : option A) : M A :=
  match o with
  | Some a => mret a
  | None => raise DanglingReference
  end.

Fixpoint for_each {A} (f : A → M unit) (l : list A) : M unit :=
  match l with
  | [] => mret tt
  | x :: r => _ ← f x; for_each f r
  end.

Fixpoint collect {A B} (f : A → M B) (l : list A) : M (list B) :=
  match l with
  | [] => mret []
  | x :: r => y ← f x; ys ← collect f r; mret (y :: ys)
  end.

(** [dt.datetime.now()] *)
Definition now : M datetime := gets clock.

(** A new [dict] for attributes, and the operations on one. *)
Definition new_attrs (d : gmap string scalar) : M loc := λ w,
  let l := fresh (dom (attr_dicts w)) in
  (Return l, set_attr_dicts <[l := d]> w).

Definition read_attrs (l : loc) : M (gmap string scalar) := λ w,
  deref (attr_dicts w !! l) w.

(** A new [dict] for the data of an event, and the operations on one. *)
Definition new_data (d : gmap string pyval) : M loc := λ w,
  let l := fresh (dom (data_dicts w)) in
  (Return l, set_data_dicts <[l := d]> w).

Definition read_data (l : loc) : M (gmap string pyval) := λ w,
  deref (data_dicts w !! l) w.

(** [d[key] = value] *)
Definition data_setitem (l : loc) (key : string) (value : pyval) : M unit :=
  d ← read_data l; modify (set_data_dicts <[l := <[key := value]> d]>).

(** [d[key]] *)
Definition data_getitem (l : loc) (key : string) : M pyval :=
  d ← read_data l;
  match d !! key with
  | Some v => mret v
  | None => raise KeyError
  end.

(** [d[key] = value] on the attributes of a state. *)
Definition attrs_setitem (l : loc) (key : string) (value : scalar) : M unit :=
  modify (set_attr_dicts (alter <[key := value]> l)).

(** A new [State] object, and reading one. *)
Definition new_state_obj (s : State) : M loc := λ w,
  let l := fresh (dom (state_objs w)) in
  (Return l, set_state_objs <[l := s]> w).

Definition read_state (l : loc) : M State := λ w,
  deref (state_objs w !! l) w.

(** An assignment to fields of a [State] object, such as
    [state.state = value]. *)
Definition State_assign (l : loc) (f : State → State) : M unit :=
  modify (set_state_objs (alter f l)).

(** [attributes or {}]: [None] and the empty [dict] are false, and give way
    to a new empty [dict]. *)
Definition or_new_attrs (attributes : option loc) : M loc :=
  match attributes with
  | None => new_attrs ∅
  | Some l =>
      d ← read_attrs l;
      if decide (d = ∅) then new_attrs ∅ else mret l
  end.

(** ** class State *)

(** The dictionaries that [State.as_dict] builds and [State.from_dict]
    reads: each of the four keys is absent or holds a value of the type
    that [as_dict] gives it. *)
Record json_dict := mkJson {
  json_entity_id : option string;
  json_state : option string;
  json_attributes : option loc;
  json_last_changed : option string
}.

Module State.

Definition __init__ (entity_id : string) (state : string)
    (attributes : option loc) (last_changed : option datetime) : M loc :=
  match ENTITY_ID_PATTERN_match entity_id with
  | None => raise InvalidEntityFormatError
  | Some _ =>
      attributes ← or_new_attrs attributes;
      last_updated ← now;
      (* a datetime is never false: [last_changed or self.last_updated] *)
      new_state_obj
        (mkState (Str.lower entity_id) state attributes
           (strip_microseconds (default last_updated last_changed))
           last_updated)
  end.

(** Creates a copy of itself. *)
Definition copy (self : loc) : M loc :=
  s ← read_state self;
  d ← read_attrs (attributes s);
  a ← new_attrs d;
  __init__ (entity_id s) (state s) (Some a) (Some (last_changed s)).

Section Serialisation.

(** [util.datetime_to_str] and [util.str_to_datetime] of
    [homeassistant/util.py], which is not among the sources. *)
Variable datetime_to_str : datetime → string.
Variable str_to_datetime : string → option datetime.

(** Converts State to a dict to be used within JSON. *)
Definition as_dict (self : loc) : M json_dict :=
  s ← read_state self;
  mret (mkJson (Some (entity_id s)) (Some (state s)) (Some (attributes s))
          (Some (datetime_to_str (last_changed s)))).

(** Static method to create a state from a dict. *)
Definition from_dict (json_dict : json_dict) : M (option loc) :=
  match json_entity_id json_dict, json_state json_dict with
  | Some entity_id, Some state =>
      let last_changed :=
        match json_last_changed json_dict with
        | Some s => if Str.nonempty s then str_to_datetime s else None
        | None => None
        end in
      l ← __init__ entity_id state (json_attributes json_dict) last_changed;
      mret (Some l)
  | _, _ => mret None
  end.

End Serialisation.

Definition __eq__ (self other : loc) : M bool :=
  s ← read_state self;
  o ← read_state other;
  if bool_decide (entity_id s = entity_id o) && bool_decide (state s = state o)
  then
    a ← read_attrs (attributes s);
    b ← read_attrs (attributes o);
    mret (bool_decide (a = b))
  else mret false.

End State.

(** ** class JobPriority *)

Module JobPriority.

Definition value (p : JobPriority) : Z :=
  match p with
  | EVENT_CALLBACK => 0
  | EVENT_SERVICE => 1
  | EVENT_STATE => 2
  | EVENT_TIME => 3
  | EVENT_DEFAULT => 4
  end.

(** Returns a priority based on event type. *)
Definition from_event_type (event_type : string) : JobPriority :=
  if decide (event_type = EVENT_TIME_CHANGED) then EVENT_TIME
  else if decide (event_type = EVENT_STATE_CHANGED) then EVENT_STATE
  else if decide (event_type = EVENT_CALL_SERVICE) then EVENT_SERVICE
  else if decide (event_type = EVENT_SERVICE_EXECUTED) then EVENT_CALLBACK
  else EVENT_DEFAULT.

End JobPriority.

(** ** class Event *)

(** [data or {}] *)
Definition or_new_data (data : option loc) : M loc :=
  match data with
  | None => new_data ∅
  | Some l =>
      d ← read_data l;
      if decide (d = ∅) then new_data ∅ else mret l
  end.

Module Event.

Definition __init__ (event_type : string) (data : option loc)
    (origin : EventOrigin) : M Event :=
  data ← or_new_data data;
  mret (mkEvent event_type data origin).

End Event.

(** ** The worker pool *)

(** Modelled from the spec: [ThreadPool.add_job] of [homeassistant/util.py],
    which is not among the sources: "enqueue; non-blocking". *)
Definition add_job (priority : JobPriority) (job : job_body) : M unit :=
  modify (set_pending (λ q, q ++ [mkJob priority job])).

(** ** class EventBus *)

(** A new function object: its identity number. *)
Definition new_fn : M nat :=
  fn ← gets next_fn;
  _ ← modify (set_next_fn S);
  mret fn.

(** [hasattr(func, 'run')] *)
Definition has_run (func : listener) (w : World) : bool :=
  match func with
  | onetime_listener fn _ _ => bool_decide (fn ∈ run_attr w)
  | _ => false
  end.

(** [l.remove(x)]: the list without the first item equal to [x], or [None]
    where Python raises [ValueError].  Function objects are equal when they
    are the same object. *)
Fixpoint remove_first (x : listener) (l : list listener) : option (list listener) :=
  match l with
  | [] => None
  | y :: r =>
      if decide (y = x) then Some r
      else match remove_first x r with
           | Some r' => Some (y :: r')
           | None => None
           end
  end.

Module EventBus.

(** The [dict.get] of [self._listeners] with default [[]]. *)
Definition get (w : World) (key : string) : list listener :=
  default [] (_listeners w !! key).

(** Dict with events that is being listened for and the number of
    listeners. *)
Definition listeners : M (gmap string nat) :=
  gets (λ w, length <$> _listeners w).

(** Fire an event. *)
Definition fire (event_type : string) (event_data : option loc)
    (origin : EventOrigin) : M unit :=
  get ← gets get;
  let listeners := get MATCH_ALL ++ get event_type in
  event ← Event.__init__ event_type event_data origin;
  _ ← modify (set_fired (λ h, h ++ [event]));
  match listeners with
  | [] => mret tt
  | _ =>
      let job_priority := JobPriority.from_event_type event_type in
      for_each (λ func, add_job job_priority (Listen func event)) listeners
  end.

(** Listen for all events or events of a specific type. *)
Definition listen (event_type : string) (listener : listener) : M unit :=
  modify (set_listeners (λ ls,
    match ls !! event_type with
    | Some l => <[event_type := l ++ [listener]]> ls
    | None => <[event_type := [listener]]> ls
    end)).

(** Listen once for event of a specific type.  The closure
    [onetime_listener] is a new function object each time;
    [@ft.wraps(listener)] copies the attributes of [listener] to it, so it
    starts with the attribute [run] when [listener] has one. *)
Definition listen_once (event_type : string) (listener : listener) : M unit :=
  fn ← new_fn;
  wrapped_run ← gets (has_run listener);
  _ ← (if wrapped_run : bool then modify (set_run_attr (λ r, {[fn]} ∪ r))
       else mret tt);
  listen event_type (onetime_listener fn event_type listener).

(** Removes a listener of a specific event_type. *)
Definition remove_listener (event_type : string) (listener : listener) : M unit :=
  modify (set_listeners (λ ls,
    match ls !! event_type with
    | None => ls (* KeyError *)
    | Some l =>
        match remove_first listener l with
        | None => ls (* ValueError *)
        | Some [] => delete event_type ls
        | Some l' => <[event_type := l']> ls
        end
    end)).

End EventBus.

(** ** Matching parameters *)

(** A parameter of [track_change] or [track_time_change]: one value
    ([None], an integer, or a string, which counts as one value), or an
    iterable of values. *)
Inductive match_param :=
  | One (v : scalar)
  | Several (l : list scalar).

(** The patterns of [_matcher]: "either a list of allowed subjects or a
    MATCH_ALL"; the list is the tuple that [_process_match_param] builds. *)
Inductive pattern :=
  | Match_all
  | Allowed (subjects : list scalar).

(** Wraps parameter in a list if it is not one and returns it. *)
Definition _process_match_param (parameter : match_param) : pattern :=
  match parameter with
  | One SNone => Match_all
  | One (SStr s) => if decide (s = MATCH_ALL) then Match_all else Allowed [SStr s]
  | One v => Allowed [v]
  | Several l => Allowed l
  end.

(** Returns True if subject matches the pattern. *)
Definition _matcher (subject : scalar) (pattern : pattern) : bool :=
  match pattern with
  | Match_all => true
  | Allowed subjects => bool_decide (subject ∈ subjects)
  end.

(** ** class StateMachine *)

Module StateMachine.

(** Returns a list of all states. *)
Definition all : M (list loc) :=
  values ← gets (λ w, (map_to_list (_states w)).*2);
  collect State.copy values.

(** Returns the state of the specified entity. *)
Definition get (entity_id : string) : M (option loc) :=
  state ← gets (λ w, _states w !! Str.lower entity_id);
  match state with
  | Some state => c ← State.copy state; mret (Some c)
  | None => mret None
  end.

(** The comprehension [[state for state in values if keep(state)]]. *)
Fixpoint select (keep : State → bool) (values : list loc) : M (list loc) :=
  match values with
  | [] => mret []
  | state :: r =>
      s ← read_state state;
      rest ← select keep r;
      mret (if keep s then state :: rest else rest)
  end.

(** Returns all states that have been changed since point_in_time. *)
Definition get_since (point_in_time : datetime) : M (list loc) :=
  let point_in_time := strip_microseconds point_in_time in
  values ← gets (λ w, (map_to_list (_states w)).*2);
  select (λ s, bool_decide (point_in_time ≤ last_updated s)) values.

(** Returns True if entity exists and is specified state. *)
Definition is_state (entity_id : string) (state' : string) : M bool :=
  let entity_id := Str.lower entity_id in
  o ← gets (λ w, _states w !! entity_id);
  match o with
  | None => mret false
  | Some l => s ← read_state l; mret (bool_decide (state s = state'))
  end.

(** Removes an entity from the state machine. *)
Definition remove (entity_id : string) : M bool :=
  let entity_id := Str.lower entity_id in
  o ← gets (λ w, _states w !! entity_id);
  _ ← modify (set_states (delete entity_id));
  mret (bool_decide (is_Some o)).

(** Set the state of an entity, add entity if it does not exist.
    If you just update the attributes and not the state, last changed will
    not be affected. *)
Definition set (entity_id : string) (new_state : scalar)
    (attributes : option loc) : M unit :=
  let entity_id := Str.lower entity_id in
  let new_state := str new_state in
  attributes ← or_new_attrs attributes;
  old_state ← gets (λ w, _states w !! entity_id);
  (* the fields of [old_state] that are read, and its attributes *)
  old ← match old_state with
        | Some l =>
            '(mkState _ old_st old_attr old_changed _) ← read_state l;
            a ← read_attrs old_attr;
            mret (Some (old_st, a, old_changed))
        | None => mret None
        end;
  new_attr ← read_attrs attributes;
  let same_state :=
    match old with
    | Some (old_st, _, _) => bool_decide (old_st = new_state)
    | None => false
    end in
  let same_attr :=
    match old with
    | Some (_, a, _) => bool_decide (a = new_attr)
    | None => false
    end in
  (* If state did not exist or is different, set it *)
  if same_state && same_attr then mret tt
  else
    let last_changed :=
      match old with
      | Some (_, _, old_changed) => if same_state then Some old_changed else None
      | None => None
      end in
    state ← State.__init__ entity_id new_state (Some attributes) last_changed;
    _ ← modify (set_states <[entity_id := state]>);
    event_data ← new_data {[ "entity_id" := VStr entity_id;
                             "new_state" := VState state ]};
    _ ← match old_state with
        | Some o => data_setitem event_data "old_state" (VState o)
        | None => mret tt
        end;
    EventBus.fire EVENT_STATE_CHANGED (Some event_data) local.

(** The first lines of [track_change]: "Ensure it is a lowercase list with
    entity ids we want to match on"; [entity_ids] is one string or an
    iterable of strings. *)
Definition lower_entity_ids (entity_ids : string + list string) : list string :=
  match entity_ids with
  | inl entity_id => [Str.lower entity_id]
  | inr entity_ids => Str.lower <$> entity_ids
  end.

(** What a listener of [track_change] does with an event: it calls
    [action] with three arguments, or returns without a call, or ends in
    an [AttributeError], which Python raises where a value that is no
    [State] is asked for its [state]. *)
Inductive reaction :=
  | Calls (entity_id old_state new_state : pyval)
  | No_call
  | AttributeError.

(** [value.state] for a value of the data of an event; [None] stands for
    the [AttributeError]. *)
Definition state_of (value : pyval) : M (option scalar) :=
  match value with
  | VState l => s ← read_state l; mret (Some (SStr (state s)))
  | _ => mret None
  end.

(** The closure [state_listener] of [track_change], "the listener that
    listens for specific state changes": [entity_ids], [from_state] and
    [to_state] are the variables of [track_change] after their
    normalisation.  [and] evaluates its second operand only where the first
    is true. *)
Definition state_listener (entity_ids : list string) (from_state to_state : pattern)
    (event : Event) : M reaction :=
  d ← read_data (data event);
  match d !! "entity_id" with
  | None => raise KeyError
  | Some entity_id =>
      if bool_decide (entity_id ∈ VStr <$> entity_ids) then
        old_state ← match d !! "old_state" with
                    | Some old => state_of old
                    | None => mret (Some SNone)
                    end;
        match old_state with
        | None => mret AttributeError
        | Some old_state =>
            if _matcher old_state from_state then
              match d !! "new_state" with
              | None => raise KeyError
              | Some new =>
                  new_state ← state_of new;
                  match new_state with
                  | None => mret AttributeError
                  | Some new_state =>
                      if _matcher new_state to_state
                      then mret (Calls entity_id (default VNone (d !! "old_state")) new)
                      else mret No_call
                  end
              end
            else mret No_call
        end
      else mret No_call
  end.

End StateMachine.

(** ** class ServiceRegistry *)

(** [threading.Event()]: a new flag, initially false. *)
Definition new_flag : M nat := λ w,
  let g := fresh (dom (flags w)) in
  (Return g, set_flags <[g := false]> w).

(** [executed_event.set()] *)
Definition flag_set (g : nat) : M unit := modify (set_flags <[g := true]>).

(** [executed_event.isSet()] *)
Definition is_set (g : nat) (w : World) : bool := default false (flags w !! g).

Module ServiceRegistry.

(** Dict with per domain a list of available services. *)
Definition services : M (gmap string (list string)) :=
  gets (λ w, (λ m : gmap string nat, (map_to_list m).*1) <$> _services w).

(** Returns True if specified service exists. *)
Definition has_service (domain service : string) : M bool :=
  gets (λ w, match _services w !! domain with
             | Some m => bool_decide (is_Some (m !! service))
             | None => false
             end).

(** Register a service. *)
Definition register (domain service : string) (service_func : nat) : M unit :=
  _ ← modify (set_services (λ ss,
        match ss !! domain with
        | Some m => <[domain := <[service := service_func]> m]> ss
        | None => <[domain := {[service := service_func]}]> ss
        end));
  event_data ← new_data {[ ATTR_DOMAIN := VStr domain;
                           ATTR_SERVICE := VStr service ]};
  EventBus.fire EVENT_SERVICE_REGISTERED (Some event_data) local.

(** Generates a unique service call id: [id(self)] is [self_id]. *)
Definition _generate_unique_id : M string :=
  _ ← modify (set_cur_id (λ n, n + 1));
  id_self ← gets self_id;
  cur_id ← gets _cur_id;
  mret (str (SInt id_self) +:+ "-" +:+ str (SInt cur_id)).

Section Call.

(** [executed_event.wait(timeout)] suspends the calling thread while the
    other threads run; what it does to the world, and what it returns, is
    [wait executed_event timeout]. *)
Variable wait : nat → Z → M bool.

(** Calls specified service.  Specify blocking=True to wait till service is
    executed.  The result is [None] where the source returns no value. *)
Definition call (domain service : string) (service_data : option loc)
    (blocking : bool) : M (option bool) :=
  call_id ← _generate_unique_id;
  event_data ← or_new_data service_data;
  _ ← data_setitem event_data ATTR_DOMAIN (VStr domain);
  _ ← data_setitem event_data ATTR_SERVICE (VStr service);
  _ ← data_setitem event_data ATTR_SERVICE_CALL_ID (VStr call_id);
  waiting ← (if blocking then
               executed_event ← new_flag;
               fn ← new_fn;
               let closure := service_executed fn call_id executed_event in
               _ ← EventBus.listen EVENT_SERVICE_EXECUTED closure;
               mret (Some (executed_event, closure))
             else mret None);
  _ ← EventBus.fire EVENT_CALL_SERVICE (Some event_data) local;
  match waiting with
  | Some (executed_event, closure) =>
      signalled ← wait executed_event SERVICE_CALL_LIMIT;
      if signalled : bool then mret (Some true)
      else
        _ ← EventBus.remove_listener EVENT_SERVICE_EXECUTED closure;
        mret (Some false)
  | None => mret None
  end.

End Call.

(** Calls a service from an event. *)
Definition _event_to_service_call (event : Event) : M unit :=
  d ← read_data (data event);
  service_data ← new_data (delete ATTR_SERVICE (delete ATTR_DOMAIN d));
  services ← gets _services;
  match d !! ATTR_DOMAIN, d !! ATTR_SERVICE with
  | Some (VStr domain), Some (VStr service) =>
      match services !! domain ≫= (.!! service) with
      | Some service_func =>
          call_data ← or_new_data (Some service_data);
          add_job EVENT_SERVICE
            (Execute service_func (mkServiceCall domain service call_data))
      | None => mret tt
      end
  | _, _ => mret tt
  end.

(** Executes a service and fires a SERVICE_EXECUTED event.  The service is
    a callable of a component: the history records the call. *)
Definition _execute_service (service_func : nat) (call : ServiceCall) : M unit :=
  _ ← modify (set_calls (λ h, h ++ [Served service_func call]));
  call_id ← data_getitem (call_data call) ATTR_SERVICE_CALL_ID;
  event_data ← new_data {[ ATTR_SERVICE_CALL_ID := call_id ]};
  EventBus.fire EVENT_SERVICE_EXECUTED (Some event_data) local.

End ServiceRegistry.

(** ** class HomeAssistant *)

Module HomeAssistant.

(** The closure [point_in_time_listener] of [track_point_in_time], which
    "listens for matching time_changed events" and which
    [track_point_in_time] subscribes to [time_changed].  A closure refers
    to itself: [self_] is the closure as the bus holds it, and [fn] the
    number of its function object, which carries the attribute [run].  The result
    is the argument of the call [action(now)], or [None] when [action] is
    not called; a [now] that is no time cannot be compared with
    [point_in_time]. *)
Definition point_in_time_listener (self_ : listener) (fn : nat)
    (point_in_time : datetime) (event : Event) : M (option datetime) :=
  now ← data_getitem (data event) ATTR_NOW;
  match now with
  | VTime now =>
      has_run ← gets (λ w, bool_decide (fn ∈ run_attr w));
      if bool_decide (point_in_time ≤ now) && negb has_run then
        _ ← modify (set_run_attr (λ r, {[fn]} ∪ r));
        _ ← EventBus.remove_listener EVENT_TIME_CHANGED self_;
        mret (Some now)
      else mret None
  | _ => raise TypeError
  end.

End HomeAssistant.

(** ** The worker threads *)

(** [func(event)] for a listener [func] of the bus.
    - A callable of a component is opaque: the history records the call.
    - [onetime_listener]: "Removes listener from eventbus and then fires
      listener"; the attribute [run] of the function object is in
      [run_attr].
    - [service_executed]: "Will set the event if matches our service
      call". *)
Fixpoint call_listener (func : listener) (event : Event) : M unit :=
  match func with
  | Callback f => modify (set_calls (λ h, h ++ [Called f event]))
  | onetime_listener fn event_type listener =>
      already_run ← gets (has_run func);
      if already_run : bool then mret tt
      else
        _ ← modify (set_run_attr (λ r, {[fn]} ∪ r));
        _ ← EventBus.remove_listener event_type func;
        call_listener listener event
  | service_executed fn call_id executed_event =>
      id ← data_getitem (data event) ATTR_SERVICE_CALL_ID;
      if decide (id = VStr call_id) then
        _ ← flag_set executed_event;
        EventBus.remove_listener EVENT_SERVICE_EXECUTED func
      else mret tt
  | _event_to_service_call => ServiceRegistry._event_to_service_call event
  end.

(** Called whenever a job is available to do: runs [func(arg)] and catches
    any exception it throws. *)
Definition job_handler (job : job) : M unit := λ w,
  let run :=
    match job_func job with
    | Listen func arg => call_listener func arg
    | Execute service_func call => ServiceRegistry._execute_service service_func call
    end in
  (Return tt, exec run w).

(** The body of the [if] of [onetime_listener(event)], which a worker
    reaches when the test [not hasattr(onetime_listener, 'run')] held. *)
Definition onetime_body (func : listener) (event : Event) : M unit :=
  match func with
  | onetime_listener fn event_type listener =>
      _ ← modify (set_run_attr (λ r, {[fn]} ∪ r));
      _ ← EventBus.remove_listener event_type func;
      call_listener listener event
  | _ => mret tt
  end.

(** How far a worker thread is with its job: it has taken the job; it is
    inside [onetime_listener] and has found no attribute [run]; it is
    done. *)
Inductive progress :=
  | Started
  | Tested
  | Finished.

Record worker := mkWorker { worker_job : job; worker_at : progress }.

(** One step of a worker thread.  The worker pool has
    [MIN_WORKER_THREAD = 2] threads or more, and [onetime_listener] holds
    no lock: a worker that runs it first evaluates
    [not hasattr(onetime_listener, 'run')] and then, in a step of its own,
    enters the body of the [if]; other threads run between the two.  Any
    other job is run in one step.  As in [job_handler], an exception ends
    the job and is caught. *)
Definition worker_step (k : worker) : M worker := λ w,
  match worker_at k, job_func (worker_job k) with
  | Started, Listen (onetime_listener _ _ _ as func) arg =>
      (Return (mkWorker (worker_job k) (if has_run func w then Finished else Tested)), w)
  | Started, _ =>
      (Return (mkWorker (worker_job k) Finished), exec (job_handler (worker_job k)) w)
  | Tested, Listen func arg =>
      (Return (mkWorker (worker_job k) Finished), exec (onetime_body func arg) w)
  | _, _ => (Return k, w)
  end.

(** The worker threads take their steps in the order of [schedule], which
    names the thread of each step by its position. *)
Fixpoint interleave (schedule : list nat) (workers : list worker) : M (list worker) :=
  match schedule with
  | [] => mret workers
  | i :: rest =>
      match workers !! i with
      | Some k => k' ← worker_step k; interleave rest (<[i := k']> workers)
      | None => interleave rest workers
      end
  end.

(** What another thread does in one step.
    - [Work i]: a worker takes the job at position [i] of the pending jobs
      and runs it (no job there: nothing happens);
    - [Fire], [Subscribe], [Unsubscribe], [SetState]: a component calls
      [bus.fire] (with a new dict as data), [bus.listen] with a callable of
      its own, [bus.remove_listener], [states.set] (with a new dict as
      attributes);
    - [Tick]: time passes.
    These are the calls of methods of the kernel.  What a component does to
    an object that it was handed, such as an assignment to a field of a
    [State] ([State_assign]), is not among them. *)
Inductive action :=
  | Work (i : nat)
  | Fire (event_type : string) (event_data : gmap string pyval) (origin : EventOrigin)
  | Subscribe (event_type : string) (f : nat)
  | Unsubscribe (event_type : string) (l : listener)
  | SetState (entity_id : string) (new_state : scalar) (attributes : gmap string scalar)
  | Tick (elapsed : Z).

Definition perform (a : action) (w : World) : World :=
  match a with
  | Work i =>
      match pending w !! i with
      | Some job => exec (job_handler job) (set_pending (delete i) w)
      | None => w
      end
  | Fire event_type event_data origin =>
      exec (d ← new_data event_data; EventBus.fire event_type (Some d) origin) w
  | Subscribe event_type f => exec (EventBus.listen event_type (Callback f)) w
  | Unsubscribe event_type l => exec (EventBus.remove_listener event_type l) w
  | SetState entity_id new_state attributes =>
      exec (a ← new_attrs attributes;
            StateMachine.set entity_id new_state (Some a)) w
  | Tick elapsed => set_clock (λ t, t + Z.max 0 elapsed) w
  end.

(** [flag.wait(timeout)], [timeout] in seconds.  The calling thread is
    suspended; [others] lists the steps of the other threads from then on,
    each with the time, in microseconds since the wait began, at which it
    takes place.  The wait ends with [True] as soon as the flag is set, and
    with [False] when the next step would take place after the timeout. *)
Fixpoint Event_wait (others : list (Z * action)) (flag : nat) (timeout : Z) : M bool :=
  λ w,
  if is_set flag w then (Return true, w)
  else
    match others with
    | (t, a) :: rest =>
        if decide (t ≤ timeout * second)
        then Event_wait rest flag timeout (perform a w)
        else (Return false, w)
    | [] => (Return false, w)
    end.

(** * Vocabulary of the properties *)

(** What [span_word] returns: the string is split in two, the first part
    holds word characters only, the second does not start with one. *)
Definition no_word_start (r : string) : Prop :=
  match r with
  | EmptyString => True
  | String c _ => Str.is_word c = false
  end.

(** The argument [attributes] of a constructor is [None] or refers to a
    [dict] of the store. *)
Definition attrs_arg (w : World) (attrs : option loc) : Prop :=
  match attrs with
  | None => True
  | Some l => is_Some (attr_dicts w !! l)
  end.

(** The contents that [attributes or {}] has. *)
Definition attrs_contents (w : World) (attrs : option loc) : gmap string scalar :=
  match attrs with
  | None => ∅
  | Some l => default ∅ (attr_dicts w !! l)
  end.

(** [w'] is [w] with more [dict]s for attributes, and nothing else
    changed. *)
Definition more_attrs (w w' : World) : Prop :=
  (∀ l d, attr_dicts w !! l = Some d → attr_dicts w' !! l = Some d) ∧
  w' = set_attr_dicts (λ _, attr_dicts w') w.

(** The [State] object that the constructor builds. *)
Definition built (w : World) (eid st : string) (attrs : loc)
    (changed : option datetime) : State :=
  mkState (Str.lower eid) st attrs
    (strip_microseconds (default (clock w) changed)) (clock w).

(** A [State] object that the constructor accepts again, as [copy] and
    [from_dict] need it: its attributes are in the store, its entity id
    matches the pattern and is in lower case.  The constructor leaves such
    an object when the lower-case form of its entity id matches the
    pattern. *)
Definition State_valid (w : World) (self : loc) : Prop :=
  ∃ s, state_objs w !! self = Some s ∧
       is_Some (attr_dicts w !! attributes s) ∧
       is_Some (ENTITY_ID_PATTERN_match (entity_id s)) ∧
       Str.lower (entity_id s) = entity_id s.

(** The lower-case form of every word character of [s] is a word
    character. *)
Definition lower_keeps_words (s : string) : bool :=
  all_chars (λ c, implb (Str.is_word c) (Str.is_word (Str.lower_char c))) s.

(** The claim on the constructor for one entity id, over a class [p] of
    word characters: it raises [InvalidEntityFormatError] exactly when the
    id is not of the grammar, and on success the object holds the id in
    lower case, which is of the grammar. *)
Definition raises_exactly_off_grammar (p : ascii → bool) (eid : string) : Prop :=
  ∀ w st attrs changed,
    attrs_arg w attrs →
    (result (State.__init__ eid st attrs changed) w = Raise InvalidEntityFormatError
     ↔ ¬ entity_id_grammar p eid) ∧
    (∀ l w', State.__init__ eid st attrs changed w = (Return l, w') →
       ∃ s, state_objs w' !! l = Some s ∧
            entity_id s = Str.lower eid ∧
            entity_id_grammar p (Str.lower eid)).

(** An entity id with a letter outside ASCII: U+00E9. *)
Definition cafe_lamp : string := "caf" +:+ String (ascii_of_N 233) ".lamp".

(** An entity id with a newline after the object id. *)
Definition kitchen_newline : string := "light.kitchen" +:+ String Str.newline "".

(** The argument [data] of an event is [None] or refers to a [dict] of the
    store. *)
Definition data_arg (w : World) (data : option loc) : Prop :=
  match data with
  | None => True
  | Some l => is_Some (data_dicts w !! l)
  end.

(** The contents that [data or {}] has. *)
Definition data_contents (w : World) (data : option loc) : gmap string pyval :=
  match data with
  | None => ∅
  | Some l => default ∅ (data_dicts w !! l)
  end.

(** [w'] is [w] with more [dict]s for data, and nothing else changed. *)
Definition more_data (w w' : World) : Prop :=
  (∀ l d, data_dicts w !! l = Some d → data_dicts w' !! l = Some d) ∧
  w' = set_data_dicts (λ _, data_dicts w') w.

(** The jobs that a [fire] of [event] hands to the pool, one for each
    listener of the list. *)
Definition jobs_of (event : Event) (listeners : list listener) : list job :=
  map (λ func, mkJob (JobPriority.from_event_type (event_type event)) (Listen func event))
      listeners.

(** The listeners that a [fire] of [event_type] takes from the bus: those
    of [MATCH_ALL], then those of the event type. *)
Definition snapshot (w : World) (t : string) : list listener :=
  EventBus.get w MATCH_ALL ++ EventBus.get w t.

(** The priority of a job by the type of its event, as a number. *)
Definition priority_table (t : string) : Z :=
  if decide (t = "service_executed") then 0
  else if decide (t = "call_service") then 1
  else if decide (t = "state_changed") then 2
  else if decide (t = "time_changed") then 3
  else 4.

(** How often a listener occurs in a list of listeners. *)
Fixpoint registrations (l : listener) (b : list listener) : nat :=
  match b with
  | [] => 0
  | y :: r => (if decide (y = l) then 1 else 0) + registrations l r
  end%nat.

(** How many jobs of a list run the listener [l]. *)
Fixpoint jobs_for (l : listener) (q : list job) : nat :=
  match q with
  | [] => 0
  | j :: r =>
      (match job_func j with
       | Listen func _ => if decide (func = l) then 1 else 0
       | Execute _ _ => 0
       end + jobs_for l r)
  end%nat.

(** The jobs that a computation hands to the pool. *)
Definition enqueued_by {A} (m : M A) (w : World) : list job :=
  drop (length (pending w)) (pending (exec m w)).

(** [listen] followed by [remove_listener], for the same event type and
    listener. *)
Definition listen_then_remove (t : string) (l : listener) : M unit :=
  _ ← EventBus.listen t l; EventBus.remove_listener t l.

(** The last part of C9 as the specification states it: after
    [listen(t, l)] and [remove_listener(t, l)], a [fire(t)] hands no job
    for [l] to the pool. *)
Definition no_job_after_listen_remove (w : World) (t : string) (l : listener) : Prop :=
  jobs_for l (enqueued_by (EventBus.fire t None local)
                (exec (listen_then_remove t l) w)) = 0%nat.

(** Every entity of the state machine refers to a [State] object of the
    store, and that to its attributes. *)
Definition registry_ok (w : World) : Prop :=
  ∀ key l, _states w !! key = Some l →
    ∃ s a, state_objs w !! l = Some s ∧ attr_dicts w !! attributes s = Some a.

(** The [State] stored under a key, with the contents of its attributes. *)
Definition stored (w : World) (key : string) : option (State * gmap string scalar) :=
  l ← _states w !! key;
  s ← state_objs w !! l;
  a ← attr_dicts w !! attributes s;
  Some (s, a).

(** A state is stored under the key and its pair of state and attributes
    is the given one. *)
Definition same_pair (w : World) (key st : string) (d : gmap string scalar) : bool :=
  match stored w key with
  | Some (s, a) => bool_decide (state s = st) && bool_decide (a = d)
  | None => false
  end.

(** The [last_changed] that [set] hands to the constructor. *)
Definition carried (w : World) (key st : string) : option datetime :=
  match stored w key with
  | Some (s, _) => if bool_decide (state s = st) then Some (last_changed s) else None
  | None => None
  end.

(** The data of the event that [set] fires. *)
Definition state_changed_data (w : World) (key : string) (l : loc) : gmap string pyval :=
  match _states w !! key with
  | Some o => <["old_state" := VState o]>
                {[ "entity_id" := VStr key; "new_state" := VState l ]}
  | None => {[ "entity_id" := VStr key; "new_state" := VState l ]}
  end.

(** What C1 says of one call [set(entity_id, new_state, attributes)]:
    when the pair of state and attributes is the stored one, the map and
    the history of fired events are as before; otherwise the entry of the
    lowercased entity id is a new [State] that holds the new pair, and
    exactly one event was fired, of type [state_changed], whose data hold
    the entity id, the new state, and the old state if and only if there
    was one. *)
Definition set_as_claimed (w : World) (eid : string) (new : scalar)
    (attrs : option loc) : Prop :=
  let key := Str.lower eid in
  let st := str new in
  let d := attrs_contents w attrs in
  let w' := exec (StateMachine.set eid new attrs) w in
  if same_pair w key st d then
    _states w' = _states w ∧ fired w' = fired w ∧ pending w' = pending w
  else
    ∃ l s event event_data,
      _states w' = <[key := l]> (_states w) ∧
      state_objs w !! l = None ∧ state_objs w' !! l = Some s ∧
      entity_id s = key ∧ state s = st ∧ attr_dicts w' !! attributes s = Some d ∧
      fired w' = fired w ++ [event] ∧
      event_type event = EVENT_STATE_CHANGED ∧
      data_dicts w' !! data event = Some event_data ∧
      event_data !! "entity_id" = Some (VStr key) ∧
      event_data !! "new_state" = Some (VState l) ∧
      event_data !! "old_state" = VState <$> _states w !! key.

(** Every stored [State] has a [last_changed] of whole seconds. *)
Definition registry_whole (w : World) : Prop :=
  ∀ key s a, stored w key = Some (s, a) → whole_seconds (last_changed s).

(** A state machine with one entity, [light.kitchen], set to "on" at
    1.5 s; 1.2 s later; the [dict] at reference 1 holds a brightness. *)
Definition kitchen_on : World :=
  set_clock (λ _, 2700000)
    (exec (_ ← new_attrs {[ "bri" := SInt 128 ]};
           StateMachine.set "light.kitchen" (SStr "on") None)
       (initial 1500000 0)).

(** [w'] holds the objects of [w], possibly more, and the same map of
    entities. *)
Definition extends (w w' : World) : Prop :=
  state_objs w ⊆ state_objs w' ∧ attr_dicts w ⊆ attr_dicts w' ∧
  _states w' = _states w.

(** Every entity of the state machine refers to a [State] object as a
    constructor leaves it. *)
Definition registry_valid (w : World) : Prop :=
  ∀ key l, _states w !! key = Some l → State_valid w l.

(** The reference is the one of a [State] object held in the map. *)
Definition live_state (w : World) (l : loc) : Prop :=
  ∃ key, _states w !! key = Some l.

(** The reference is the one of the attributes of a [State] object held
    in the map. *)
Definition live_attrs (w : World) (a : loc) : Prop :=
  ∃ key l s, _states w !! key = Some l ∧ state_objs w !! l = Some s ∧
             attributes s = a.

(** The reference is the one of a [State] object that is not held in the
    map and shares no attributes with one that is. *)
Definition unaliased (w : World) (l : loc) : Prop :=
  ∃ s, state_objs w !! l = Some s ∧
       ¬ live_state w l ∧ ¬ live_attrs w (attributes s).

(** The object at [l] is a copy of the one at [l0]: the same entity id,
    state, contents of the attributes and [last_changed]. *)
Definition copy_of (w : World) (l l0 : loc) : Prop :=
  ∃ s s0 d,
    state_objs w !! l = Some s ∧ state_objs w !! l0 = Some s0 ∧
    attr_dicts w !! attributes s = Some d ∧
    attr_dicts w !! attributes s0 = Some d ∧
    entity_id s = entity_id s0 ∧ state s = state s0 ∧
    last_changed s = strip_microseconds (last_changed s0).

(** The end of [call], from the wait on: [waiting] holds the flag and the
    listener of a blocking call. *)
Definition call_finish (wait : nat → Z → M bool)
    (waiting : option (nat * listener)) : M (option bool) :=
  match waiting with
  | Some (executed_event, closure) =>
      signalled ← wait executed_event SERVICE_CALL_LIMIT;
      if signalled : bool then mret (Some true)
      else
        _ ← EventBus.remove_listener EVENT_SERVICE_EXECUTED closure;
        mret (Some false)
  | None => mret None
  end.

(** The id that the next [call] allocates. *)
Definition next_call_id (w : World) : string :=
  str (SInt (self_id w)) +:+ "-" +:+ str (SInt (_cur_id w + 1)).

(** The data of the event that [call] fires. *)
Definition call_service_data (w : World) (domain service : string)
    (service_data : option loc) : gmap string pyval :=
  <[ATTR_SERVICE_CALL_ID := VStr (next_call_id w)]>
    (<[ATTR_SERVICE := VStr service]>
       (<[ATTR_DOMAIN := VStr domain]> (data_contents w service_data))).

(** The flag and the listener of the next blocking [call]. *)
Definition next_flag (w : World) : nat := fresh (dom (flags w)).

Definition next_closure (w : World) : listener :=
  service_executed (next_fn w) (next_call_id w) (next_flag w).

(** From [w] to [w']: an attribute [run] that is set stays set, and a
    listener that is no callable of a component has no more entries on
    the bus than before. *)
Definition evolves (w w' : World) : Prop :=
  run_attr w ⊆ run_attr w' ∧
  ∀ t l, (∀ f, l ≠ Callback f) →
    (registrations l (EventBus.get w' t) ≤ registrations l (EventBus.get w t))%nat.

(** A computation leaves the world in relation [R] with the one it
    started in, however it ends. *)
Definition preserves {A} (R : World → World → Prop) (m : M A) : Prop :=
  ∀ w, R w (exec m w).

(** The steps of the other threads, one after the other. *)
Definition run_steps (steps : list (Z * action)) (w : World) : World :=
  foldl (λ w s, perform s.2 w) w steps.

(** Every closure [service_executed] on the bus was made by a [call]
    that has taken its number. *)
Definition closures_allocated (w : World) : Prop :=
  ∀ t fn id g, service_executed fn id g ∈ EventBus.get w t → (fn < next_fn w)%nat.

(** The steps that take place within the limit of a service call. *)
Definition within_limit (steps : list (Z * action)) : Prop :=
  Forall (λ s, s.1 ≤ SERVICE_CALL_LIMIT * second) steps.

(** A registry with the service [test.ping], and the steps of three
    workers that take the jobs of a call one after the other, 0.1 s
    apart. *)
Definition ping_registered : World :=
  exec (ServiceRegistry.register "test" "ping" 5%nat) (initial 0 7).

Definition ping_steps : list (Z * action) :=
  [(100000, Work 0); (200000, Work 0); (300000, Work 0)].

(** The same steps when the service takes 12 s. *)
Definition slow_steps : list (Z * action) :=
  [(100000, Work 0); (12100000, Work 0); (12200000, Work 0)].

(** Running the jobs of a list, one after the other. *)
Definition run_jobs (jobs : list job) : M unit := for_each job_handler jobs.

(** The workers that have taken the jobs of a list, one each. *)
Definition take_jobs (jobs : list job) : list worker :=
  (λ job, mkWorker job Started) <$> jobs.

(** A property of worlds, as a relation between the world before a step
    and the world after it: the step keeps the property. *)
Definition keeps (I : World → Prop) (w w' : World) : Prop := I w → I w'.

(** Every event type that the bus has a bucket for has a listener. *)
Definition buckets_nonempty (w : World) : Prop :=
  ∀ t b, _listeners w !! t = Some b → b ≠ [].

(** From [w] to [w']: the objects of the state machine, the store of
    [State] objects and attributes, and the clock are the same. *)
Definition same_registry (w w' : World) : Prop :=
  state_objs w' = state_objs w ∧ attr_dicts w' = attr_dicts w ∧
  _states w' = _states w ∧ clock w' = clock w.

(** What holds of a [State] stored under [key], at a time [t] of the
    clock: it is filed under its own entity id, which is in lower case and
    matches [ENTITY_ID_PATTERN]; [last_changed] is a whole second, not
    after [last_updated], which is not after [t]. *)
Definition State_sound (t : datetime) (key : string) (s : State) : Prop :=
  entity_id s = key ∧ Str.lower key = key ∧
  is_Some (ENTITY_ID_PATTERN_match key) ∧
  whole_seconds (last_changed s) ∧
  last_changed s ≤ last_updated s ∧ last_updated s ≤ t.

(** Every entity of the state machine refers to a [State] object of the
    store with its attributes, and that [State] is sound. *)
Definition registry_sound (w : World) : Prop :=
  registry_ok w ∧
  ∀ key s a, stored w key = Some (s, a) → State_sound (clock w) key s.

(** From [w] to [w']: the counter of call ids and the identity of the
    service registry are the same. *)
Definition same_counter (w w' : World) : Prop :=
  _cur_id w' = _cur_id w ∧ self_id w' = self_id w.

(** The function registered for a service, if any. *)
Definition registered (w : World) (dom srv : string) : option nat :=
  _services w !! dom ≫= (.!! srv).

(** The data of the event that [register] fires. *)
Definition service_registered_data (dom srv : string) : gmap string pyval :=
  {[ ATTR_DOMAIN := VStr dom; ATTR_SERVICE := VStr srv ]}.

(** From [w] to [w']: the registered services are the same. *)
Definition same_services (w w' : World) : Prop := _services w' = _services w.

(** The data that a service receives for a call: the data of the caller
    without the keys [domain] and [service], with the id of the call. *)
Definition service_call_data (w : World) (service_data : option loc) : gmap string pyval :=
  <[ATTR_SERVICE_CALL_ID := VStr (next_call_id w)]>
    (delete ATTR_SERVICE (delete ATTR_DOMAIN (data_contents w service_data))).

(** The subject that a listener of [track_change] takes from the old
    state of an entity: its state, or [None] when there was none. *)
Definition old_subject (w : World) (key : string) : scalar :=
  match stored w key with
  | Some (s, _) => SStr (state s)
  | None => SNone
  end.

(** [event.data.get('old_state')] for the event of a [set]. *)
Definition old_value (w : World) (key : string) : pyval :=
  match _states w !! key with
  | Some o => VState o
  | None => VNone
  end.

(** Every function object that carries an attribute [run], and every
    closure [onetime_listener] on the bus, was made by a [listen_once]
    that has taken its number. *)
Definition guards_allocated (w : World) : Prop :=
  (∀ n, n ∈ run_attr w → (n < next_fn w)%nat) ∧
  ∀ t fn t' target,
    onetime_listener fn t' target ∈ EventBus.get w t → (fn < next_fn w)%nat.

(** The [last_changed] that [from_dict] hands to the constructor. *)
Definition parsed_last_changed (str_to_datetime : string → option datetime)
    (j : json_dict) : option datetime :=
  match json_last_changed j with
  | Some s => if Str.nonempty s then str_to_datetime s else None
  | None => None
  end.

(** The world in which [call] starts to wait (or returns, when it does
    not block): the counter has advanced, the data of the event are in the
    [dict] [event_data], a blocking call has made its flag and subscribed
    its closure, and the event was fired. *)
Definition call_world (w : World) (dom srv : string) (service_data : option loc)
    (blocking : bool) (event_data : loc) : World :=
  let event := mkEvent EVENT_CALL_SERVICE event_data local in
  let w2 := set_data_dicts <[event_data := call_service_data w dom srv service_data]>
              (set_cur_id (λ n, n + 1) w) in
  let w3 :=
    if blocking
    then set_listeners
           <[EVENT_SERVICE_EXECUTED :=
               EventBus.get w EVENT_SERVICE_EXECUTED ++ [next_closure w]]>
           (set_next_fn S (set_flags <[next_flag w := false]> w2))
    else w2 in
  set_pending (λ q, q ++ jobs_of event (snapshot w EVENT_CALL_SERVICE))
    (set_fired (λ h, h ++ [event]) w3).

(** The time that an event of type [time_changed] carries. *)
Definition now_of (w : World) (event : Event) : option datetime :=
  d ← data_dicts w !! data event;
  v ← d !! ATTR_NOW;
  match v with VTime n => Some n | _ => None end.

(** The listener hears the events of a list, one after the other; the
    result lists the arguments of its calls of [action]. *)
Fixpoint hear_all (body : Event → M (option datetime)) (events : list Event)
    : M (list datetime) :=
  match events with
  | [] => mret []
  | event :: rest =>
      called ← body event;
      later ← hear_all body rest;
      mret (match called with Some n => n :: later | None => later end)
  end.

(** The time of the first event of a list that is at or after
    [point_in_time], if there is one. *)
Fixpoint first_due (w : World) (point_in_time : datetime) (events : list Event)
    : list datetime :=
  match events with
  | [] => []
  | event :: rest =>
      match now_of w event with
      | Some n => if bool_decide (point_in_time ≤ n) then [n]
                  else first_due w point_in_time rest
      | None => first_due w point_in_time rest
      end
  end.

(** * Properties *)

(** ** Strings and the entity-id pattern *)

Lemma forall_ascii (P : ascii → Prop) :
  (∀ b0 b1 b2 b3 b4 b5 b6 b7, P (Ascii b0 b1 b2 b3 b4 b5 b6 b7)) → ∀ c, P c.
Proof. intros H []; apply H. Qed.

Lemma is_word_lower_char c : Str.is_word (Str.lower_char c) = Str.is_word c.
Proof.
  revert c. apply forall_ascii.
  intros [] [] [] [] [] [] [] []; vm_compute; reflexivity.
Qed.

Lemma lower_char_idemp c : Str.lower_char (Str.lower_char c) = Str.lower_char c.
Proof.
  revert c. apply forall_ascii.
  intros [] [] [] [] [] [] [] []; vm_compute; reflexivity.
Qed.

Lemma lower_char_dot c : Str.lower_char c = "."%char ↔ c = "."%char.
Proof.
  revert c. apply forall_ascii.
  intros [] [] [] [] [] [] [] []; vm_compute; split; congruence.
Qed.

Lemma lower_char_newline c : Str.lower_char c = Str.newline ↔ c = Str.newline.
Proof.
  revert c. apply forall_ascii.
  intros [] [] [] [] [] [] [] []; vm_compute; split; congruence.
Qed.

Lemma ascii_word_is_word c : Str.is_ascii_word c = true → Str.is_word c = true.
Proof.
  unfold Str.is_word, Str.is_ascii_word. cbv zeta.
  intros ->. reflexivity.
Qed.

Lemma app_String c a b : String c a +:+ b = String c (a +:+ b).
Proof. reflexivity. Qed.

Lemma app_Empty b : "" +:+ b = b.
Proof. reflexivity. Qed.

Ltac app_simpl := rewrite ?app_String, ?app_Empty; simpl.

Lemma string_app_nil_r s : s +:+ "" = s.
Proof. induction s as [|c s IH]; app_simpl; congruence. Qed.

Lemma lower_app a b : Str.lower (a +:+ b) = Str.lower a +:+ Str.lower b.
Proof.
  induction a as [|c a IH]; app_simpl; [done|].
  by rewrite IH, app_String.
Qed.

Lemma lower_idemp s : Str.lower (Str.lower s) = Str.lower s.
Proof.
  induction s as [|c s IH]; simpl; [done|].
  by rewrite lower_char_idemp, IH.
Qed.

Lemma all_chars_lower s :
  all_chars Str.is_word (Str.lower s) = all_chars Str.is_word s.
Proof.
  induction s as [|c s IH]; simpl; [done|].
  by rewrite is_word_lower_char, IH.
Qed.

Lemma nonempty_lower s : Str.nonempty (Str.lower s) = Str.nonempty s.
Proof. by destruct s. Qed.

Lemma is_word_of_lower s :
  is_word_of Str.is_word (Str.lower s) = is_word_of Str.is_word s.
Proof. unfold is_word_of. by rewrite nonempty_lower, all_chars_lower. Qed.

Lemma all_chars_app p a b :
  all_chars p (a +:+ b) = all_chars p a && all_chars p b.
Proof.
  induction a as [|c a IH]; app_simpl; [done|].
  rewrite IH. by rewrite andb_assoc.
Qed.

Lemma span_word_spec s w r :
  Str.span_word s = (w, r) →
  s = w +:+ r ∧ all_chars Str.is_word w = true ∧ no_word_start r.
Proof.
  revert w r. induction s as [|c s IH]; simpl; intros w r.
  - by intros [= <- <-].
  - destruct (Str.is_word c) eqn:Hc.
    + destruct (Str.span_word s) as [w' r'] eqn:Hs.
      intros [= <- <-]. destruct (IH _ _ eq_refl) as (-> & Hw & Hr).
      app_simpl. by rewrite Hc, Hw.
    + intros [= <- <-]. app_simpl. by rewrite Hc.
Qed.

Lemma span_word_app w r :
  all_chars Str.is_word w = true → no_word_start r →
  Str.span_word (w +:+ r) = (w, r).
Proof.
  intros Hw Hr. induction w as [|c w IH]; app_simpl; simpl in Hw.
  - destruct r as [|c r]; simpl in *; [done|]. by rewrite Hr.
  - apply andb_prop in Hw as [Hc Hw]. rewrite Hc, (IH Hw). done.
Qed.

Lemma at_dollar_spec r :
  Str.at_dollar r = true ↔ r = "" ∨ r = String Str.newline "".
Proof.
  destruct r as [|c [|c' r]]; simpl.
  - split; [by left|done].
  - rewrite bool_decide_eq_true. split; [by intros ->; right|].
    intros [?|?]; congruence.
  - split; [done|]. intros [?|?]; discriminate.
Qed.

(** The strings that [ENTITY_ID_PATTERN] matches: two words around a dot,
    and possibly one newline after them. *)
Lemma ENTITY_ID_PATTERN_match_Some s d e :
  ENTITY_ID_PATTERN_match s = Some (d, e) ↔
  is_word_of Str.is_word d = true ∧ is_word_of Str.is_word e = true ∧
  (s = d +:+ "." +:+ e ∨ s = d +:+ "." +:+ e +:+ String Str.newline "").
Proof.
  unfold ENTITY_ID_PATTERN_match, is_word_of. split.
  - destruct (Str.span_word s) as [d' r1] eqn:H1.
    apply span_word_spec in H1 as (-> & Hd & _).
    destruct r1 as [|c r2]; [done|].
    destruct (Ascii.ascii_dec c ".") as [->|Hne].
    2:{ destruct c as [[] [] [] [] [] [] [] []]; try done. }
    destruct (Str.span_word r2) as [e' r3] eqn:H2.
    apply span_word_spec in H2 as (-> & He & _).
    destruct (Str.nonempty d' && Str.nonempty e' && Str.at_dollar r3) eqn:Hc; [|done].
    intros [= <- <-].
    apply andb_prop in Hc as [Hc Hr]. apply andb_prop in Hc as [Hnd Hne].
    rewrite Hnd, Hne, Hd, He. repeat split.
    apply at_dollar_spec in Hr as [-> | ->]; [left|right]; try done.
    by rewrite string_app_nil_r.
  - intros (Hd & He & Hs).
    apply andb_prop in Hd as [Hnd Hd]. apply andb_prop in He as [Hne He].
    destruct Hs as [-> | ->].
    + rewrite (span_word_app d ("." +:+ e)) by done. app_simpl.
      rewrite <- (string_app_nil_r e) at 1.
      rewrite (span_word_app e "") by done.
      by rewrite Hnd, Hne.
    + rewrite (span_word_app d ("." +:+ e +:+ String Str.newline "")) by done.
      app_simpl.
      rewrite (span_word_app e (String Str.newline "")) by done.
      by rewrite Hnd, Hne.
Qed.

(** ** Running computations *)

Lemma bind_Return {A B} (m : M A) (f : A → M B) w a w' :
  m w = (Return a, w') → (m ≫= f) w = f a w'.
Proof. unfold mbind, M_bind. by intros ->. Qed.

Lemma bind_Raise {A B} (m : M A) (f : A → M B) w e w' :
  m w = (Raise e, w') → (m ≫= f) w = (Raise e, w').
Proof. unfold mbind, M_bind. by intros ->. Qed.

Ltac run :=
  unfold mbind, M_bind, mret, M_ret, gets, modify, raise, deref, now in *;
  simpl in *.

(** ** class State *)

Lemma more_attrs_refl w : more_attrs w w.
Proof. split; [done|]. by destruct w. Qed.

Lemma more_attrs_trans w1 w2 w3 :
  more_attrs w1 w2 → more_attrs w2 w3 → more_attrs w1 w3.
Proof.
  intros [H1 E1] [H2 E2]. split; [naive_solver|].
  rewrite E2, E1. by destruct w1.
Qed.

Lemma new_attrs_spec d w :
  ∃ l, new_attrs d w = (Return l, set_attr_dicts <[l := d]> w) ∧
       attr_dicts w !! l = None.
Proof.
  eexists. split; [reflexivity|].
  apply not_elem_of_dom, is_fresh.
Qed.

Lemma new_attrs_more d w l w' :
  new_attrs d w = (Return l, w') →
  more_attrs w w' ∧ attr_dicts w' !! l = Some d ∧ attr_dicts w !! l = None.
Proof.
  destruct (new_attrs_spec d w) as (l0 & E & Hfresh). rewrite E.
  intros [= <- <-]. split; [split|split].
  - intros l d' Hl. simpl. rewrite lookup_insert_ne; [done|congruence].
  - by destruct w.
  - simpl. by rewrite lookup_insert_eq.
  - done.
Qed.

Lemma or_new_attrs_spec w attrs :
  attrs_arg w attrs →
  ∃ l w', or_new_attrs attrs w = (Return l, w') ∧
          more_attrs w w' ∧
          attr_dicts w' !! l = Some (attrs_contents w attrs) ∧
          (attrs_contents w attrs ≠ ∅ → attrs = Some l ∧ w' = w) ∧
          (attrs_contents w attrs = ∅ → attr_dicts w !! l = None).
Proof.
  intros Ha. destruct attrs as [l|]; simpl in *.
  - destruct Ha as [d Hd]. unfold or_new_attrs, read_attrs. run. rewrite Hd. simpl.
    case_decide as He.
    + subst d. destruct (new_attrs_spec ∅ w) as (l' & E & Hf).
      exists l', (set_attr_dicts <[l' := ∅]> w). rewrite E.
      destruct (new_attrs_more _ _ _ _ E) as (? & ? & ?). done.
    + exists l, w. split_and!; try done. apply more_attrs_refl.
  - destruct (new_attrs_spec ∅ w) as (l' & E & Hf).
    exists l', (set_attr_dicts <[l' := ∅]> w). unfold or_new_attrs. rewrite E.
    destruct (new_attrs_more _ _ _ _ E) as (? & ? & ?). done.
Qed.

Lemma State_init_raises w eid st attrs changed :
  ENTITY_ID_PATTERN_match eid = None →
  State.__init__ eid st attrs changed w = (Raise InvalidEntityFormatError, w).
Proof. unfold State.__init__. by intros ->. Qed.

Lemma State_init_returns w eid st attrs changed :
  is_Some (ENTITY_ID_PATTERN_match eid) →
  attrs_arg w attrs →
  ∃ l a w1,
    or_new_attrs attrs w = (Return a, w1) ∧
    State.__init__ eid st attrs changed w
    = (Return l, set_state_objs <[l := built w eid st a changed]> w1) ∧
    state_objs w !! l = None ∧
    more_attrs w w1 ∧
    attr_dicts w1 !! a = Some (attrs_contents w attrs) ∧
    (attrs_contents w attrs ≠ ∅ → attrs = Some a ∧ w1 = w) ∧
    (attrs_contents w attrs = ∅ → attr_dicts w !! a = None).
Proof.
  intros [de Hm] Ha. unfold State.__init__. rewrite Hm.
  destruct (or_new_attrs_spec w attrs Ha) as (a & w1 & E & Hmore & Hc & Hne & He).
  exists (fresh (dom (state_objs w1))), a, w1.
  rewrite (bind_Return _ _ _ _ _ E). run. unfold new_state_obj, built.
  assert (state_objs w1 = state_objs w) as Es by (by rewrite (proj2 Hmore)).
  assert (clock w1 = clock w) as Ec by (by rewrite (proj2 Hmore)).
  rewrite Ec. split_and!; try done.
  rewrite <- Es. apply not_elem_of_dom, is_fresh.
Qed.

Lemma string_app_assoc a b c : a +:+ (b +:+ c) = (a +:+ b) +:+ c.
Proof. induction a as [|x a IH]; [done|]. by rewrite !app_String, IH. Qed.

Lemma ends_with_newline_app s :
  ends_with_newline (s +:+ String Str.newline "") = true.
Proof.
  induction s as [|c s IH]; [done|]. rewrite app_String. simpl.
  destruct (s +:+ String Str.newline "") eqn:E; [|done].
  by destruct s.
Qed.

(** On a string that does not end with a newline, the pattern matches
    exactly the grammar [<word>.<word>] over the class [\w]. *)
Lemma ENTITY_ID_PATTERN_match_grammar s :
  ends_with_newline s = false →
  is_Some (ENTITY_ID_PATTERN_match s) ↔ entity_id_grammar Str.is_word s.
Proof.
  intros Hnl. split.
  - intros [[d e] H]. apply ENTITY_ID_PATTERN_match_Some in H as (Hd & He & [->| ->]).
    + by exists d, e.
    + rewrite (string_app_assoc "." e), (string_app_assoc d) in Hnl.
      by rewrite ends_with_newline_app in Hnl.
  - intros (d & e & -> & Hd & He). exists (d, e).
    apply ENTITY_ID_PATTERN_match_Some. auto.
Qed.

(** Lower case keeps the grammar when the lower-case form of every word
    character of the string is a word character. *)
Lemma lower_keeps_words_app a b :
  lower_keeps_words (a +:+ b) = lower_keeps_words a && lower_keeps_words b.
Proof. apply all_chars_app. Qed.

Lemma is_word_of_lower_keeps s :
  lower_keeps_words s = true →
  is_word_of Str.is_word s = true → is_word_of Str.is_word (Str.lower s) = true.
Proof.
  unfold is_word_of, lower_keeps_words. rewrite nonempty_lower.
  intros Hk [-> Hs]%andb_prop. simpl.
  induction s as [|c s IH]; simpl in *; [done|].
  apply andb_prop in Hk as [Hc Hk]. apply andb_prop in Hs as [Hw Hs].
  rewrite Hw in Hc. simpl in Hc. rewrite Hc. simpl. by apply IH.
Qed.

Lemma entity_id_grammar_lower_keeps s :
  lower_keeps_words s = true →
  entity_id_grammar Str.is_word s → entity_id_grammar Str.is_word (Str.lower s).
Proof.
  intros Hk (d & e & -> & Hd & He). exists (Str.lower d), (Str.lower e).
  rewrite !lower_keeps_words_app in Hk.
  apply andb_prop in Hk as [Hkd [_ Hke]%andb_prop].
  split_and!; [by rewrite !lower_app|by apply is_word_of_lower_keeps..].
Qed.

(** The characters of the model are those of U+0000 to U+00FF: among them
    the lower-case form of a word character is a word character. *)
Lemma lower_keeps_words_model s : lower_keeps_words s = true.
Proof.
  unfold lower_keeps_words. induction s as [|c s IH]; simpl; [done|].
  rewrite IH, is_word_lower_char. by destruct (Str.is_word c).
Qed.

(** For strings of the characters U+0000 to U+00FF. *)
Lemma entity_id_grammar_lower s :
  entity_id_grammar Str.is_word s → entity_id_grammar Str.is_word (Str.lower s).
Proof.
  intros (d & e & -> & Hd & He). exists (Str.lower d), (Str.lower e).
  rewrite !is_word_of_lower. split_and!; try done.
  by rewrite !lower_app.
Qed.

(** For strings of the characters U+0000 to U+00FF: the pattern matches
    the lower-case form of a string that it matches.  (Beyond them it need
    not: the lower-case form of the word character U+0130 is [i] followed
    by U+0307, which is no word character.) *)
Lemma ENTITY_ID_PATTERN_match_lower s :
  is_Some (ENTITY_ID_PATTERN_match s) →
  is_Some (ENTITY_ID_PATTERN_match (Str.lower s)).
Proof.
  intros [[d e] H]. exists (Str.lower d, Str.lower e).
  apply ENTITY_ID_PATTERN_match_Some in H as (Hd & He & Hs).
  apply ENTITY_ID_PATTERN_match_Some. rewrite !is_word_of_lower.
  split_and!; try done.
  destruct Hs as [-> | ->]; [left|right]; by rewrite !lower_app.
Qed.

(** A string of the grammar holds characters of the class and dots
    only. *)
Lemma entity_id_grammar_chars p s :
  entity_id_grammar p s →
  all_chars (λ c, p c || bool_decide (c = "."%char)) s = true.
Proof.
  intros (d & e & -> & Hd & He).
  apply andb_prop in Hd as [_ Hd]. apply andb_prop in He as [_ He].
  assert (∀ x, all_chars p x = true →
               all_chars (λ c, p c || bool_decide (c = "."%char)) x = true) as Hw.
  { induction x as [|c x IH]; simpl; [done|].
    intros [-> ?]%andb_prop. simpl. auto. }
  rewrite !all_chars_app, (Hw _ Hd), (Hw _ He). simpl.
  by destruct (p "."%char).
Qed.

Lemma State_init_valid w eid st attrs changed l w' :
  attrs_arg w attrs →
  is_Some (ENTITY_ID_PATTERN_match (Str.lower eid)) →
  State.__init__ eid st attrs changed w = (Return l, w') →
  State_valid w' l.
Proof.
  intros Ha Hlow H.
  destruct (ENTITY_ID_PATTERN_match eid) as [de|] eqn:Hm.
  2:{ by rewrite State_init_raises in H. }
  destruct (State_init_returns w eid st attrs changed)
    as (l' & a & w1 & _ & E & _ & _ & Hc & _); [done..|].
  rewrite E in H. injection H as <- <-.
  eexists. simpl. rewrite lookup_insert_eq. unfold built. simpl.
  split_and!; simpl; try done.
  apply lower_idemp.
Qed.

(** C3, as the specification states it, fails: the class [\w] of the
    pattern holds more than [[A-Za-z0-9_]].  The constructor accepts an
    entity id with the letter U+00E9, which is not of the grammar of the
    specification. *)
Lemma State_init_accepts_non_ascii_word :
  ¬ raises_exactly_off_grammar Str.is_ascii_word cafe_lamp.
Proof.
  intros H.
  destruct (H (initial 0 0) "on" None None I) as [[_ Hraise] _].
  assert (¬ entity_id_grammar Str.is_ascii_word cafe_lamp) as Hg.
  { intros Hg%entity_id_grammar_chars. vm_compute in Hg. discriminate. }
  specialize (Hraise Hg). vm_compute in Hraise. discriminate.
Qed.

(** C3, amended: for an entity id that does not end with a newline, the
    constructor raises [InvalidEntityFormatError] exactly when the id is not
    [<word>.<word>] with words of one or more characters of the class [\w]
    (alphanumeric characters, within ASCII or not, and the underscore); on
    success the object holds the id in lower case; that is of the same
    grammar whenever the lower-case form of each word character of the id
    is a word character, which is so for every character from U+0000 to
    U+00FF. *)
Theorem State_entity_id_format eid :
  ends_with_newline eid = false →
  (∀ w st attrs changed,
     attrs_arg w attrs →
     (result (State.__init__ eid st attrs changed) w = Raise InvalidEntityFormatError
      ↔ ¬ entity_id_grammar Str.is_word eid) ∧
     (∀ l w', State.__init__ eid st attrs changed w = (Return l, w') →
        ∃ s, state_objs w' !! l = Some s ∧
             entity_id s = Str.lower eid ∧
             (lower_keeps_words eid = true →
              entity_id_grammar Str.is_word (entity_id s)))) ∧
  (∀ n, (n ≤ 255)%N →
     Str.is_word (ascii_of_N n) = true →
     Str.is_word (Str.lower_char (ascii_of_N n)) = true).
Proof.
  intros Hnl. split.
  2:{ intros n _ Hw. by rewrite is_word_lower_char. }
  intros w st attrs changed Ha.
  pose proof (ENTITY_ID_PATTERN_match_grammar eid Hnl) as Hiff.
  destruct (ENTITY_ID_PATTERN_match eid) as [de|] eqn:Hm.
  - assert (entity_id_grammar Str.is_word eid) as Hg by (apply Hiff; eauto).
    destruct (State_init_returns w eid st attrs changed)
      as (l & a & w1 & _ & E & _); [by rewrite Hm|done|].
    unfold result. rewrite E. split.
    + simpl. split; [done|]. by intros [].
    + intros l' w' [= <- <-]. eexists. simpl. rewrite lookup_insert_eq.
      split_and!; [done|done|]. intros Hk. by apply entity_id_grammar_lower_keeps.
  - unfold result. rewrite State_init_raises by done. split.
    + simpl. split; [|done]. intros _ Hg. apply Hiff in Hg as [? ?]. done.
    + intros l w' [=].
Qed.

Lemma State_entity_id_format_witness :
  ends_with_newline "Light.Kitchen" = false ∧
  ∀ w st attrs changed,
    attrs_arg w attrs →
    (result (State.__init__ "Light.Kitchen" st attrs changed) w
     = Raise InvalidEntityFormatError
     ↔ ¬ entity_id_grammar Str.is_word "Light.Kitchen") ∧
    (∀ l w', State.__init__ "Light.Kitchen" st attrs changed w = (Return l, w') →
       ∃ s, state_objs w' !! l = Some s ∧
            entity_id s = "light.kitchen" ∧
            (lower_keeps_words "Light.Kitchen" = true →
             entity_id_grammar Str.is_word (entity_id s))).
Proof.
  split; [reflexivity|].
  exact (proj1 (State_entity_id_format "Light.Kitchen" eq_refl)).
Defined.

(** The pattern ends with [$], which also matches before a newline at the
    end of the string: the constructor accepts an entity id that ends with
    a newline, and the object holds it with the newline. *)
Lemma State_init_trailing_newline :
  ∃ l w s, State.__init__ kitchen_newline "on" None None (initial 0 0) = (Return l, w) ∧
           state_objs w !! l = Some s ∧ entity_id s = kitchen_newline ∧
           ¬ entity_id_grammar Str.is_word kitchen_newline.
Proof.
  eexists _, _, _. split_and!; [vm_compute; reflexivity|vm_compute; reflexivity|reflexivity|].
  intros Hg%entity_id_grammar_chars. vm_compute in Hg. discriminate.
Qed.

(** What [==] on two [State] objects returns. *)
Lemma State_eq_spec w self other s o a b :
  state_objs w !! self = Some s → state_objs w !! other = Some o →
  attr_dicts w !! attributes s = Some a → attr_dicts w !! attributes o = Some b →
  State.__eq__ self other w
  = (Return (bool_decide (entity_id s = entity_id o ∧ state s = state o ∧ a = b)), w).
Proof.
  intros Hs Ho Ha Hb. unfold State.__eq__, read_state, read_attrs. run.
  rewrite Hs. simpl. rewrite Ho. simpl.
  destruct (decide (entity_id s = entity_id o)) as [He|He].
  2:{ rewrite (bool_decide_eq_false_2 _ He). simpl.
      by rewrite bool_decide_eq_false_2 by tauto. }
  destruct (decide (state s = state o)) as [Hst|Hst].
  2:{ rewrite (bool_decide_eq_false_2 _ Hst), andb_false_r.
      by rewrite bool_decide_eq_false_2 by tauto. }
  rewrite !bool_decide_eq_true_2 by done. simpl. rewrite Ha. simpl.
  rewrite Hb. simpl.
  do 2 f_equal. apply bool_decide_ext. tauto.
Qed.

(** C7.  What [State.from_dict(state.as_dict())] gives for a [State]
    object, by its entity id as the object holds it; the attributes of the
    object are in the store.
    - Where the pattern does not match that id, the constructor that
      [from_dict] calls raises [InvalidEntityFormatError], and nothing is
      written.
    - Where it matches, [from_dict] returns a new [State] with the id in
      lower case, the same state and the same contents of attributes;
      [==] holds between the two exactly when the id of the first is in
      lower case.
    - The constructor holds the lower-case form of the id it was given,
      which is its own lower-case form; it has matched the pattern against
      the id it was given, not against that form.
    - [==] compares [entity_id], [state] and the contents of [attributes]
      only: the timestamps play no part.
    So the [State] that the constructor built from an id is read back as an
    equal [State] where the pattern matches the lower-case form of the id,
    and reading it back raises where it does not. *)
Theorem State_from_dict_as_dict_by_id dts std w self s :
  state_objs w !! self = Some s →
  is_Some (attr_dicts w !! attributes s) →
  let read_back := j ← State.as_dict dts self; State.from_dict std j in
  (ENTITY_ID_PATTERN_match (entity_id s) = None →
     read_back w = (Raise InvalidEntityFormatError, w)) ∧
  (is_Some (ENTITY_ID_PATTERN_match (entity_id s)) →
     ∃ other w' o,
       read_back w = (Return (Some other), w') ∧ other ≠ self ∧
       state_objs w' !! other = Some o ∧ state_objs w' !! self = Some s ∧
       entity_id o = Str.lower (entity_id s) ∧ state o = state s ∧
       attr_dicts w' !! attributes o = attr_dicts w !! attributes s ∧
       State.__eq__ other self w'
       = (Return (bool_decide (Str.lower (entity_id s) = entity_id s)), w')) ∧
  (∀ w0 eid st attrs changed l w1,
     attrs_arg w0 attrs →
     State.__init__ eid st attrs changed w0 = (Return l, w1) →
     is_Some (ENTITY_ID_PATTERN_match eid) ∧
     ∃ s1, state_objs w1 !! l = Some s1 ∧
           is_Some (attr_dicts w1 !! attributes s1) ∧
           entity_id s1 = Str.lower eid ∧
           Str.lower (entity_id s1) = entity_id s1) ∧
  (∀ w2 x y sx sy a b,
     state_objs w2 !! x = Some sx → state_objs w2 !! y = Some sy →
     attr_dicts w2 !! attributes sx = Some a → attr_dicts w2 !! attributes sy = Some b →
     State.__eq__ x y w2
     = (Return (bool_decide (entity_id sx = entity_id sy ∧ state sx = state sy ∧ a = b)), w2)).
Proof.
  intros Hs [d Hd] read_back. split_and!.
  4:{ intros. by apply State_eq_spec. }
  - intros Hm. unfold read_back, State.as_dict, State.from_dict, read_state.
    run. rewrite Hs. simpl. unfold State.__init__. by rewrite Hm.
  - intros Hm. unfold read_back, State.as_dict, State.from_dict, read_state.
    run. rewrite Hs. simpl.
    match goal with
    | |- context [State.__init__ _ _ _ ?x] => generalize x; intros lc
    end.
    destruct (State_init_returns w (entity_id s) (state s) (Some (attributes s)) lc)
      as (l & a & w1 & Eo & E & Hfresh & Hmore & Hc & Hne & He);
      [done|by simpl; rewrite Hd|].
    unfold mbind, M_bind in E |- *. rewrite E.
    assert (l ≠ self) as Hneq by congruence.
    assert (state_objs w1 = state_objs w) as Es by (by rewrite (proj2 Hmore)).
    simpl in Hc. rewrite Hd in Hc. simpl in Hc.
    exists l, (set_state_objs <[l := built w (entity_id s) (state s) a lc]> w1),
      (built w (entity_id s) (state s) a lc).
    split; [reflexivity|]. split_and!; try done.
    + simpl. by rewrite lookup_insert_eq.
    + simpl. rewrite lookup_insert_ne by done. by rewrite Es.
    + simpl. by rewrite Hc, Hd.
    + rewrite (State_eq_spec _ l self
                 (built w (entity_id s) (state s) a lc) s d d).
      * f_equal. f_equal. apply bool_decide_ext. simpl. tauto.
      * simpl. by rewrite lookup_insert_eq.
      * simpl. rewrite lookup_insert_ne by done. by rewrite Es.
      * done.
      * simpl. by apply (proj1 Hmore).
  - intros w0 eid st attrs changed l w1 Ha H.
    destruct (ENTITY_ID_PATTERN_match eid) as [de|] eqn:Hm.
    2:{ by rewrite State_init_raises in H. }
    split; [done|].
    destruct (State_init_returns w0 eid st attrs changed)
      as (l' & a & w2 & _ & E & _ & _ & Hc & _); [by rewrite Hm|done|].
    rewrite E in H. injection H as <- <-.
    eexists. simpl. rewrite lookup_insert_eq. unfold built. simpl.
    split_and!; simpl; try done. apply lower_idemp.
Qed.

Lemma State_from_dict_as_dict_by_id_witness :
  let w := exec (State.__init__ "Light.Kitchen" "on" None None) (initial 0 0) in
  let s := mkState "light.kitchen" "on" 1%positive 0 0 in
  let read_back :=
    j ← State.as_dict (λ _, "12:00:00 01-01-2015") 1%positive;
    State.from_dict (λ _, Some 0) j in
  state_objs w !! 1%positive = Some s ∧
  is_Some (attr_dicts w !! attributes s) ∧
  is_Some (ENTITY_ID_PATTERN_match (entity_id s)) ∧
  ∃ other w',
    read_back w = (Return (Some other), w') ∧ other ≠ 1%positive ∧
    State.__eq__ other 1%positive w' = (Return true, w').
Proof.
  intros w s read_back.
  assert (state_objs w !! 1%positive = Some s) as Hs by (vm_compute; reflexivity).
  assert (is_Some (attr_dicts w !! attributes s)) as Ha
    by (exists ∅; vm_compute; reflexivity).
  assert (is_Some (ENTITY_ID_PATTERN_match (entity_id s))) as Hm
    by (exists ("light", "kitchen"); vm_compute; reflexivity).
  split; [exact Hs|]. split; [exact Ha|]. split; [exact Hm|].
  destruct (proj1 (proj2 (State_from_dict_as_dict_by_id
                            (λ _, "12:00:00 01-01-2015") (λ _, Some 0) w 1%positive s Hs Ha))
              Hm)
    as (other & w' & o & E & Hne & _ & _ & _ & _ & _ & Eq).
  exists other, w'. split; [exact E|]. split; [exact Hne|]. exact Eq.
Defined.

(** Reading back a [State] object whose entity id the pattern does not
    match: the id was assigned to the object after its construction. *)
Example read_back_raises :
  let w := exec (_ ← State.__init__ "Light.Kitchen" "on" None None;
                 State_assign 1%positive
                   (λ s, mkState "kitchen" (state s) (attributes s)
                           (last_changed s) (last_updated s))) (initial 0 0) in
  (j ← State.as_dict (λ _, "12:00:00 01-01-2015") 1%positive;
   State.from_dict (λ _, Some 0) j) w
  = (Raise InvalidEntityFormatError, w).
Proof. vm_compute. reflexivity. Qed.

(** ** class EventBus *)

Lemma more_data_refl w : more_data w w.
Proof. split; [done|]. by destruct w. Qed.

Lemma new_data_spec d w :
  ∃ l, new_data d w = (Return l, set_data_dicts <[l := d]> w) ∧
       data_dicts w !! l = None.
Proof.
  eexists. split; [reflexivity|]. apply not_elem_of_dom, is_fresh.
Qed.

Lemma new_data_more d w l w' :
  new_data d w = (Return l, w') →
  more_data w w' ∧ data_dicts w' !! l = Some d ∧ data_dicts w !! l = None.
Proof.
  destruct (new_data_spec d w) as (l0 & E & Hfresh). rewrite E.
  intros [= <- <-]. split; [split|split].
  - intros l d' Hl. simpl. rewrite lookup_insert_ne; [done|congruence].
  - by destruct w.
  - simpl. by rewrite lookup_insert_eq.
  - done.
Qed.

Lemma or_new_data_spec w data :
  data_arg w data →
  ∃ l w', or_new_data data w = (Return l, w') ∧
          more_data w w' ∧
          data_dicts w' !! l = Some (data_contents w data) ∧
          (data_contents w data ≠ ∅ → data = Some l ∧ w' = w) ∧
          (data_contents w data = ∅ → data_dicts w !! l = None) ∧
          data_dicts w' = <[l := data_contents w data]> (data_dicts w).
Proof.
  intros Ha. destruct data as [l|]; simpl in *.
  - destruct Ha as [d Hd]. unfold or_new_data, read_data. run. rewrite Hd. simpl.
    case_decide as He.
    + subst d. destruct (new_data_spec ∅ w) as (l' & E & Hf).
      exists l', (set_data_dicts <[l' := ∅]> w). rewrite E.
      destruct (new_data_more _ _ _ _ E) as (? & ? & ?). done.
    + exists l, w. split_and!; try done; [apply more_data_refl|].
      by rewrite insert_id.
  - destruct (new_data_spec ∅ w) as (l' & E & Hf).
    exists l', (set_data_dicts <[l' := ∅]> w). unfold or_new_data. rewrite E.
    destruct (new_data_more _ _ _ _ E) as (? & ? & ?). done.
Qed.

Lemma data_setitem_spec w l d key value :
  data_dicts w !! l = Some d →
  data_setitem l key value w
  = (Return tt, set_data_dicts <[l := <[key := value]> d]> w).
Proof. intros Hd. unfold data_setitem, read_data. run. by rewrite Hd. Qed.

Lemma for_each_add_job p event ls w :
  for_each (λ func, add_job p (Listen func event)) ls w
  = (Return tt,
     set_pending (λ q, q ++ map (λ func, mkJob p (Listen func event)) ls) w).
Proof.
  revert w. induction ls as [|x ls IH]; intros w; simpl.
  - run. destruct w; unfold set_pending; simpl. by rewrite app_nil_r.
  - unfold add_job at 1. run. rewrite IH. f_equal.
    destruct w; simpl. unfold set_pending; simpl. by rewrite <- app_assoc.
Qed.

(** What [fire] does: it builds one event, records it, and hands one job
    for each listener of the snapshot to the pool. *)
Lemma fire_spec w t data origin :
  data_arg w data →
  ∃ d w1,
    or_new_data data w = (Return d, w1) ∧
    more_data w w1 ∧
    data_dicts w1 !! d = Some (data_contents w data) ∧
    (data_contents w data ≠ ∅ → data = Some d ∧ w1 = w) ∧
    EventBus.fire t data origin w
    = (Return tt,
       set_pending (λ q, q ++ jobs_of (mkEvent t d origin) (snapshot w t))
         (set_fired (λ h, h ++ [mkEvent t d origin]) w1)).
Proof.
  intros Ha.
  destruct (or_new_data_spec w data Ha) as (d & w1 & E & Hmore & Hc & Hne & _ & _).
  exists d, w1. split_and!; try done.
  unfold EventBus.fire, Event.__init__. run. rewrite E. simpl.
  unfold jobs_of, snapshot. simpl.
  destruct (EventBus.get w MATCH_ALL ++ EventBus.get w t) as [|x ls] eqn:Els.
  - simpl. f_equal. destruct w1; unfold set_pending; simpl. by rewrite app_nil_r.
  - rewrite for_each_add_job. done.
Qed.

Lemma from_event_type_value t :
  JobPriority.value (JobPriority.from_event_type t) = priority_table t.
Proof.
  unfold JobPriority.from_event_type, priority_table,
    EVENT_TIME_CHANGED, EVENT_STATE_CHANGED, EVENT_CALL_SERVICE, EVENT_SERVICE_EXECUTED.
  repeat case_decide; subst; done.
Qed.

(** C4: [fire] hands the pool exactly one job for each listener of the
    snapshot [listeners[MATCH_ALL] ++ listeners[event_type]], in that order
    and after the jobs already pending; each job holds the event and the
    priority of the event type (service_executed 0, call_service 1,
    state_changed 2, time_changed 3, any other type 4); a later [listen],
    [listen_once] or [remove_listener] leaves these jobs as they are. *)
Theorem fire_dispatch w t data origin :
  data_arg w data →
  ∃ event w',
    EventBus.fire t data origin w = (Return tt, w') ∧
    event_type event = t ∧
    pending w' =
      pending w ++
      map (λ func, mkJob (JobPriority.from_event_type t) (Listen func event))
          (EventBus.get w MATCH_ALL ++ EventBus.get w t) ∧
    JobPriority.value (JobPriority.from_event_type t) = priority_table t ∧
    (∀ t' l,
       pending (exec (EventBus.listen t' l) w') = pending w' ∧
       pending (exec (EventBus.listen_once t' l) w') = pending w' ∧
       pending (exec (EventBus.remove_listener t' l) w') = pending w').
Proof.
  intros Ha.
  destruct (fire_spec w t data origin Ha) as (d & w1 & _ & Hmore & _ & _ & E).
  eexists (mkEvent t d origin), _. split; [exact E|].
  split_and!; try done.
  - simpl. by rewrite (proj2 Hmore).
  - apply from_event_type_value.
  - intros t' l. split_and!; try done.
    unfold exec, EventBus.listen_once, new_fn, mbind, M_bind, gets, modify,
      mret, M_ret.
    cbn beta iota. by destruct (has_run l _).
Qed.

Lemma fire_dispatch_witness :
  let w := exec (_ ← EventBus.listen MATCH_ALL (Callback 1);
                 EventBus.listen "x" (Callback 2)) (initial 0 0) in
  data_arg w None ∧
  ∃ event w',
    EventBus.fire "x" None local w = (Return tt, w') ∧
    event_type event = "x" ∧
    pending w' =
      pending w ++
      map (λ func, mkJob (JobPriority.from_event_type "x") (Listen func event))
          (EventBus.get w MATCH_ALL ++ EventBus.get w "x") ∧
    JobPriority.value (JobPriority.from_event_type "x") = priority_table "x" ∧
    (∀ t' l,
       pending (exec (EventBus.listen t' l) w') = pending w' ∧
       pending (exec (EventBus.listen_once t' l) w') = pending w' ∧
       pending (exec (EventBus.remove_listener t' l) w') = pending w').
Proof. split; [exact I | apply fire_dispatch; exact I]. Defined.

(** *** remove_listener *)

Lemma remove_first_None x l : remove_first x l = None ↔ x ∉ l.
Proof.
  induction l as [|y l IH]; simpl.
  - split; [intros _; apply not_elem_of_nil | done].
  - case_decide as E.
    + subst. split; [done|]. intros H. destruct H. apply list_elem_of_here.
    + destruct (remove_first x l) eqn:Hr.
      * split; [done|]. intros Hn. exfalso.
        assert (x ∉ l) as Hl by (intros ?; apply Hn; by apply list_elem_of_further).
        apply IH in Hl. done.
      * split; [|done]. intros _. apply not_elem_of_cons. split; [congruence|].
        by apply IH.
Qed.

(** [l.remove(x)] takes out the first item equal to [x]. *)
Lemma remove_first_Some x l l' :
  remove_first x l = Some l' ↔
  ∃ l1 l2, l = l1 ++ (x :: l2) ∧ (x ∉ l1) ∧ l' = l1 ++ l2.
Proof.
  revert l'. induction l as [|y l IH]; intros l'; simpl.
  - split; [done|]. intros (l1 & l2 & E & _). by destruct l1.
  - case_decide as E.
    + subst y. split.
      * intros [= <-]. exists [], l. split_and!; [done| apply not_elem_of_nil |done].
      * intros (l1 & l2 & El & Hn & ->). destruct l1 as [|z l1].
        -- simpl in El. by injection El as <-.
        -- injection El as <- _. destruct Hn. apply list_elem_of_here.
    + destruct (remove_first x l) as [r|] eqn:Hr.
      * split.
        -- intros [= <-]. destruct (proj1 (IH r) eq_refl) as (l1 & l2 & -> & Hn & ->).
           exists (y :: l1), l2. split_and!; [done| |done].
           apply not_elem_of_cons. split; [congruence|done].
        -- intros (l1 & l2 & El & Hn & ->). destruct l1 as [|z l1].
           ++ simpl in El. injection El as -> _. done.
           ++ injection El as <- ->. f_equal.
              apply not_elem_of_cons in Hn as [_ Hn].
              assert (Some r = Some (l1 ++ l2)) as [= ->]; [|done].
              apply IH. by exists l1, l2.
      * split; [done|]. intros (l1 & l2 & El & Hn & ->). exfalso.
        apply remove_first_None in Hr. apply Hr.
        destruct l1 as [|z l1].
        -- simpl in El. injection El as -> _. done.
        -- injection El as _ ->. apply elem_of_app. right. apply list_elem_of_here.
Qed.

Lemma registrations_app l b1 b2 :
  registrations l (b1 ++ b2) = (registrations l b1 + registrations l b2)%nat.
Proof. induction b1 as [|y b1 IH]; simpl; [done|]. rewrite IH. lia. Qed.

Lemma registrations_0 l b : registrations l b = 0%nat ↔ l ∉ b.
Proof.
  induction b as [|y b IH]; simpl.
  - split; [intros _; apply not_elem_of_nil|done].
  - rewrite not_elem_of_cons. case_decide as Hy.
    + split; [lia|]. intros [? _]. congruence.
    + rewrite IH. split; [|by intros [_ ?]]. intros ?. split; [congruence|done].
Qed.

Lemma jobs_for_jobs_of l event b :
  jobs_for l (jobs_of event b) = registrations l b.
Proof. induction b as [|y b IH]; simpl; [done|]. by rewrite IH. Qed.

Lemma listen_spec w t l :
  EventBus.listen t l w
  = (Return tt, set_listeners <[t := EventBus.get w t ++ [l]]> w).
Proof.
  unfold EventBus.listen, EventBus.get. run. f_equal.
  destruct w; unfold set_listeners; simpl. by destruct (_ !! t).
Qed.

Lemma set_listeners_id w : set_listeners (λ ls, ls) w = w.
Proof. by destruct w. Qed.

(** What [remove_listener] does, case by case. *)
Lemma remove_listener_absent w t l :
  l ∉ EventBus.get w t →
  EventBus.remove_listener t l w = (Return tt, w).
Proof.
  intros Hn. unfold EventBus.remove_listener, EventBus.get in *. run.
  f_equal. destruct w; unfold set_listeners; simpl in *.
  destruct (_ !! t) as [b|]; [|done]. simpl in Hn.
  apply remove_first_None in Hn. by rewrite Hn.
Qed.

Lemma remove_listener_present w t l b1 b2 :
  _listeners w !! t = Some (b1 ++ (l :: b2)) → l ∉ b1 →
  EventBus.remove_listener t l w
  = (Return tt,
     set_listeners (λ ls, if decide (b1 ++ b2 = []) then delete t ls
                          else <[t := b1 ++ b2]> ls) w).
Proof.
  intros Hb Hn. unfold EventBus.remove_listener. run. f_equal.
  destruct w; unfold set_listeners; simpl in *. rewrite Hb.
  assert (remove_first l (b1 ++ l :: b2) = Some (b1 ++ b2)) as ->.
  { apply remove_first_Some. by exists b1, b2. }
  case_decide as E; [by rewrite E|]. by destruct (b1 ++ b2).
Qed.

Lemma remove_first_snoc l b :
  ∃ r, remove_first l (b ++ [l]) = Some r ∧
       registrations l r = registrations l b.
Proof.
  induction b as [|y b (r & E & Hr)]; simpl.
  - exists []. by rewrite decide_True.
  - case_decide as Hy.
    + subst y. eexists. split; [done|]. rewrite registrations_app. simpl.
      rewrite decide_True by done. lia.
    + rewrite E. eexists. split; [done|]. simpl. rewrite decide_False by done.
      by rewrite Hr.
Qed.

Lemma get_set_listeners w f t :
  EventBus.get (set_listeners f w) t = default [] (f (_listeners w) !! t).
Proof. done. Qed.

(** After [listen] and [remove_listener] the listener is registered as
    often as before, and the world differs in the listeners only. *)
Lemma listen_then_remove_spec w t l :
  ∃ ls, listen_then_remove t l w = (Return tt, set_listeners (λ _, ls) w) ∧
        ∀ t', registrations l (default [] (ls !! t'))
              = registrations l (EventBus.get w t').
Proof.
  unfold listen_then_remove. rewrite (bind_Return _ _ _ _ _ (listen_spec w t l)).
  destruct (remove_first_snoc l (EventBus.get w t)) as (r & E & Hr).
  unfold EventBus.remove_listener. run.
  exists (match r with
          | [] => delete t (<[t := EventBus.get w t ++ [l]]> (_listeners w))
          | _ => <[t := r]> (<[t := EventBus.get w t ++ [l]]> (_listeners w))
          end).
  split.
  - f_equal. destruct w; unfold set_listeners; simpl.
    rewrite lookup_insert_eq, E. done.
  - intros t'. unfold EventBus.get in *. destruct (decide (t' = t)) as [->|Hne].
    + destruct r as [|y r].
      * rewrite lookup_delete_eq. simpl. by rewrite <- Hr.
      * rewrite insert_insert_eq, lookup_insert_eq. simpl. by rewrite <- Hr.
    + destruct r as [|y r].
      * rewrite lookup_delete_ne, lookup_insert_ne by done. done.
      * rewrite insert_insert_eq, lookup_insert_ne by done. done.
Qed.

(** C9, as the specification states it, fails: [listen] allows duplicates
    and [remove_listener] takes out one entry.  On a bus where the
    listener is registered already, one registration is left after
    [listen] and [remove_listener], and [fire] hands a job for it to the
    pool. *)
Lemma listen_remove_leaves_duplicate :
  ¬ no_job_after_listen_remove
      (exec (EventBus.listen "x" (Callback 7)) (initial 0 0)) "x" (Callback 7).
Proof. vm_compute. discriminate. Qed.

(** C9, amended.  [remove_listener(event_type, listener)] never raises.
    When the listener is in the bucket of the event type, its first entry
    is taken out, and the key is dropped when the bucket becomes empty;
    when the event type has no bucket or the listener is not in it, the
    world is unchanged.  After [listen(t, l)] and [remove_listener(t, l)],
    a [fire(t)] hands as many jobs for [l] to the pool as [l] had entries
    under [MATCH_ALL] and [t] before the [listen]: none when it had
    none. *)
Theorem remove_listener_spec w t l :
  (∀ b1 b2, _listeners w !! t = Some (b1 ++ (l :: b2)) → l ∉ b1 →
     EventBus.remove_listener t l w
     = (Return tt,
        set_listeners (λ ls, if decide (b1 ++ b2 = []) then delete t ls
                             else <[t := b1 ++ b2]> ls) w)) ∧
  (l ∉ EventBus.get w t → EventBus.remove_listener t l w = (Return tt, w)) ∧
  (∀ data origin, data_arg w data →
     jobs_for l (enqueued_by (EventBus.fire t data origin)
                   (exec (listen_then_remove t l) w))
     = registrations l (EventBus.get w MATCH_ALL ++ EventBus.get w t)) ∧
  (l ∉ EventBus.get w MATCH_ALL ++ EventBus.get w t →
     no_job_after_listen_remove w t l).
Proof.
  assert (∀ data origin, data_arg w data →
     jobs_for l (enqueued_by (EventBus.fire t data origin)
                   (exec (listen_then_remove t l) w))
     = registrations l (EventBus.get w MATCH_ALL ++ EventBus.get w t)) as Hcount.
  { intros data origin Ha.
    destruct (listen_then_remove_spec w t l) as (ls & E & Hreg).
    destruct (fire_spec (set_listeners (λ _, ls) w) t data origin)
      as (d & w1 & _ & Hmore & _ & _ & Ef).
    { by destruct data. }
    unfold enqueued_by, exec. rewrite E. cbn [snd]. rewrite Ef. simpl.
    rewrite (proj2 Hmore). simpl. rewrite drop_app_length.
    rewrite jobs_for_jobs_of. unfold snapshot. rewrite !registrations_app.
    rewrite !get_set_listeners. by rewrite !Hreg. }
  split_and!.
  - apply remove_listener_present.
  - apply remove_listener_absent.
  - exact Hcount.
  - intros Hn. unfold no_job_after_listen_remove. rewrite Hcount by exact I.
    by apply registrations_0.
Qed.

(** ** class StateMachine *)

Lemma more_attrs_registry_ok w w' :
  more_attrs w w' → registry_ok w → registry_ok w'.
Proof.
  intros [Hext Ew] Hok key l Hl.
  rewrite Ew in Hl. simpl in Hl.
  destruct (Hok key l Hl) as (s & a & Hs & Ha).
  exists s, a. split; [by rewrite Ew|]. by apply Hext.
Qed.

Lemma more_attrs_stored w w' key :
  more_attrs w w' → registry_ok w → stored w' key = stored w key.
Proof.
  intros [Hext Ew] Hok. unfold stored.
  replace (_states w') with (_states w) by (by rewrite Ew).
  replace (state_objs w') with (state_objs w) by (by rewrite Ew).
  destruct (_states w !! key) as [l|] eqn:Hl; [|done]. simpl.
  destruct (Hok key l Hl) as (s & a & Hs & Ha). rewrite Hs. simpl.
  by rewrite Ha, (Hext _ _ Ha).
Qed.

(** The part of [set] that reads the old state. *)
Lemma set_reads_old w key :
  registry_ok w →
  (match _states w !! key with
   | Some l =>
       '(mkState _ old_st old_attr old_changed _) ← read_state l;
       a ← read_attrs old_attr;
       mret (Some (old_st, a, old_changed))
   | None => mret None
   end) w
  = (Return ((λ '(s, a), (state s, a, last_changed s)) <$> stored w key), w).
Proof.
  intros Hok. unfold stored.
  destruct (_states w !! key) as [l|] eqn:Hl; [|done]. simpl.
  destruct (Hok key l Hl) as (s & a & Hs & Ha).
  unfold read_state, read_attrs. run. rewrite Hs. simpl.
  destruct s as [e st at' lc lu]. simpl in *. by rewrite Ha.
Qed.

(** [set], after it has read its arguments and the old state: nothing
    more when the pair of state and attributes is the stored one, the
    change otherwise. *)
Lemma set_unfold w eid new attrs :
  let key := Str.lower eid in
  let st := str new in
  let d := attrs_contents w attrs in
  registry_ok w → attrs_arg w attrs →
  ∃ a w1,
    or_new_attrs attrs w = (Return a, w1) ∧
    more_attrs w w1 ∧
    attr_dicts w1 !! a = Some d ∧
    StateMachine.set eid new attrs w
    = if same_pair w key st d then (Return tt, w1)
      else
        (state ← State.__init__ key st (Some a) (carried w key st);
         _ ← modify (set_states <[key := state]>);
         event_data ← new_data {[ "entity_id" := VStr key;
                                  "new_state" := VState state ]};
         _ ← match _states w !! key with
             | Some o => data_setitem event_data "old_state" (VState o)
             | None => mret tt
             end;
         EventBus.fire EVENT_STATE_CHANGED (Some event_data) local) w1.
Proof.
  intros key st d Hok Ha.
  destruct (or_new_attrs_spec w attrs Ha) as (a & w1 & E & Hmore & Hc & _ & _).
  exists a, w1. split_and!; try done.
  unfold StateMachine.set. fold key. fold st.
  rewrite (bind_Return _ _ _ _ _ E).
  assert (registry_ok w1) as Hok1 by (by eapply more_attrs_registry_ok).
  assert (_states w1 = _states w) as Est by (by rewrite (proj2 Hmore)).
  unfold mbind at 1, M_bind at 1, gets at 1.
  rewrite (bind_Return _ _ _ _ _ (set_reads_old w1 key Hok1)).
  rewrite (more_attrs_stored w w1 key Hmore Hok).
  unfold mbind at 1, M_bind at 1, read_attrs at 1. rewrite Hc. simpl.
  unfold same_pair, carried. rewrite Est.
  destruct (stored w key) as [[s b]|]; simpl; [|done].
  fold d.
  destruct (bool_decide (state s = st)); simpl; [|done].
  destruct (bool_decide (b = d)); simpl; done.
Qed.

Lemma state_changed_data_nonempty w key l : state_changed_data w key l ≠ ∅.
Proof.
  unfold state_changed_data. intros H.
  apply (f_equal (λ m, m !! "entity_id")) in H.
  destruct (_states w !! key); vm_compute in H; discriminate.
Qed.

(** What a [set] that changes something does to the world. *)
Lemma set_changing w eid new attrs :
  let key := Str.lower eid in
  let st := str new in
  let d := attrs_contents w attrs in
  registry_ok w → attrs_arg w attrs →
  same_pair w key st d = false →
  is_Some (ENTITY_ID_PATTERN_match key) →
  ∃ l a dl w',
    StateMachine.set eid new attrs w = (Return tt, w') ∧
    state_objs w !! l = None ∧
    state_objs w' =
      <[l := mkState key st a
               (strip_microseconds (default (clock w) (carried w key st)))
               (clock w)]> (state_objs w) ∧
    attr_dicts w' !! a = Some d ∧
    (∀ x y, attr_dicts w !! x = Some y → attr_dicts w' !! x = Some y) ∧
    _states w' = <[key := l]> (_states w) ∧
    data_dicts w !! dl = None ∧
    data_dicts w' = <[dl := state_changed_data w key l]> (data_dicts w) ∧
    fired w' = fired w ++ [mkEvent EVENT_STATE_CHANGED dl local] ∧
    pending w' =
      pending w ++ jobs_of (mkEvent EVENT_STATE_CHANGED dl local)
                     (snapshot w EVENT_STATE_CHANGED) ∧
    _listeners w' = _listeners w ∧ clock w' = clock w.
Proof.
  intros key st d Hok Ha Hsame Hvalid.
  destruct (set_unfold w eid new attrs Hok Ha) as (a0 & w1 & _ & Hm1 & Hc1 & E).
  fold key st d in E, Hc1. rewrite Hsame in E. rewrite E. clear E.
  destruct (State_init_returns w1 key st (Some a0) (carried w key st))
    as (l & a & w2 & _ & E2 & Hfresh & Hm2 & Hc2 & _); [done|by simpl; rewrite Hc1|].
  simpl in Hc2. rewrite Hc1 in Hc2. simpl in Hc2.
  rewrite (bind_Return _ _ _ _ _ E2). clear E2.
  pose proof (proj2 Hm1) as Ew1. pose proof (proj2 Hm2) as Ew2.
  assert (state_objs w1 = state_objs w) as Es1 by (by rewrite Ew1).
  assert (clock w1 = clock w) as Ec1 by (by rewrite Ew1).
  unfold built. rewrite Ec1.
  replace (Str.lower key) with key by (unfold key; by rewrite lower_idemp).
  set (s' := mkState key st a _ _).
  unfold mbind at 1, M_bind at 1, modify at 1.
  set (w4 := set_states _ _).
  destruct (new_data_spec {[ "entity_id" := VStr key; "new_state" := VState l ]} w4)
    as (dl & E5 & Hdl).
  rewrite (bind_Return _ _ _ _ _ E5). clear E5.
  set (w5 := set_data_dicts _ w4).
  assert (∃ w6, (match _states w !! key with
                 | Some o => data_setitem dl "old_state" (VState o)
                 | None => mret tt
                 end) w5 = (Return tt, w6) ∧
                w6 = set_data_dicts (λ _, <[dl := state_changed_data w key l]> (data_dicts w4)) w4)
    as (w6 & E6 & Ew6).
  { unfold state_changed_data. destruct (_states w !! key) as [o|].
    - unfold data_setitem, read_data. run. rewrite lookup_insert_eq. simpl.
      eexists. split; [reflexivity|].
      unfold w5, set_data_dicts. simpl. by rewrite insert_insert_eq.
    - eexists. split; [reflexivity|]. done. }
  rewrite (bind_Return _ _ _ _ _ E6). clear E6.
  destruct (fire_spec w6 EVENT_STATE_CHANGED (Some dl) local)
    as (dl' & w7 & _ & _ & _ & Hne & E7).
  { simpl. rewrite Ew6. simpl. by rewrite lookup_insert_eq. }
  destruct Hne as [[= <-] ->].
  { simpl. rewrite Ew6. simpl. rewrite lookup_insert_eq. simpl.
    apply state_changed_data_nonempty. }
  rewrite E7. clear E7.
  exists l, a, dl. eexists. split; [reflexivity|].
  assert (data_dicts w4 = data_dicts w) as Ed4.
  { unfold w4. simpl. rewrite Ew2. simpl. by rewrite Ew1. }
  rewrite Ed4 in Hdl, Ew6.
  rewrite Ew6. unfold w4. simpl.
  split_and!.
  - by rewrite <- Es1.
  - rewrite Ew2. simpl. by rewrite Es1.
  - done.
  - intros x y Hx. apply (proj1 Hm2), (proj1 Hm1), Hx.
  - rewrite Ew2. simpl. by rewrite Ew1.
  - done.
  - done.
  - rewrite Ew2. simpl. by rewrite Ew1.
  - rewrite Ew2. simpl. rewrite Ew1. simpl. by do 2 f_equal.
  - rewrite Ew2. simpl. by rewrite Ew1.
  - rewrite Ew2. simpl. by rewrite Ew1.
Qed.

Lemma set_identical w eid new attrs :
  let key := Str.lower eid in
  registry_ok w → attrs_arg w attrs →
  same_pair w key (str new) (attrs_contents w attrs) = true →
  ∃ w', StateMachine.set eid new attrs w = (Return tt, w') ∧ more_attrs w w'.
Proof.
  intros key Hok Ha Hsame.
  destruct (set_unfold w eid new attrs Hok Ha) as (a0 & w1 & _ & Hm1 & _ & E).
  fold key in E. rewrite Hsame in E. eauto.
Qed.

Lemma set_raising w eid new attrs :
  let key := Str.lower eid in
  registry_ok w → attrs_arg w attrs →
  same_pair w key (str new) (attrs_contents w attrs) = false →
  ENTITY_ID_PATTERN_match key = None →
  ∃ w', StateMachine.set eid new attrs w = (Raise InvalidEntityFormatError, w') ∧
        more_attrs w w'.
Proof.
  intros key Hok Ha Hsame Hinvalid.
  destruct (set_unfold w eid new attrs Hok Ha) as (a0 & w1 & _ & Hm1 & _ & E).
  fold key in E. rewrite Hsame in E. exists w1. split; [|done]. rewrite E.
  apply bind_Raise. by apply State_init_raises.
Qed.

(** C1, as the specification states it, fails: the constructor of [State]
    guards the format of the entity id.  On a new state machine,
    [set("badid", "on")] raises; no state is stored and no event is
    fired. *)
Lemma set_rejects_malformed_entity_id :
  ¬ set_as_claimed (initial 0 0) "badid" (SStr "on") None.
Proof.
  unfold set_as_claimed.
  replace (same_pair (initial 0 0) (Str.lower "badid") (str (SStr "on"))
             (attrs_contents (initial 0 0) None)) with false by (by vm_compute).
  intros (l & s & event & event_data & Hst & _).
  apply (f_equal (λ m, m !! Str.lower "badid")) in Hst.
  rewrite lookup_insert_eq in Hst. vm_compute in Hst. discriminate.
Qed.

Lemma state_changed_data_lookup w key l :
  state_changed_data w key l !! "entity_id" = Some (VStr key) ∧
  state_changed_data w key l !! "new_state" = Some (VState l) ∧
  state_changed_data w key l !! "old_state" = VState <$> _states w !! key.
Proof.
  unfold state_changed_data. destruct (_states w !! key); simpl; done.
Qed.

(** C1, amended: the claim holds for every call whose lowercased entity
    id matches [ENTITY_ID_PATTERN], and for every call that finds its pair
    of state and attributes stored; such a call returns.  A call that would
    change something under an entity id that does not match the pattern
    raises [InvalidEntityFormatError]; then the map is as before and no
    event is fired. *)
Theorem set_fires_state_changed w eid new attrs :
  let key := Str.lower eid in
  let changes := negb (same_pair w key (str new) (attrs_contents w attrs)) in
  let w' := exec (StateMachine.set eid new attrs) w in
  registry_ok w → attrs_arg w attrs →
  (is_Some (ENTITY_ID_PATTERN_match key) ∨ changes = false →
     result (StateMachine.set eid new attrs) w = Return tt ∧
     set_as_claimed w eid new attrs) ∧
  (ENTITY_ID_PATTERN_match key = None → changes = true →
     result (StateMachine.set eid new attrs) w = Raise InvalidEntityFormatError ∧
     _states w' = _states w ∧ fired w' = fired w ∧ pending w' = pending w).
Proof.
  intros key changes w' Hok Ha. subst changes w'. unfold set_as_claimed, exec, result.
  fold key.
  destruct (same_pair w key (str new) (attrs_contents w attrs)) eqn:Hsame; simpl.
  - destruct (set_identical w eid new attrs Hok Ha Hsame) as (w1 & -> & _ & Ew).
    split; [|done]. intros _. simpl. rewrite Ew. done.
  - split.
    + intros [Hvalid|[=]].
      destruct (set_changing w eid new attrs Hok Ha Hsame Hvalid)
        as (l & a & dl & w1 & -> & Hf & Hso & Hat & _ & Hst & _ & Hdd & Hfi & _).
      split; [done|]. simpl.
      destruct (state_changed_data_lookup w key l) as (H1 & H2 & H3).
      exists l, (mkState key (str new) a
                   (strip_microseconds (default (clock w) (carried w key (str new))))
                   (clock w)),
        (mkEvent EVENT_STATE_CHANGED dl local), (state_changed_data w key l).
      rewrite Hso, Hdd, Hfi. simpl. rewrite !lookup_insert_eq.
      split_and!; done.
    + intros Hinvalid _.
      destruct (set_raising w eid new attrs Hok Ha Hsame Hinvalid) as (w1 & -> & _ & Ew).
      simpl. rewrite Ew. done.
Qed.

Lemma set_fires_state_changed_witness :
  let w := initial 0 0 in
  registry_ok w ∧ attrs_arg w None ∧
  is_Some (ENTITY_ID_PATTERN_match (Str.lower "Light.Kitchen")) ∧
  ENTITY_ID_PATTERN_match (Str.lower "badid") = None ∧
  negb (same_pair w (Str.lower "badid") (str (SStr "on")) (attrs_contents w None)) = true ∧
  (result (StateMachine.set "Light.Kitchen" (SStr "on") None) w = Return tt ∧
   set_as_claimed w "Light.Kitchen" (SStr "on") None) ∧
  (result (StateMachine.set "badid" (SStr "on") None) w = Raise InvalidEntityFormatError ∧
   _states (exec (StateMachine.set "badid" (SStr "on") None) w) = _states w).
Proof.
  assert (registry_ok (initial 0 0)) as Hok.
  { intros key l H. vm_compute in H. discriminate. }
  assert (is_Some (ENTITY_ID_PATTERN_match (Str.lower "Light.Kitchen"))) as Hvalid.
  { vm_compute; eauto. }
  destruct (set_fires_state_changed (initial 0 0) "Light.Kitchen" (SStr "on") None Hok I)
    as [H1 _].
  destruct (set_fires_state_changed (initial 0 0) "badid" (SStr "on") None Hok I)
    as [_ H2].
  specialize (H1 (or_introl Hvalid)).
  destruct (H2 eq_refl eq_refl) as (H3 & H4 & _).
  split; [exact Hok|]. split; [exact I|]. split; [exact Hvalid|].
  split; [reflexivity|]. split; [reflexivity|]. split; [exact H1|].
  split; [exact H3|exact H4].
Defined.

Lemma strip_microseconds_whole t : whole_seconds (strip_microseconds t).
Proof.
  unfold whole_seconds, strip_microseconds, second.
  rewrite Zminus_mod_idemp_r. by rewrite Z.sub_diag.
Qed.

Lemma strip_microseconds_id t : whole_seconds t → strip_microseconds t = t.
Proof. unfold whole_seconds, strip_microseconds. intros ->. lia. Qed.

Lemma registry_initial t i : registry_ok (initial t i) ∧ registry_whole (initial t i).
Proof. split; [intros key l H | intros key s a H]; vm_compute in H; discriminate. Qed.

(** The [State] that a changing [set] stores, looked up through the
    map. *)
Lemma set_changing_stored w eid new attrs :
  let key := Str.lower eid in
  let st := str new in
  let d := attrs_contents w attrs in
  let w' := exec (StateMachine.set eid new attrs) w in
  registry_ok w → attrs_arg w attrs →
  same_pair w key st d = false →
  is_Some (ENTITY_ID_PATTERN_match key) →
  (∃ a, stored w' key
        = Some (mkState key st a
                  (strip_microseconds (default (clock w) (carried w key st)))
                  (clock w), d)) ∧
  (∀ k, k ≠ key → stored w' k = stored w k) ∧
  registry_ok w'.
Proof.
  intros key st d w' Hok Ha Hsame Hvalid.
  destruct (set_changing w eid new attrs Hok Ha Hsame Hvalid)
    as (l & a & dl & w1 & E & Hf & Hso & Hat & Hext & Hst & _).
  subst w'. unfold exec. rewrite E. simpl. fold key st d in Hso, Hst, Hat.
  assert (∀ k, k ≠ key → stored w1 k = stored w k) as Hother.
  { intros k Hk. unfold stored. rewrite Hst, Hso, lookup_insert_ne by done.
    destruct (_states w !! k) as [l0|] eqn:Hl0; [|done]. simpl.
    destruct (Hok k l0 Hl0) as (s0 & a0 & Hs0 & Ha0).
    rewrite lookup_insert_ne by congruence. rewrite Hs0. simpl.
    by rewrite Ha0, (Hext _ _ Ha0). }
  split_and!.
  - exists a. unfold stored. rewrite Hst, Hso, lookup_insert_eq. simpl.
    rewrite lookup_insert_eq. simpl. by rewrite Hat.
  - exact Hother.
  - intros k l0 Hl0. destruct (decide (k = key)) as [->|Hk].
    + rewrite Hst, lookup_insert_eq in Hl0. injection Hl0 as <-.
      eexists _, _. rewrite Hso, lookup_insert_eq. split; [done|]. exact Hat.
    + rewrite Hst, lookup_insert_ne in Hl0 by done.
      destruct (Hok k l0 Hl0) as (s0 & a0 & Hs0 & Ha0).
      exists s0, a0. rewrite Hso, lookup_insert_ne by congruence.
      split; [done|]. by apply Hext.
Qed.

(** C2: a [set] that changes something stores a [State] whose
    [last_updated] is the current time; its [last_changed] is that of the
    prior [State], unchanged, when the entity existed with the same state
    string (so that the attributes differ), and the current time truncated
    to whole seconds in every other case (new entity, or other state
    string). *)
Theorem set_timestamps w eid new attrs :
  let key := Str.lower eid in
  let st := str new in
  let w' := exec (StateMachine.set eid new attrs) w in
  registry_ok w → registry_whole w → attrs_arg w attrs →
  is_Some (ENTITY_ID_PATTERN_match key) →
  same_pair w key st (attrs_contents w attrs) = false →
  ∃ s' a',
    stored w' key = Some (s', a') ∧
    last_updated s' = clock w ∧
    last_changed s' =
      match stored w key with
      | Some (s, _) =>
          if decide (state s = st) then last_changed s
          else strip_microseconds (clock w)
      | None => strip_microseconds (clock w)
      end.
Proof.
  intros key st w' Hok Hwhole Ha Hvalid Hsame.
  destruct (set_changing_stored w eid new attrs Hok Ha Hsame Hvalid)
    as [[a Hs] _].
  fold key st w' in Hs. eexists _, _. split; [exact Hs|]. simpl.
  split; [done|]. unfold carried.
  destruct (stored w key) as [[s b]|] eqn:Hold; [|done].
  case_decide as Hst.
  - rewrite bool_decide_eq_true_2 by done. simpl.
    apply strip_microseconds_id. by eapply Hwhole.
  - by rewrite bool_decide_eq_false_2 by done.
Qed.

(** [set] keeps the state machine well formed, however it ends. *)
Lemma set_preserves_registry w eid new attrs :
  let w' := exec (StateMachine.set eid new attrs) w in
  registry_ok w → registry_whole w → attrs_arg w attrs →
  registry_ok w' ∧ registry_whole w'.
Proof.
  intros w' Hok Hwhole Ha. subst w'.
  set (key := Str.lower eid). set (st := str new).
  destruct (same_pair w key st (attrs_contents w attrs)) eqn:Hsame.
  - destruct (set_identical w eid new attrs Hok Ha Hsame) as (w1 & E & Hm).
    unfold exec. rewrite E. simpl. split; [by eapply more_attrs_registry_ok|].
    intros k s a. rewrite (more_attrs_stored w w1 k Hm Hok). apply Hwhole.
  - destruct (ENTITY_ID_PATTERN_match key) as [de|] eqn:Hvalid.
    + destruct (set_changing_stored w eid new attrs Hok Ha Hsame)
        as ([a Hs] & Hother & Hok'); [by fold key; rewrite Hvalid|].
      split; [done|]. intros k s b Hk. destruct (decide (k = key)) as [->|Hne].
      * fold key in Hs. rewrite Hs in Hk. injection Hk as <- <-. simpl.
        apply strip_microseconds_whole.
      * rewrite Hother in Hk by done. by eapply Hwhole.
    + destruct (set_raising w eid new attrs Hok Ha Hsame Hvalid) as (w1 & E & Hm).
      unfold exec. rewrite E. simpl. split; [by eapply more_attrs_registry_ok|].
      intros k s a. rewrite (more_attrs_stored w w1 k Hm Hok). apply Hwhole.
Qed.

Lemma kitchen_on_registry : registry_ok kitchen_on ∧ registry_whole kitchen_on.
Proof.
  assert (_states kitchen_on = {[ "light.kitchen" := 1%positive ]}) as Est
    by (vm_compute; reflexivity).
  split.
  - intros key l H. rewrite Est in H. apply lookup_singleton_Some in H as [<- <-].
    eexists _, _. split; vm_compute; reflexivity.
  - intros key s a H. unfold stored in H. rewrite Est in H.
    destruct (decide (key = "light.kitchen")) as [->|Hne].
    + vm_compute in H. injection H as <- <-. reflexivity.
    + rewrite lookup_singleton_ne in H by done. discriminate.
Qed.

Lemma set_timestamps_witness :
  let w := kitchen_on in
  let w' := exec (StateMachine.set "Light.Kitchen" (SStr "on") (Some 1%positive)) w in
  registry_ok w ∧ registry_whole w ∧ attrs_arg w (Some 1%positive) ∧
  is_Some (ENTITY_ID_PATTERN_match (Str.lower "Light.Kitchen")) ∧
  same_pair w (Str.lower "Light.Kitchen") (str (SStr "on"))
    (attrs_contents w (Some 1%positive)) = false ∧
  ∃ s' a',
    stored w' (Str.lower "Light.Kitchen") = Some (s', a') ∧
    last_updated s' = clock w ∧
    last_changed s' =
      match stored w (Str.lower "Light.Kitchen") with
      | Some (s, _) =>
          if decide (state s = str (SStr "on")) then last_changed s
          else strip_microseconds (clock w)
      | None => strip_microseconds (clock w)
      end.
Proof.
  assert (attrs_arg kitchen_on (Some 1%positive)) as Ha by (vm_compute; eauto).
  assert (is_Some (ENTITY_ID_PATTERN_match (Str.lower "Light.Kitchen"))) as Hvalid
    by (vm_compute; eauto).
  split; [exact (proj1 kitchen_on_registry)|].
  split; [exact (proj2 kitchen_on_registry)|].
  split; [exact Ha|]. split; [exact Hvalid|]. split; [reflexivity|].
  exact (set_timestamps kitchen_on "Light.Kitchen" (SStr "on") (Some 1%positive)
           (proj1 kitchen_on_registry) (proj2 kitchen_on_registry) Ha Hvalid eq_refl).
Defined.

(** *** Reads *)

Lemma extends_refl w : extends w w.
Proof. done. Qed.

Lemma extends_trans w1 w2 w3 : extends w1 w2 → extends w2 w3 → extends w1 w3.
Proof.
  intros (? & ? & E1) (? & ? & E2). split_and!.
  - by etrans.
  - by etrans.
  - by rewrite E2.
Qed.

Lemma State_valid_extends w w' l :
  extends w w' → State_valid w l → State_valid w' l.
Proof.
  intros (Hs & Ha & _) (s & Hl & [d Hd] & Hm & Hlow).
  exists s. split_and!; try done.
  - by eapply lookup_weaken.
  - exists d. by eapply lookup_weaken.
Qed.

Lemma read_state_Some w l s :
  state_objs w !! l = Some s → read_state l w = (Return s, w).
Proof. unfold read_state. by intros ->. Qed.

Lemma read_attrs_Some w l d :
  attr_dicts w !! l = Some d → read_attrs l w = (Return d, w).
Proof. unfold read_attrs. by intros ->. Qed.

(** What [copy] does: a new [State] object with a new [dict]. *)
Lemma State_copy_spec w self :
  State_valid w self →
  ∃ l w' s,
    State.copy self w = (Return l, w') ∧
    extends w w' ∧
    state_objs w !! l = None ∧
    state_objs w' !! l = Some s ∧
    attr_dicts w !! attributes s = None ∧
    copy_of w' l self ∧
    pending w' = pending w ∧ fired w' = fired w.
Proof.
  intros (s0 & Hs0 & [d Hd] & Hm & Hlow).
  unfold State.copy.
  rewrite (bind_Return _ _ _ _ _ (read_state_Some w self s0 Hs0)).
  rewrite (bind_Return _ _ _ _ _ (read_attrs_Some w _ d Hd)).
  destruct (new_attrs_spec d w) as (a0 & E0 & Hf0).
  rewrite (bind_Return _ _ _ _ _ E0).
  set (w1 := set_attr_dicts <[a0 := d]> w).
  destruct (State_init_returns w1 (entity_id s0) (state s0) (Some a0)
              (Some (last_changed s0)))
    as (l & a & w2 & _ & E & Hfl & Hmore & Hc & Hne & He); [done| |].
  { simpl. rewrite lookup_insert_eq. eauto. }
  rewrite E. clear E.
  simpl in Hc, Hne, He. rewrite lookup_insert_eq in Hc, Hne, He. simpl in *.
  pose proof (proj2 Hmore) as Ew2.
  assert (attr_dicts w !! a = None) as Hfa.
  { destruct (decide (d = ∅)) as [Hd0|Hd0].
    - specialize (He Hd0). destruct (decide (a = a0)) as [->|Hn].
      + by rewrite lookup_insert_eq in He.
      + by rewrite lookup_insert_ne in He.
    - destruct (Hne Hd0) as [[= <-] _]. done. }
  eexists l, _, _. split; [reflexivity|].
  assert (attr_dicts w ⊆ attr_dicts w2) as Hsub.
  { apply map_subseteq_spec. intros x y Hx. apply (proj1 Hmore). simpl.
    rewrite lookup_insert_ne; [done|]. congruence. }
  split_and!.
  - split_and!; simpl.
    + rewrite Ew2. simpl. by apply insert_subseteq.
    + done.
    + by rewrite Ew2.
  - done.
  - simpl. by rewrite lookup_insert_eq.
  - done.
  - eexists _, s0, d. simpl. rewrite lookup_insert_eq.
    rewrite lookup_insert_ne by congruence. rewrite Ew2. simpl.
    split_and!; try done.
    by eapply lookup_weaken.
  - simpl. by rewrite Ew2.
  - simpl. by rewrite Ew2.
Qed.

(** A new object with new attributes is not aliased with the map. *)
Lemma fresh_unaliased w w' l s :
  registry_valid w → extends w w' →
  state_objs w !! l = None → state_objs w' !! l = Some s →
  attr_dicts w !! attributes s = None →
  unaliased w' l.
Proof.
  intros Hreg (Hso & Had & Est) Hfl Hl Hfa. exists s. split_and!; [done| |].
  - intros [key Hk]. rewrite Est in Hk.
    destruct (Hreg key l Hk) as (s0 & Hs0 & _). congruence.
  - intros (key & l0 & s0 & Hk & Hs0 & Hattr). rewrite Est in Hk.
    destruct (Hreg key l0 Hk) as (s1 & Hs1 & [d Hd] & _).
    pose proof (lookup_weaken _ _ _ _ Hs1 Hso) as Hs1'.
    assert (s0 = s1) as -> by congruence. congruence.
Qed.

(** Writing to an object that is not aliased with the map leaves every
    stored state as it is. *)
Lemma unaliased_frame w l s f key value k :
  registry_ok w → state_objs w !! l = Some s →
  ¬ live_state w l → ¬ live_attrs w (attributes s) →
  stored (exec (_ ← State_assign l f; attrs_setitem (attributes s) key value) w) k
  = stored w k.
Proof.
  intros Hok Hl Hnl Hna. unfold exec, State_assign, attrs_setitem. run.
  unfold stored. simpl.
  destruct (_states w !! k) as [l0|] eqn:Hk; [|done]. simpl.
  destruct (Hok k l0 Hk) as (s0 & a0 & Hs0 & Ha0).
  assert (l0 ≠ l) as Hne by (intros ->; apply Hnl; by exists k).
  rewrite lookup_alter_ne by done. rewrite Hs0. simpl.
  rewrite lookup_alter_ne; [done|].
  intros Heq. apply Hna. by exists k, l0, s0.
Qed.

Lemma copy_of_extends w w' l l0 :
  extends w w' → copy_of w l l0 → copy_of w' l l0.
Proof.
  intros (Hs & Ha & _) (s & s0 & d & H1 & H2 & H3 & H4 & H5 & H6 & H7).
  exists s, s0, d. split_and!; try done; by eapply lookup_weaken.
Qed.

(** [get] returns a copy that is not aliased with the map, or [None]. *)
Lemma get_returns_copy w eid :
  registry_valid w →
  match _states w !! Str.lower eid with
  | Some l0 =>
      ∃ l w', StateMachine.get eid w = (Return (Some l), w') ∧
              extends w w' ∧ unaliased w' l ∧ copy_of w' l l0
  | None => StateMachine.get eid w = (Return None, w)
  end.
Proof.
  intros Hreg. unfold StateMachine.get. run.
  destruct (_states w !! Str.lower eid) as [l0|] eqn:Hk; [|done].
  destruct (State_copy_spec w l0 (Hreg _ _ Hk))
    as (l & w' & s & E & Hext & Hfl & Hl & Hfa & Hcopy & _).
  unfold mbind, M_bind in E |- *. rewrite E.
  exists l, w'. split_and!; try done.
  by eapply fresh_unaliased.
Qed.

Lemma collect_copy w0 values :
  registry_valid w0 → Forall (State_valid w0) values →
  ∀ w, extends w0 w →
    ∃ ls w',
      collect State.copy values w = (Return ls, w') ∧
      extends w w' ∧
      Forall (λ l, ∃ s, state_objs w0 !! l = None ∧ state_objs w' !! l = Some s ∧
                        attr_dicts w0 !! attributes s = None) ls ∧
      Forall2 (copy_of w') ls values.
Proof.
  intros Hreg. induction 1 as [|x values Hx Hvalues IH]; intros w Hext.
  - exists [], w. split_and!; done.
  - simpl.
    destruct (State_copy_spec w x (State_valid_extends _ _ _ Hext Hx))
      as (l & w1 & s & E & Hext1 & Hfl & Hl & Hfa & Hcopy & _).
    rewrite (bind_Return _ _ _ _ _ E).
    destruct (IH w1 (extends_trans _ _ _ Hext Hext1)) as (ls & w' & E' & Hext' & Hls & Hcp).
    rewrite (bind_Return _ _ _ _ _ E').
    exists (l :: ls), w'. split_and!.
    + done.
    + by eapply extends_trans.
    + constructor; [|done]. exists s. split_and!.
      * eapply lookup_weaken_None; [exact Hfl|]. apply Hext.
      * eapply lookup_weaken; [exact Hl|]. apply Hext'.
      * eapply lookup_weaken_None; [exact Hfa|]. apply Hext.
    + constructor; [|done]. by eapply copy_of_extends.
Qed.

(** [all] returns copies that are not aliased with the map. *)
Lemma all_returns_copies w :
  registry_valid w →
  ∃ ls w', StateMachine.all w = (Return ls, w') ∧
           extends w w' ∧
           Forall (unaliased w') ls ∧
           Forall2 (copy_of w') ls (map_to_list (_states w)).*2.
Proof.
  intros Hreg. unfold StateMachine.all. run.
  destruct (collect_copy w (map_to_list (_states w)).*2 Hreg) with (w := w)
    as (ls & w' & E & Hext & Hls & Hcp); [|done|].
  { apply list.Forall_forall. intros l Hl.
    apply list_elem_of_fmap in Hl as ([key l'] & -> & Hin).
    apply elem_of_map_to_list in Hin. by eapply Hreg. }
  unfold mbind, M_bind in E |- *. rewrite E.
  exists ls, w'. split_and!; try done.
  eapply list.Forall_impl; [exact Hls|]. intros l (s & Hfl & Hl & Hfa).
  by eapply fresh_unaliased.
Qed.

Lemma select_spec keep values w :
  Forall (λ l, is_Some (state_objs w !! l)) values →
  ∃ ls, StateMachine.select keep values w = (Return ls, w) ∧
        ∀ l, l ∈ ls ↔ l ∈ values ∧ ∃ s, state_objs w !! l = Some s ∧ keep s = true.
Proof.
  induction 1 as [|x values [s Hs] _ (ls & E & Hls)]; simpl.
  - exists []. split; [done|]. intros l. split; [by intros ?%elem_of_nil|].
    by intros [?%elem_of_nil _].
  - rewrite (bind_Return _ _ _ _ _ (read_state_Some w x s Hs)).
    rewrite (bind_Return _ _ _ _ _ E). run.
    eexists. split; [reflexivity|]. intros l.
    destruct (keep s) eqn:Hk.
    + rewrite !elem_of_cons, Hls. split.
      * intros [->|[? ?]]; [|tauto]. split; [by left|]. by exists s.
      * intros [[->|?] ?]; [by left|]. right. tauto.
    + rewrite elem_of_cons, Hls. split; [tauto|].
      intros [[->|?] (s' & Hs' & Hk')]; [congruence|]. split; [done|]. by exists s'.
Qed.

(** [get_since] allocates nothing: it returns references that the map
    holds. *)
Lemma get_since_returns_live_states w point_in_time :
  registry_ok w →
  ∃ ls, StateMachine.get_since point_in_time w = (Return ls, w) ∧
        ∀ l, l ∈ ls → live_state w l.
Proof.
  intros Hok. unfold StateMachine.get_since. run.
  destruct (select_spec
              (λ s, bool_decide (strip_microseconds point_in_time ≤ last_updated s))
              (map_to_list (_states w)).*2 w) as (ls & E & Hls).
  { apply list.Forall_forall. intros l Hl.
    apply list_elem_of_fmap in Hl as ([key l'] & -> & Hin).
    apply elem_of_map_to_list in Hin. destruct (Hok _ _ Hin) as (s & _ & Hs & _).
    by exists s. }
  exists ls. split; [exact E|]. intros l Hl. apply Hls in Hl as [Hin _].
  apply list_elem_of_fmap in Hin as ([key l'] & -> & Hin).
  apply elem_of_map_to_list in Hin. by exists key.
Qed.

(** C8 fails on the code: [get] and [all] return copies, [get_since]
    returns the [State] objects of the map themselves.  After
    [set("light.kitchen", "on")], [get_since] returns the reference that
    the map holds, and an assignment to the [state] of the object it
    returned changes what the state machine reports. *)
Theorem get_since_leaks_live_state :
  let w := exec (StateMachine.set "light.kitchen" (SStr "on") None) (initial 0 0) in
  let off (s : State) :=
    mkState (entity_id s) "off" (attributes s) (last_changed s) (last_updated s) in
  ∃ l,
    StateMachine.get_since 0 w = (Return [l], w) ∧
    _states w !! "light.kitchen" = Some l ∧
    result (StateMachine.is_state "light.kitchen" "off") w = Return false ∧
    result (_ ← State_assign l off; StateMachine.is_state "light.kitchen" "off") w
    = Return true.
Proof.
  exists 1%positive. split_and!; vm_compute; reflexivity.
Qed.

(** ** class ServiceRegistry *)

Lemma call_service_data_nonempty w domain service service_data :
  call_service_data w domain service service_data ≠ ∅.
Proof. apply insert_non_empty. Qed.

Lemma generate_unique_id_spec w :
  ServiceRegistry._generate_unique_id w
  = (Return (next_call_id w), set_cur_id (λ n, n + 1) w).
Proof. reflexivity. Qed.

(** [call] up to the wait: the world when [call_service] has been
    fired. *)
Lemma call_spec wait w domain service service_data blocking :
  data_arg w service_data →
  ∃ event_data w1,
    ServiceRegistry.call wait domain service service_data blocking w
    = call_finish wait
        (if blocking then Some (next_flag w, next_closure w) else None) w1 ∧
    (data_contents w service_data ≠ ∅ → service_data = Some event_data) ∧
    (data_contents w service_data = ∅ → data_dicts w !! event_data = None) ∧
    data_dicts w1
    = <[event_data := call_service_data w domain service service_data]> (data_dicts w) ∧
    fired w1 = fired w ++ [mkEvent EVENT_CALL_SERVICE event_data local] ∧
    pending w1
    = pending w ++ jobs_of (mkEvent EVENT_CALL_SERVICE event_data local)
                     (snapshot w EVENT_CALL_SERVICE) ∧
    _cur_id w1 = _cur_id w + 1 ∧
    _listeners w1
    = (if blocking
       then <[EVENT_SERVICE_EXECUTED :=
                EventBus.get w EVENT_SERVICE_EXECUTED ++ [next_closure w]]> (_listeners w)
       else _listeners w) ∧
    flags w1 = (if blocking then <[next_flag w := false]> (flags w) else flags w) ∧
    next_fn w1 = (if blocking then S (next_fn w) else next_fn w) ∧
    run_attr w1 = run_attr w ∧ calls w1 = calls w ∧ _states w1 = _states w.
Proof.
  intros Ha. unfold ServiceRegistry.call.
  rewrite (bind_Return _ _ _ _ _ (generate_unique_id_spec w)).
  set (w0 := set_cur_id _ w).
  destruct (or_new_data_spec w0 service_data) as (ed & w1 & E & Hmore & Hc & Hne & He & Hdd).
  { by destruct service_data. }
  rewrite (bind_Return _ _ _ _ _ E). clear E.
  pose proof (proj2 Hmore) as Ew1.
  replace (data_contents w0 service_data) with (data_contents w service_data) in *
    by (by destruct service_data).
  erewrite (bind_Return _ _ w1); [|by apply data_setitem_spec].
  erewrite (bind_Return _ _ (set_data_dicts _ w1));
    [|apply data_setitem_spec; simpl; by rewrite lookup_insert_eq].
  erewrite (bind_Return _ _ (set_data_dicts _ (set_data_dicts _ w1)));
    [|apply data_setitem_spec; simpl; by rewrite lookup_insert_eq].
  fold (call_service_data w domain service service_data).
  set (w2 := set_data_dicts _ _).
  assert (flags w2 = flags w ∧ next_fn w2 = next_fn w ∧ _listeners w2 = _listeners w ∧
          fired w2 = fired w ∧ pending w2 = pending w ∧ _cur_id w2 = _cur_id w + 1 ∧
          run_attr w2 = run_attr w ∧ calls w2 = calls w ∧ _states w2 = _states w ∧
          data_dicts w2
          = <[ed := call_service_data w domain service service_data]> (data_dicts w))
    as (Ef & En & El & Efi & Ep & Ecu & Er & Eca & Est & Ed).
  { unfold w2. simpl. rewrite Hdd, Ew1. simpl. rewrite !insert_insert_eq. done. }
  clearbody w2. clear Hdd Ew1 Hmore Hc.
  set (waiting := if blocking then Some (next_flag w, next_closure w) else None).
  assert (∃ w3,
    (if blocking
     then executed_event ← new_flag;
          fn ← new_fn;
          _ ← EventBus.listen EVENT_SERVICE_EXECUTED
                (service_executed fn (next_call_id w) executed_event);
          mret (Some (executed_event,
                      service_executed fn (next_call_id w) executed_event))
     else mret None) w2 = (Return waiting, w3) ∧
    w3 = (if blocking
          then set_listeners
                 <[EVENT_SERVICE_EXECUTED :=
                     EventBus.get w EVENT_SERVICE_EXECUTED ++ [next_closure w]]>
                 (set_next_fn S (set_flags <[next_flag w := false]> w2))
          else w2)) as (w3 & E3 & Ew3).
  { destruct blocking; [|by eexists].
    eexists. split; [|reflexivity].
    unfold new_flag, new_fn, mbind, M_bind, mret, M_ret, gets, modify.
    cbn beta iota. rewrite listen_spec.
    unfold waiting, next_closure, next_flag, EventBus.get. simpl.
    by rewrite Ef, En, El. }
  rewrite (bind_Return _ _ _ _ _ E3). clear E3.
  destruct (fire_spec w3 EVENT_CALL_SERVICE (Some ed) local)
    as (ed' & w4 & _ & _ & _ & Hsame & E4).
  { simpl. rewrite Ew3. destruct blocking; simpl; rewrite Ed, lookup_insert_eq; eauto. }
  destruct Hsame as [[= <-] ->].
  { simpl. rewrite Ew3.
    destruct blocking; simpl; rewrite Ed, lookup_insert_eq; simpl;
      apply call_service_data_nonempty. }
  rewrite (bind_Return _ _ _ _ _ E4). clear E4.
  exists ed. eexists. split; [reflexivity|].
  split; [by intros [? _]%Hne|]. split; [done|].
  rewrite Ew3. destruct blocking; simpl;
    rewrite ?Ed, ?Efi, ?Ep, ?Ecu, ?El, ?Ef, ?En, ?Er, ?Eca, ?Est; split_and!; try done.
  - f_equal. unfold jobs_of, snapshot, EventBus.get. simpl. rewrite El.
    rewrite !lookup_insert_ne by done. done.
  - f_equal. unfold jobs_of, snapshot, EventBus.get. by rewrite El.
Qed.

(** C10: [call] with a non-empty [service_data] writes the keys
    [domain], [service] and [service_call_id] into that very [dict], over
    what the caller stored under them, and allocates no other [dict]; the
    event it then fires has that [dict] as its data. *)
Theorem call_writes_into_service_data wait w domain service l d blocking :
  data_dicts w !! l = Some d → d ≠ ∅ →
  ∃ w1,
    ServiceRegistry.call wait domain service (Some l) blocking w
    = call_finish wait
        (if blocking then Some (next_flag w, next_closure w) else None) w1 ∧
    data_dicts w1
    = <[l := <[ATTR_SERVICE_CALL_ID := VStr (next_call_id w)]>
               (<[ATTR_SERVICE := VStr service]>
                  (<[ATTR_DOMAIN := VStr domain]> d))]> (data_dicts w) ∧
    fired w1 = fired w ++ [mkEvent EVENT_CALL_SERVICE l local] ∧
    (blocking = false →
     ServiceRegistry.call wait domain service (Some l) blocking w = (Return None, w1)).
Proof.
  intros Hl Hd.
  destruct (call_spec wait w domain service (Some l) blocking)
    as (ed & w1 & E & Hne & _ & Hdd & Hfi & _).
  { simpl. by rewrite Hl. }
  simpl in Hne. rewrite Hl in Hne. simpl in Hne. injection (Hne Hd) as <-.
  exists w1. split; [exact E|]. split.
  - rewrite Hdd. unfold call_service_data. simpl. by rewrite Hl.
  - split; [done|]. intros ->. by rewrite E.
Qed.

Lemma call_writes_into_service_data_witness :
  let w := exec (new_data {[ "entity_id" := VStr "light.kitchen";
                             "domain" := VStr "mine" ]}) (initial 0 7) in
  let d : gmap string pyval :=
    {[ "entity_id" := VStr "light.kitchen"; "domain" := VStr "mine" ]} in
  data_dicts w !! 1%positive = Some d ∧ d ≠ ∅ ∧
  ∃ w1,
    ServiceRegistry.call (Event_wait []) "light" "turn_on" (Some 1%positive) false w
    = (Return None, w1) ∧
    data_dicts w1
    = <[1%positive := <[ATTR_SERVICE_CALL_ID := VStr "7-1"]>
               (<[ATTR_SERVICE := VStr "turn_on"]>
                  (<[ATTR_DOMAIN := VStr "light"]> d))]> (data_dicts w) ∧
    fired w1 = fired w ++ [mkEvent EVENT_CALL_SERVICE 1%positive local].
Proof.
  intros w d.
  assert (data_dicts w !! 1%positive = Some d) as Hl by (vm_compute; reflexivity).
  assert (d ≠ ∅) as Hd by apply insert_non_empty.
  split; [exact Hl|]. split; [exact Hd|].
  destruct (call_writes_into_service_data (Event_wait []) w "light" "turn_on"
              1%positive d false Hl Hd) as (w1 & _ & Hdd & Hfi & E).
  exists w1. split; [by apply E|]. split; [exact Hdd|exact Hfi].
Defined.

(** ** What no step undoes *)

Lemma evolves_preorder : PreOrder evolves.
Proof.
  split.
  - intros w. split; [done|]. intros. lia.
  - intros w1 w2 w3 [H1 H1'] [H2 H2']. split; [by etrans|].
    intros t l Hl. specialize (H1' t l Hl). specialize (H2' t l Hl). lia.
Qed.

#[local] Existing Instance evolves_preorder.

Lemma evolves_same w w' :
  run_attr w' = run_attr w → _listeners w' = _listeners w → evolves w w'.
Proof.
  intros Hr Hl. split; [by rewrite Hr|]. intros t l _.
  unfold EventBus.get. rewrite Hl. lia.
Qed.

Section Preserves.
Context (R : World → World → Prop) `{!PreOrder R}.

Lemma preserves_ret {A} (a : A) : preserves R (mret a).
Proof. intros w. reflexivity. Qed.

Lemma preserves_raise {A} e : preserves R (raise e : M A).
Proof. intros w. reflexivity. Qed.

Lemma preserves_gets {A} (f : World → A) : preserves R (gets f).
Proof. intros w. reflexivity. Qed.

Lemma preserves_deref {A} (o : option A) : preserves R (deref o).
Proof. intros w. destruct o; reflexivity. Qed.

Lemma preserves_bind {A B} (m : M A) (f : A → M B) :
  preserves R m → (∀ a, preserves R (f a)) → preserves R (m ≫= f).
Proof.
  intros Hm Hf w. specialize (Hm w). unfold exec, mbind, M_bind in *.
  destruct (m w) as [[a|e] w1]; simpl in *; [|done].
  etrans; [exact Hm|]. apply Hf.
Qed.

Lemma preserves_modify (f : World → World) :
  (∀ w, R w (f w)) → preserves R (modify f).
Proof. intros Hf w. apply Hf. Qed.

Lemma preserves_for_each {A} (f : A → M unit) (l : list A) :
  (∀ a, preserves R (f a)) → preserves R (for_each f l).
Proof.
  intros Hf. induction l as [|x l IH]; simpl.
  - apply preserves_ret.
  - apply preserves_bind; [apply Hf|]. intros _. apply IH.
Qed.

Lemma preserves_collect {A B} (f : A → M B) (l : list A) :
  (∀ a, preserves R (f a)) → preserves R (collect f l).
Proof.
  intros Hf. induction l as [|x l IH]; simpl.
  - apply preserves_ret.
  - apply preserves_bind; [apply Hf|]. intros y.
    apply preserves_bind; [apply IH|]. intros ys. apply preserves_ret.
Qed.

End Preserves.

Ltac frame_step :=
  lazymatch goal with
  | |- preserves _ (mret _) => apply (preserves_ret evolves)
  | |- preserves _ (raise _) => apply (preserves_raise evolves)
  | |- preserves _ (gets _) => apply (preserves_gets evolves)
  | |- preserves _ (deref _) => apply (preserves_deref evolves)
  | |- preserves _ (_ ≫= _) => apply (preserves_bind evolves); [|intros ?]
  | |- preserves _ (for_each _ _) => apply (preserves_for_each evolves); intros ?
  | |- preserves _ (modify _) =>
      apply preserves_modify; intros ?; apply evolves_same; reflexivity
  | |- preserves _ (match ?x with _ => _ end) => destruct x
  end.

Ltac frame := repeat (cbv zeta; frame_step); eauto.

Lemma new_attrs_evolves d : preserves evolves (new_attrs d).
Proof. intros w. by apply evolves_same. Qed.

Lemma read_attrs_evolves l : preserves evolves (read_attrs l).
Proof. intros w. unfold exec, read_attrs. by destruct (_ !! l). Qed.

Lemma new_data_evolves d : preserves evolves (new_data d).
Proof. intros w. by apply evolves_same. Qed.

Lemma read_data_evolves l : preserves evolves (read_data l).
Proof. intros w. unfold exec, read_data. by destruct (_ !! l). Qed.

Lemma new_state_obj_evolves s : preserves evolves (new_state_obj s).
Proof. intros w. by apply evolves_same. Qed.

Lemma read_state_evolves l : preserves evolves (read_state l).
Proof. intros w. unfold exec, read_state. by destruct (_ !! l). Qed.

Lemma now_evolves : preserves evolves now.
Proof. intros w. reflexivity. Qed.

#[local] Hint Resolve new_attrs_evolves read_attrs_evolves new_data_evolves
  read_data_evolves new_state_obj_evolves read_state_evolves now_evolves : core.

Lemma data_setitem_evolves l key value : preserves evolves (data_setitem l key value).
Proof. unfold data_setitem. frame. Qed.

Lemma data_getitem_evolves l key : preserves evolves (data_getitem l key).
Proof. unfold data_getitem. frame. Qed.

Lemma or_new_attrs_evolves a : preserves evolves (or_new_attrs a).
Proof. unfold or_new_attrs. frame. Qed.

Lemma or_new_data_evolves a : preserves evolves (or_new_data a).
Proof. unfold or_new_data. frame. Qed.

#[local] Hint Resolve data_setitem_evolves data_getitem_evolves
  or_new_attrs_evolves or_new_data_evolves : core.

Lemma State_init_evolves eid st attrs changed :
  preserves evolves (State.__init__ eid st attrs changed).
Proof. unfold State.__init__. frame. Qed.

Lemma add_job_evolves p j : preserves evolves (add_job p j).
Proof. unfold add_job. frame. Qed.

#[local] Hint Resolve State_init_evolves add_job_evolves : core.

Lemma fire_evolves t data origin : preserves evolves (EventBus.fire t data origin).
Proof. unfold EventBus.fire, Event.__init__. frame. Qed.

Lemma listen_Callback_evolves t f : preserves evolves (EventBus.listen t (Callback f)).
Proof.
  intros w. unfold exec. rewrite listen_spec. cbn [snd]. split; [done|].
  intros t' l Hl. rewrite get_set_listeners.
  destruct (decide (t' = t)) as [->|Hne].
  - rewrite lookup_insert_eq. simpl. rewrite registrations_app. simpl.
    rewrite decide_False by (intros E; by apply (Hl f)). lia.
  - rewrite lookup_insert_ne by done. done.
Qed.

Lemma registrations_remove_first x l b r :
  remove_first x b = Some r → (registrations l r ≤ registrations l b)%nat.
Proof.
  intros (b1 & b2 & -> & _ & ->)%remove_first_Some.
  rewrite !registrations_app. simpl. lia.
Qed.

Lemma remove_listener_evolves t l : preserves evolves (EventBus.remove_listener t l).
Proof.
  intros w. unfold exec, EventBus.remove_listener, modify. cbn [snd].
  split; [done|].
  intros t' l' _. rewrite get_set_listeners. unfold EventBus.get.
  destruct (_listeners w !! t) as [b|] eqn:Hb; [|done].
  destruct (remove_first l b) as [r|] eqn:Hr; [|done].
  pose proof (registrations_remove_first l l' b r Hr) as Hle.
  destruct (decide (t' = t)) as [->|Hne].
  - rewrite Hb. simpl. destruct r as [|y r].
    + rewrite lookup_delete_eq. simpl. lia.
    + by rewrite lookup_insert_eq.
  - destruct r as [|y r].
    + by rewrite lookup_delete_ne.
    + by rewrite lookup_insert_ne.
Qed.

#[local] Hint Resolve fire_evolves listen_Callback_evolves remove_listener_evolves : core.

Lemma set_evolves eid new attrs : preserves evolves (StateMachine.set eid new attrs).
Proof. unfold StateMachine.set. frame. Qed.

Lemma flag_set_evolves g : preserves evolves (flag_set g).
Proof. unfold flag_set. frame. Qed.

Lemma event_to_service_call_evolves event :
  preserves evolves (ServiceRegistry._event_to_service_call event).
Proof. unfold ServiceRegistry._event_to_service_call. frame. Qed.

Lemma execute_service_evolves f call :
  preserves evolves (ServiceRegistry._execute_service f call).
Proof. unfold ServiceRegistry._execute_service. frame. Qed.

#[local] Hint Resolve set_evolves flag_set_evolves event_to_service_call_evolves
  execute_service_evolves : core.

Lemma call_listener_evolves func event : preserves evolves (call_listener func event).
Proof.
  induction func as [f|fn t target IH|fn call_id g|]; simpl.
  - frame.
  - apply (preserves_bind evolves); [apply (preserves_gets evolves)|].
    intros [|]; [apply (preserves_ret evolves)|].
    apply (preserves_bind evolves).
    { apply preserves_modify. intros w. split; [simpl; set_solver|].
      intros. unfold EventBus.get. simpl. lia. }
    intros _. apply (preserves_bind evolves); [auto|]. intros _. exact IH.
  - frame.
  - auto.
Qed.

Lemma job_handler_evolves job : preserves evolves (job_handler job).
Proof.
  intros w. unfold exec at 1, job_handler. simpl.
  destruct (job_func job).
  - apply call_listener_evolves.
  - apply execute_service_evolves.
Qed.

(** No step of another thread unsets an attribute [run] or adds an entry
    for a closure to the bus. *)
Lemma perform_evolves a w : evolves w (perform a w).
Proof.
  destruct a as [i|t d o|t f|t l|eid new attrs|dt]; simpl.
  - destruct (pending w !! i) as [job|]; [|reflexivity].
    etrans; [|apply job_handler_evolves]. by apply evolves_same.
  - apply (preserves_bind evolves); auto.
  - apply listen_Callback_evolves.
  - apply remove_listener_evolves.
  - apply (preserves_bind evolves); auto.
  - by apply evolves_same.
Qed.

Lemma Event_wait_evolves others flag timeout :
  preserves evolves (Event_wait others flag timeout).
Proof.
  induction others as [|[t a] others IH]; intros w; unfold exec; simpl.
  - destruct (is_set flag w); reflexivity.
  - destruct (is_set flag w); [reflexivity|].
    case_decide; [|reflexivity].
    etrans; [apply perform_evolves|]. apply IH.
Qed.

(** *** The blocking call *)

(** What the wait does: the other threads take the first [n] steps, all
    within the timeout; the flag is set after them and not before, or it
    is not set and no further step takes place within the timeout. *)
Lemma Event_wait_spec others flag w :
  ∃ n,
    (n ≤ length others)%nat ∧
    within_limit (take n others) ∧
    (∀ m, (m < n)%nat → is_set flag (run_steps (take m others) w) = false) ∧
    Event_wait others flag SERVICE_CALL_LIMIT w
    = (Return (is_set flag (run_steps (take n others) w)),
       run_steps (take n others) w) ∧
    (is_set flag (run_steps (take n others) w) = false →
     match others !! n with
     | Some s => SERVICE_CALL_LIMIT * second < s.1
     | None => True
     end).
Proof.
  revert w. induction others as [|[t a] others IH]; intros w; simpl.
  - exists 0%nat. simpl. split_and!; try done; [constructor|lia|].
    by destruct (is_set flag w).
  - destruct (is_set flag w) eqn:Hset.
    + exists 0%nat. simpl. rewrite Hset. split_and!; try done; [lia|constructor|lia].
    + case_decide as Ht.
      * destruct (IH (perform a w)) as (n & Hn & Hlim & Hbefore & E & Hafter).
        exists (S n). simpl. split_and!; try done.
        -- lia.
        -- by constructor.
        -- intros [|m] Hm; simpl; [done|]. apply Hbefore. lia.
      * exists 0%nat. simpl. rewrite Hset. split_and!; try done; [lia|constructor|lia|].
        intros _. lia.
Qed.

Lemma run_steps_evolves steps w : evolves w (run_steps steps w).
Proof.
  revert w. induction steps as [|s steps IH]; intros w; simpl; [reflexivity|].
  etrans; [apply perform_evolves|]. apply IH.
Qed.

(** A listener with at most one entry in a bucket has none after
    [remove_listener]. *)
Lemma remove_listener_gone w t l :
  (registrations l (EventBus.get w t) ≤ 1)%nat →
  l ∉ EventBus.get (exec (EventBus.remove_listener t l) w) t.
Proof.
  intros Hle. destruct (decide (l ∈ EventBus.get w t)) as [Hin|Hn].
  - unfold EventBus.get in Hin, Hle.
    destruct (_listeners w !! t) as [b|] eqn:Hb; [|by apply elem_of_nil in Hin].
    simpl in *.
    destruct (remove_first l b) as [r|] eqn:Hr.
    2:{ apply remove_first_None in Hr. done. }
    apply remove_first_Some in Hr as (b1 & b2 & -> & Hn1 & ->).
    unfold exec. rewrite (remove_listener_present w t l b1 b2 Hb Hn1). cbn [snd].
    rewrite get_set_listeners.
    rewrite registrations_app in Hle. simpl in Hle. rewrite decide_True in Hle by done.
    assert (registrations l b2 = 0%nat) as Hb2%registrations_0 by lia.
    case_decide as He.
    + rewrite lookup_delete_eq. apply not_elem_of_nil.
    + rewrite lookup_insert_eq. simpl. by apply not_elem_of_app.
  - unfold exec. by rewrite remove_listener_absent.
Qed.

(** What the closure [service_executed] of a call does with an event: it
    sets the flag when the data of the event hold the id of the call, and
    only then. *)
Lemma service_executed_signals w fn id g event d :
  data_dicts w !! data event = Some d →
  let w' := exec (call_listener (service_executed fn id g) event) w in
  if decide (d !! ATTR_SERVICE_CALL_ID = Some (VStr id))
  then is_set g w' = true
  else flags w' = flags w.
Proof.
  intros Hd. unfold exec. simpl. unfold data_getitem, read_data. run.
  rewrite Hd. simpl.
  case_decide as Hid.
  - rewrite Hid. simpl. rewrite decide_True by done. simpl.
    unfold is_set. simpl. by rewrite lookup_insert_eq.
  - destruct (d !! ATTR_SERVICE_CALL_ID) as [v|]; [|done]. simpl.
    rewrite decide_False by congruence. done.
Qed.

Lemma closures_allocated_fresh w t :
  closures_allocated w → registrations (next_closure w) (EventBus.get w t) = 0%nat.
Proof.
  intros Hc. apply registrations_0. intros Hin.
  apply Hc in Hin. lia.
Qed.

(** C5.  [others] are the steps of the other threads while a blocking
    call waits, each with its time in microseconds since the wait began.
    - With [blocking=False] the call returns no value, in the world in
      which it has just fired [call_service].
    - With [blocking=True] the call has a new flag (the completion gate)
      and a new listener for [service_executed] when it fires
      [call_service].  The other threads then take [n] steps, all within
      [SERVICE_CALL_LIMIT] seconds, and the flag is set by none but the
      last of them.  When the flag is then set, the call returns [True].
      When it is not, no further step takes place within the limit; the
      call returns [False], and the listener is in no bucket of the bus.
    - The listener sets the flag when it is run on an event whose data
      hold the [service_call_id] that the call allocated, and leaves the
      flags alone on any other event. *)
Theorem call_blocking others w domain service service_data :
  let flag := next_flag w in
  let closure := next_closure w in
  let call := ServiceRegistry.call (Event_wait others) domain service service_data in
  data_arg w service_data → closures_allocated w →
  (∃ event_data w1,
     call false w = (Return None, w1) ∧
     fired w1 = fired w ++ [mkEvent EVENT_CALL_SERVICE event_data local] ∧
     _listeners w1 = _listeners w) ∧
  (∃ event_data w1 n,
     fired w1 = fired w ++ [mkEvent EVENT_CALL_SERVICE event_data local] ∧
     is_set flag w1 = false ∧
     closure ∈ EventBus.get w1 EVENT_SERVICE_EXECUTED ∧
     (n ≤ length others)%nat ∧
     within_limit (take n others) ∧
     (∀ m, (m < n)%nat → is_set flag (run_steps (take m others) w1) = false) ∧
     let w2 := run_steps (take n others) w1 in
     if is_set flag w2
     then call true w = (Return (Some true), w2)
     else
       call true w
       = (Return (Some false),
          exec (EventBus.remove_listener EVENT_SERVICE_EXECUTED closure) w2) ∧
       match others !! n with
       | Some s => SERVICE_CALL_LIMIT * second < s.1
       | None => True
       end ∧
       ∀ t, closure ∉ EventBus.get (exec (call true) w) t) ∧
  (∀ w' event d,
     data_dicts w' !! data event = Some d →
     if decide (d !! ATTR_SERVICE_CALL_ID = Some (VStr (next_call_id w)))
     then is_set flag (exec (call_listener closure event) w') = true
     else flags (exec (call_listener closure event) w') = flags w').
Proof.
  intros flag closure call Ha Hc. split_and!.
  - destruct (call_spec (Event_wait others) w domain service service_data false Ha)
      as (ed & w1 & E & _ & _ & _ & Hfi & _ & _ & Hl & _).
    exists ed, w1. by rewrite <- Hl.
  - destruct (call_spec (Event_wait others) w domain service service_data true Ha)
      as (ed & w1 & E & _ & _ & _ & Hfi & _ & _ & Hl & Hfl & _).
    destruct (Event_wait_spec others flag w1) as (n & Hn & Hlim & Hbefore & Ew & Hafter).
    exists ed, w1, n.
    assert (∀ t, (registrations closure (EventBus.get w1 t)
                  ≤ if decide (t = EVENT_SERVICE_EXECUTED) then 1 else 0)%nat) as Hreg.
    { intros t. unfold EventBus.get at 1. rewrite Hl.
      pose proof (closures_allocated_fresh w t Hc) as H0. fold closure in H0.
      case_decide as Ht.
      - subst t. rewrite lookup_insert_eq. simpl. rewrite registrations_app, H0.
        simpl. rewrite decide_True by done. lia.
      - rewrite lookup_insert_ne by done. fold (EventBus.get w t). lia. }
    split_and!; try done.
    + unfold is_set. rewrite Hfl. by rewrite lookup_insert_eq.
    + unfold EventBus.get. rewrite Hl, lookup_insert_eq. simpl.
      apply elem_of_app. right. apply list_elem_of_here.
    + cbv zeta. unfold call.
      assert (ServiceRegistry.call (Event_wait others) domain service service_data true w
              = if is_set flag (run_steps (take n others) w1)
                then (Return (Some true), run_steps (take n others) w1)
                else (Return (Some false),
                      exec (EventBus.remove_listener EVENT_SERVICE_EXECUTED closure)
                        (run_steps (take n others) w1))) as Ecall.
      { rewrite E. unfold call_finish. rewrite (bind_Return _ _ _ _ _ Ew).
        by destruct (is_set flag _). }
      destruct (is_set flag (run_steps (take n others) w1)) eqn:Hset; [done|].
      split_and!; [done|by apply Hafter|].
      intros t. unfold exec at 1. rewrite Ecall. cbn [snd].
      set (w2 := run_steps (take n others) w1).
      assert (∀ f, closure ≠ Callback f) as Hncb by done.
      pose proof (proj2 (run_steps_evolves (take n others) w1) t closure Hncb) as H2.
      fold w2 in H2. specialize (Hreg t).
      destruct (decide (t = EVENT_SERVICE_EXECUTED)) as [->|Ht].
      * apply remove_listener_gone. lia.
      * apply registrations_0.
        pose proof (proj2 (remove_listener_evolves EVENT_SERVICE_EXECUTED closure w2)
                      t closure Hncb) as H3.
        lia.
  - intros w' event d Hd. apply service_executed_signals. done.
Qed.

Lemma closures_allocated_initial : closures_allocated ping_registered.
Proof.
  intros t fn id g Hin. exfalso. unfold EventBus.get in Hin.
  assert (_listeners ping_registered
          = {[ EVENT_CALL_SERVICE := [_event_to_service_call] ]}) as E
    by (vm_compute; reflexivity).
  rewrite E in Hin.
  destruct (decide (t = EVENT_CALL_SERVICE)) as [->|Hne].
  - rewrite lookup_singleton_eq in Hin. simpl in Hin.
    apply list_elem_of_singleton in Hin. discriminate.
  - rewrite lookup_singleton_ne in Hin by done. simpl in Hin.
    by apply elem_of_nil in Hin.
Qed.

Lemma call_blocking_witness :
  let w := ping_registered in
  let call := ServiceRegistry.call (Event_wait ping_steps) "test" "ping" None in
  data_arg w None ∧ closures_allocated w ∧
  (∃ event_data w1,
     call false w = (Return None, w1) ∧
     fired w1 = fired w ++ [mkEvent EVENT_CALL_SERVICE event_data local] ∧
     _listeners w1 = _listeners w) ∧
  result (call true) w = Return (Some true).
Proof.
  split; [exact I|]. split; [exact closures_allocated_initial|].
  split; [|vm_compute; reflexivity].
  exact (proj1 (call_blocking ping_steps ping_registered "test" "ping" None
                  I closures_allocated_initial)).
Defined.

(** The scenarios of the specification: the call returns [True] when the
    service is executed within the limit, and [False], with its listener
    gone, when the service takes 12 s. *)
Example call_ping_returns_true :
  result (ServiceRegistry.call (Event_wait ping_steps) "test" "ping" None true)
    ping_registered = Return (Some true).
Proof. vm_compute. reflexivity. Qed.

Example call_slow_returns_false :
  let w' := exec (ServiceRegistry.call (Event_wait slow_steps) "test" "slow" None true)
              (exec (ServiceRegistry.register "test" "slow" 6%nat) (initial 0 7)) in
  result (ServiceRegistry.call (Event_wait slow_steps) "test" "slow" None true)
    (exec (ServiceRegistry.register "test" "slow" 6%nat) (initial 0 7))
  = Return (Some false) ∧
  EventBus.get w' EVENT_SERVICE_EXECUTED = [].
Proof. split; vm_compute; reflexivity. Qed.

(** ** listen_once *)

(** What [listen_once] does: it subscribes a new closure, which has the
    attribute [run] from the start when the target has it. *)
Lemma listen_once_spec w t target :
  EventBus.listen_once t target w
  = (Return tt,
     set_listeners
       <[t := EventBus.get w t ++ [onetime_listener (next_fn w) t target]]>
       ((if has_run target w
         then set_run_attr (λ r, {[next_fn w]} ∪ r) else id)
          (set_next_fn S w))).
Proof.
  unfold EventBus.listen_once, new_fn, mbind, M_bind, gets, modify,
    mret, M_ret.
  cbn beta iota.
  replace (has_run target (set_next_fn S w)) with (has_run target w)
    by (by destruct target).
  destruct (has_run target w); cbn beta iota; rewrite listen_spec; done.
Qed.

Lemma job_handler_Listen p func event w :
  job_handler (mkJob p (Listen func event)) w
  = (Return tt, exec (call_listener func event) w).
Proof. done. Qed.

(** Invocations of the guard that do not overlap.
    [listen_once(event_type, listener)] subscribes a new closure, the
    guard, under [event_type]; its attribute [run] is not set, unless
    [listener] has that attribute itself.
    - Run while [run] is not set, the guard sets [run], removes itself from
      the bus, and then invokes [listener], once.
    - Run while [run] is set, it does nothing.
    - [run] is set after it was run, and no step of [perform] unsets it.
    So of the jobs that run this guard, when each is run to its end before
    the next one starts, at most the first one invokes [listener] and the
    others do nothing.  Two workers inside the guard at the same time are
    the subject of the last section on [listen_once]. *)
Theorem listen_once_at_most_once w t target :
  let guard := onetime_listener (next_fn w) t target in
  let fn := next_fn w in
  (∀ n, n ∈ run_attr w → (n < next_fn w)%nat) →
  (∃ w1,
     EventBus.listen_once t target w = (Return tt, w1) ∧
     EventBus.get w1 t = EventBus.get w t ++ [guard] ∧
     (fn ∈ run_attr w1 ↔ has_run target w = true)) ∧
  (∀ w' event, fn ∉ run_attr w' →
     call_listener guard event w'
     = call_listener target event
         (exec (EventBus.remove_listener t guard)
            (set_run_attr (λ r, {[fn]} ∪ r) w'))) ∧
  (∀ w' event, fn ∈ run_attr w' → call_listener guard event w' = (Return tt, w')) ∧
  (∀ w' event, fn ∈ run_attr (exec (call_listener guard event) w')) ∧
  (∀ w' a, fn ∈ run_attr w' → fn ∈ run_attr (perform a w')) ∧
  (∀ w' p event events,
     exec (run_jobs (mkJob p (Listen guard event)
                     :: map (λ e, mkJob p (Listen guard e)) events)) w'
     = exec (call_listener guard event) w').
Proof.
  intros guard fn Halloc.
  assert (∀ w' event, fn ∉ run_attr w' →
     call_listener guard event w'
     = call_listener target event
         (exec (EventBus.remove_listener t guard)
            (set_run_attr (λ r, {[fn]} ∪ r) w'))) as Hfirst.
  { intros w' event Hn. simpl. run. by rewrite bool_decide_eq_false_2. }
  assert (∀ w' event, fn ∈ run_attr w' →
            call_listener guard event w' = (Return tt, w')) as Hlater.
  { intros w' event Hin. simpl. run. by rewrite bool_decide_eq_true_2. }
  assert (∀ w' event, fn ∈ run_attr (exec (call_listener guard event) w')) as Hset.
  { intros w' event. destruct (decide (fn ∈ run_attr w')) as [Hin|Hn].
    - unfold exec. by rewrite Hlater.
    - unfold exec. rewrite Hfirst by done.
      apply (proj1 (call_listener_evolves target event _)).
      apply (proj1 (remove_listener_evolves t guard _)). simpl. set_solver. }
  split_and!; try done.
  - eexists. split; [apply listen_once_spec|]. split.
    + unfold EventBus.get. simpl. by rewrite lookup_insert_eq.
    + destruct (has_run target w); simpl.
      * split; [done|]. intros _. set_solver.
      * split; [|done]. intros Hin%Halloc. lia.
  - intros w' a Hin. by apply (proj1 (perform_evolves a w')).
  - intros w' p event events.
    assert (∀ w2, fn ∈ run_attr w2 →
              (for_each job_handler (map (λ e, mkJob p (Listen guard e)) events) w2).2
              = w2) as Hnoop.
    { induction events as [|e events IH]; intros w2 Hin; [done|].
      cbn [map for_each].
      rewrite (bind_Return _ _ _ _ _ (job_handler_Listen _ _ _ _)).
      unfold exec. rewrite Hlater by done. by apply IH. }
    unfold run_jobs, exec at 1. cbn [for_each].
    rewrite (bind_Return _ _ _ _ _ (job_handler_Listen _ _ _ _)).
    apply Hnoop, Hset.
Qed.

Lemma listen_once_at_most_once_witness :
  let w := initial 0 0 in
  let guard := onetime_listener 0 "x" (Callback 1) in
  (∀ n, n ∈ run_attr w → (n < next_fn w)%nat) ∧
  (∃ w1,
     EventBus.listen_once "x" (Callback 1) w = (Return tt, w1) ∧
     EventBus.get w1 "x" = EventBus.get w "x" ++ [guard] ∧
     (0%nat ∈ run_attr w1 ↔ has_run (Callback 1) w = true)) ∧
  ∀ w' p event events,
     exec (run_jobs (mkJob p (Listen guard event)
                     :: map (λ e, mkJob p (Listen guard e)) events)) w'
     = exec (call_listener guard event) w'.
Proof.
  assert (∀ n, n ∈ run_attr (initial 0 0) → (n < next_fn (initial 0 0))%nat) as Halloc.
  { intros n Hn. vm_compute in Hn. set_solver. }
  destruct (listen_once_at_most_once (initial 0 0) "x" (Callback 1) Halloc)
    as (H1 & _ & _ & _ & _ & H2).
  split; [exact Halloc|]. split; [exact H1|exact H2].
Defined.

(** The scenario of the specification, with both events fired before a
    worker runs: [listen_once("x", f)], [fire("x")], [fire("x")]; two jobs
    are pending; after one worker has run both, one after the other, [f]
    has been invoked exactly once. *)
Example listen_once_two_fires :
  let w := exec (_ ← EventBus.listen_once "x" (Callback 1);
                 _ ← EventBus.fire "x" None local;
                 EventBus.fire "x" None local) (initial 0 0) in
  length (pending w) = 2%nat ∧
  ∃ event, calls (perform (Work 0) (perform (Work 0) w)) = [Called 1 event].
Proof. split; [vm_compute; reflexivity|]. eexists. vm_compute. reflexivity. Qed.

(** ** Two workers inside the closure of listen_once *)

(** A worker that takes its two steps with no other thread in between does
    what [job_handler] does with the job: the test and the body of
    [onetime_listener] together are the closure as [call_listener] runs
    it. *)
Lemma worker_step_alone job w :
  (k ← worker_step (mkWorker job Started); worker_step k) w
  = (Return (mkWorker job Finished), exec (job_handler job) w).
Proof.
  destruct job as [p [func arg|service_func call]]; [|done].
  destruct func as [f|fn t target|fn call_id g|]; try done.
  unfold mbind, M_bind, worker_step. cbn [worker_at worker_job job_func].
  unfold job_handler, exec. cbn [job_func snd call_listener].
  unfold mbind, M_bind, gets. cbn beta iota.
  destruct (has_run (onetime_listener fn t target) w) eqn:E; cbn beta iota.
  - done.
  - unfold onetime_body, mbind, M_bind. done.
Qed.

Lemma onetime_body_exec fn t target event w :
  exec (onetime_body (onetime_listener fn t target) event) w
  = exec (call_listener target event)
      (exec (EventBus.remove_listener t (onetime_listener fn t target))
         (set_run_attr (λ r, {[fn]} ∪ r) w)).
Proof. done. Qed.

Lemma worker_step_test p fn t target event w :
  let guard := onetime_listener fn t target in
  worker_step (mkWorker (mkJob p (Listen guard event)) Started) w
  = (Return (mkWorker (mkJob p (Listen guard event))
               (if has_run guard w then Finished else Tested)), w).
Proof. done. Qed.

Lemma worker_step_body p func event w :
  worker_step (mkWorker (mkJob p (Listen func event)) Tested) w
  = (Return (mkWorker (mkJob p (Listen func event)) Finished),
     exec (onetime_body func event) w).
Proof. done. Qed.

Lemma worker_step_Finished job w :
  worker_step (mkWorker job Finished) w = (Return (mkWorker job Finished), w).
Proof. by destruct job as [p [func arg|service_func call]]. Qed.

Lemma interleave_cons i rest workers k w k' w' :
  workers !! i = Some k → worker_step k w = (Return k', w') →
  interleave (i :: rest) workers w = interleave rest (<[i := k']> workers) w'.
Proof.
  intros Hk Hstep. cbn [interleave]. rewrite Hk.
  by rewrite (bind_Return _ _ _ _ _ Hstep).
Qed.

(** Two workers hold a job each for the same guard, whose attribute [run]
    is not set.  When both evaluate the test before either enters the body,
    both run the body. *)
Lemma interleave_tests_first w p fn t target e1 e2 :
  let guard := onetime_listener fn t target in
  fn ∉ run_attr w →
  exec (interleave [0; 1; 0; 1]%nat
          [mkWorker (mkJob p (Listen guard e1)) Started;
           mkWorker (mkJob p (Listen guard e2)) Started]) w
  = exec (onetime_body guard e2) (exec (onetime_body guard e1) w).
Proof.
  intros guard Hn.
  assert (has_run guard w = false) as Hrun by (by apply bool_decide_eq_false_2).
  unfold exec at 1.
  erewrite interleave_cons; [|reflexivity|apply worker_step_test].
  fold guard. rewrite Hrun. cbn [insert list_insert].
  erewrite interleave_cons; [|reflexivity|apply worker_step_test].
  fold guard. rewrite Hrun. cbn [insert list_insert].
  erewrite interleave_cons; [|reflexivity|apply worker_step_body].
  cbn [insert list_insert].
  erewrite interleave_cons; [|reflexivity|apply worker_step_body].
  reflexivity.
Qed.

(** When the first worker ends before the second starts, the second finds
    the attribute [run] and does nothing. *)
Lemma interleave_one_by_one w p fn t target e1 e2 :
  let guard := onetime_listener fn t target in
  fn ∉ run_attr w →
  exec (interleave [0; 0; 1; 1]%nat
          [mkWorker (mkJob p (Listen guard e1)) Started;
           mkWorker (mkJob p (Listen guard e2)) Started]) w
  = exec (onetime_body guard e1) w.
Proof.
  intros guard Hn.
  assert (has_run guard w = false) as Hrun by (by apply bool_decide_eq_false_2).
  assert (has_run guard (exec (onetime_body guard e1) w) = true) as Hset.
  { apply bool_decide_eq_true_2. unfold guard. rewrite onetime_body_exec.
    apply (proj1 (call_listener_evolves target e1 _)).
    apply (proj1 (remove_listener_evolves t (onetime_listener fn t target) _)).
    simpl. apply elem_of_union_l. by apply elem_of_singleton. }
  unfold exec at 1.
  erewrite interleave_cons; [|reflexivity|apply worker_step_test].
  fold guard. rewrite Hrun. cbn [insert list_insert].
  erewrite interleave_cons; [|reflexivity|apply worker_step_body].
  cbn [insert list_insert].
  erewrite interleave_cons; [|reflexivity|apply worker_step_test].
  fold guard. rewrite Hset. cbn [insert list_insert].
  erewrite interleave_cons; [|reflexivity|apply worker_step_Finished].
  reflexivity.
Qed.

Lemma onetime_body_calls fn t f event w :
  calls (exec (onetime_body (onetime_listener fn t (Callback f)) event) w)
  = calls w ++ [Called f event].
Proof. done. Qed.

Lemma call_listener_guard_first fn t target event w :
  fn ∉ run_attr w →
  exec (call_listener (onetime_listener fn t target) event) w
  = exec (onetime_body (onetime_listener fn t target) event) w.
Proof.
  intros Hn. unfold exec. cbn [call_listener].
  rewrite (bind_Return _ _ w false w); [done|].
  unfold gets, has_run. by rewrite bool_decide_eq_false_2.
Qed.

Lemma call_listener_guard_later fn t target event w :
  fn ∈ run_attr w →
  call_listener (onetime_listener fn t target) event w = (Return tt, w).
Proof.
  intros Hin. cbn [call_listener].
  rewrite (bind_Return _ _ w true w); [done|].
  unfold gets, has_run. by rewrite bool_decide_eq_true_2.
Qed.

Lemma onetime_body_sets_run fn t target event w :
  fn ∈ run_attr (exec (onetime_body (onetime_listener fn t target) event) w).
Proof.
  rewrite onetime_body_exec.
  apply (proj1 (call_listener_evolves target event _)).
  apply (proj1 (remove_listener_evolves t (onetime_listener fn t target) _)).
  simpl. apply elem_of_union_l. by apply elem_of_singleton.
Qed.

(** C6.  The closure of [listen_once] can invoke its target twice.  Two
    jobs for the same guard are pending, as after [listen_once] and two
    calls of [fire], and the pool has [MIN_WORKER_THREAD = 2] workers, which
    take one job each.  The guard holds no lock between the test
    [not hasattr(onetime_listener, 'run')] and the assignment
    [onetime_listener.run = True]:
    - when both workers evaluate the test before either enters the body,
      both find no attribute [run], and the target is invoked twice, once
      with each event;
    - when one worker ends before the other starts, and when the jobs are
      run one after the other, the target is invoked once.
    The two steps of a worker, taken together, are the job as
    [job_handler] runs it. *)
Theorem listen_once_race w p fn t f e1 e2 :
  let guard := onetime_listener fn t (Callback f) in
  let workers := [mkWorker (mkJob p (Listen guard e1)) Started;
                  mkWorker (mkJob p (Listen guard e2)) Started] in
  fn ∉ run_attr w →
  length workers = MIN_WORKER_THREAD ∧
  calls (exec (interleave [0; 1; 0; 1]%nat workers) w)
  = calls w ++ [Called f e1; Called f e2] ∧
  calls (exec (interleave [0; 0; 1; 1]%nat workers) w) = calls w ++ [Called f e1] ∧
  calls (exec (run_jobs (worker_job <$> workers)) w) = calls w ++ [Called f e1] ∧
  (∀ job w',
     (k ← worker_step (mkWorker job Started); worker_step k) w'
     = (Return (mkWorker job Finished), exec (job_handler job) w')).
Proof.
  intros guard workers Hn. split; [done|]. split_and!.
  - unfold workers, guard. rewrite interleave_tests_first by done.
    rewrite !onetime_body_calls. by rewrite <- app_assoc.
  - unfold workers, guard. rewrite interleave_one_by_one by done.
    by rewrite onetime_body_calls.
  - unfold workers, run_jobs, exec at 1. cbn [fmap list_fmap worker_job for_each].
    rewrite (bind_Return _ _ _ _ _ (job_handler_Listen _ _ _ _)).
    rewrite (bind_Return _ _ _ _ _ (job_handler_Listen _ _ _ _)).
    unfold guard. rewrite (call_listener_guard_first _ _ _ _ w) by done.
    unfold exec at 1. rewrite call_listener_guard_later
      by apply onetime_body_sets_run.
    cbn [snd mret M_ret]. by rewrite onetime_body_calls.
  - intros. apply worker_step_alone.
Qed.

Lemma listen_once_race_witness :
  let w := exec (_ ← EventBus.listen_once "x" (Callback 1);
                 _ ← EventBus.fire "x" None local;
                 EventBus.fire "x" None local) (initial 0 0) in
  let w0 := set_pending (λ _, []) w in
  ∃ e1 e2,
    (0%nat ∉ run_attr w0) ∧
    take_jobs (pending w)
    = [mkWorker (mkJob EVENT_DEFAULT (Listen (onetime_listener 0 "x" (Callback 1)) e1))
         Started;
       mkWorker (mkJob EVENT_DEFAULT (Listen (onetime_listener 0 "x" (Callback 1)) e2))
         Started] ∧
    calls (exec (interleave [0; 1; 0; 1]%nat (take_jobs (pending w))) w0)
    = [Called 1 e1; Called 1 e2].
Proof.
  intros w w0.
  assert (0%nat ∉ run_attr w0) as Hn by apply not_elem_of_empty.
  eexists _, _. split; [exact Hn|].
  assert (take_jobs (pending w)
          = [mkWorker (mkJob EVENT_DEFAULT
                         (Listen (onetime_listener 0 "x" (Callback 1))
                            (mkEvent "x" 1%positive local))) Started;
             mkWorker (mkJob EVENT_DEFAULT
                         (Listen (onetime_listener 0 "x" (Callback 1))
                            (mkEvent "x" 2%positive local))) Started]) as Ep
    by (vm_compute; reflexivity).
  split; [exact Ep|]. rewrite Ep.
  exact (proj1 (proj2 (listen_once_race w0 EVENT_DEFAULT 0%nat "x" 1%nat
                         (mkEvent "x" 1%positive local) (mkEvent "x" 2%positive local) Hn))).
Defined.

Lemma remove_listener_spec_witness :
  let w := exec (EventBus.listen "x" (Callback 7)) (initial 0 0) in
  _listeners w !! "x" = Some ([] ++ (Callback 7 :: [])) ∧
  (Callback 7 ∉ ([] : list listener)) ∧
  EventBus.remove_listener "x" (Callback 7) w
  = (Return tt,
     set_listeners (λ ls, if decide (([] : list listener) ++ [] = []) then delete "x" ls
                          else <[ "x" := [] ++ []]> ls) w) ∧
  (Callback 8 ∉ EventBus.get w "x") ∧
  EventBus.remove_listener "x" (Callback 8) w = (Return tt, w) ∧
  (Callback 8 ∉ EventBus.get w MATCH_ALL ++ EventBus.get w "x") ∧
  no_job_after_listen_remove w "x" (Callback 8).
Proof.
  intros w.
  destruct (remove_listener_spec w "x" (Callback 7)) as (H1 & _).
  destruct (remove_listener_spec w "x" (Callback 8)) as (_ & H2 & _ & H3).
  assert (_listeners w !! "x" = Some ([] ++ (Callback 7 :: []))) as Hb
    by (vm_compute; reflexivity).
  assert (Callback 7 ∉ ([] : list listener)) as Hn by apply not_elem_of_nil.
  assert (Callback 8 ∉ EventBus.get w "x") as Hx.
  { vm_compute. intros H. apply list_elem_of_singleton in H. discriminate. }
  assert (Callback 8 ∉ EventBus.get w MATCH_ALL ++ EventBus.get w "x") as Hs.
  { vm_compute. intros H. apply list_elem_of_singleton in H. discriminate. }
  split; [exact Hb|]. split; [exact Hn|]. split; [exact (H1 [] [] Hb Hn)|].
  split; [exact Hx|]. split; [exact (H2 Hx)|]. split; [exact Hs|exact (H3 Hs)].
Defined.

(** ** What every step keeps *)

Lemma keeps_preorder I : PreOrder (keeps I).
Proof.
  split; [intros w H; exact H|].
  intros w1 w2 w3 H1 H2 H. by apply H2, H1.
Qed.

#[local] Existing Instance keeps_preorder.

(** Computations are taken apart down to their writes; [write] settles a
    write. *)
Ltac keep_step R write :=
  lazymatch goal with
  | |- preserves _ (mret _) => apply (preserves_ret R)
  | |- preserves _ (raise _) => apply (preserves_raise R)
  | |- preserves _ (gets _) => apply (preserves_gets R)
  | |- preserves _ (deref _) => apply (preserves_deref R)
  | |- preserves _ (_ ≫= _) => apply (preserves_bind R); [|intros ?]
  | |- preserves _ (for_each _ _) => apply (preserves_for_each R); intros ?
  | |- preserves _ (collect _ _) => apply (preserves_collect R); intros ?
  | |- preserves _ (modify _) => apply (preserves_modify R); intros ?; write
  | |- preserves _ (match ?x with _ => _ end) => destruct x
  end.

Ltac keep R write := repeat (cbv zeta; keep_step R write); eauto.

Lemma new_attrs_keeps R `{!PreOrder R} d :
  (∀ w f, R w (set_attr_dicts f w)) → preserves R (new_attrs d).
Proof. intros H w. apply H. Qed.

Lemma new_data_keeps R `{!PreOrder R} d :
  (∀ w f, R w (set_data_dicts f w)) → preserves R (new_data d).
Proof. intros H w. apply H. Qed.

Lemma new_state_obj_keeps R `{!PreOrder R} s :
  (∀ w f, R w (set_state_objs f w)) → preserves R (new_state_obj s).
Proof. intros H w. apply H. Qed.

Lemma read_attrs_keeps R `{!PreOrder R} l : preserves R (read_attrs l).
Proof. intros w. unfold exec, read_attrs. by destruct (_ !! l). Qed.

Lemma read_data_keeps R `{!PreOrder R} l : preserves R (read_data l).
Proof. intros w. unfold exec, read_data. by destruct (_ !! l). Qed.

Lemma read_state_keeps R `{!PreOrder R} l : preserves R (read_state l).
Proof. intros w. unfold exec, read_state. by destruct (_ !! l). Qed.

(** ** The buckets of the bus *)

Lemma buckets_same w w' :
  _listeners w' = _listeners w → keeps buckets_nonempty w w'.
Proof. intros E H t b. rewrite E. apply H. Qed.

Lemma listen_buckets t l : preserves (keeps buckets_nonempty) (EventBus.listen t l).
Proof.
  intros w H t' b. unfold exec. rewrite listen_spec. simpl.
  destruct (decide (t' = t)) as [->|Hne].
  - rewrite lookup_insert_eq. intros [= <-]. by destruct (EventBus.get w t).
  - rewrite lookup_insert_ne by done. apply H.
Qed.

Lemma remove_listener_buckets t l :
  preserves (keeps buckets_nonempty) (EventBus.remove_listener t l).
Proof.
  intros w H t' b. unfold exec, EventBus.remove_listener, modify. simpl.
  destruct (_listeners w !! t) as [b0|] eqn:Hb; [|apply H].
  destruct (remove_first l b0) as [[|y r]|] eqn:Hr; [| |apply H].
  - destruct (decide (t' = t)) as [->|Hne].
    + by rewrite lookup_delete_eq.
    + rewrite lookup_delete_ne by done. apply H.
  - destruct (decide (t' = t)) as [->|Hne].
    + rewrite lookup_insert_eq. by intros [= <-].
    + rewrite lookup_insert_ne by done. apply H.
Qed.

Ltac keep_buckets :=
  keep (keeps buckets_nonempty) ltac:(apply buckets_same; reflexivity).

Lemma new_attrs_buckets d : preserves (keeps buckets_nonempty) (new_attrs d).
Proof. intros w. by apply buckets_same. Qed.

Lemma new_data_buckets d : preserves (keeps buckets_nonempty) (new_data d).
Proof. intros w. by apply buckets_same. Qed.

Lemma new_state_obj_buckets s : preserves (keeps buckets_nonempty) (new_state_obj s).
Proof. intros w. by apply buckets_same. Qed.

Lemma now_buckets : preserves (keeps buckets_nonempty) now.
Proof. intros w. by apply buckets_same. Qed.

Lemma new_fn_buckets : preserves (keeps buckets_nonempty) new_fn.
Proof. unfold new_fn. keep_buckets. Qed.

Lemma new_flag_buckets : preserves (keeps buckets_nonempty) new_flag.
Proof. intros w. by apply buckets_same. Qed.

#[local] Hint Resolve new_attrs_buckets new_data_buckets new_state_obj_buckets
  now_buckets new_fn_buckets new_flag_buckets listen_buckets
  remove_listener_buckets : core.

#[local] Hint Extern 1 (preserves (keeps _) (read_attrs _)) =>
  apply read_attrs_keeps; apply _ : core.

#[local] Hint Extern 1 (preserves (keeps _) (read_data _)) =>
  apply read_data_keeps; apply _ : core.

#[local] Hint Extern 1 (preserves (keeps _) (read_state _)) =>
  apply read_state_keeps; apply _ : core.

Lemma fire_buckets t data origin :
  preserves (keeps buckets_nonempty) (EventBus.fire t data origin).
Proof.
  unfold EventBus.fire, Event.__init__, or_new_data, add_job. keep_buckets.
Qed.

Lemma listen_once_buckets t l :
  preserves (keeps buckets_nonempty) (EventBus.listen_once t l).
Proof. unfold EventBus.listen_once. keep_buckets. Qed.

Lemma set_buckets eid new attrs :
  preserves (keeps buckets_nonempty) (StateMachine.set eid new attrs).
Proof.
  pose proof fire_buckets.
  unfold StateMachine.set, State.__init__, or_new_attrs, data_setitem.
  keep_buckets.
Qed.

Lemma event_to_service_call_buckets event :
  preserves (keeps buckets_nonempty) (ServiceRegistry._event_to_service_call event).
Proof.
  unfold ServiceRegistry._event_to_service_call, or_new_data, add_job.
  keep_buckets.
Qed.

Lemma execute_service_buckets f call :
  preserves (keeps buckets_nonempty) (ServiceRegistry._execute_service f call).
Proof.
  pose proof fire_buckets.
  unfold ServiceRegistry._execute_service, data_getitem. keep_buckets.
Qed.

Lemma call_listener_buckets func event :
  preserves (keeps buckets_nonempty) (call_listener func event).
Proof.
  pose proof event_to_service_call_buckets.
  induction func as [f|fn t target IH|fn call_id g|]; simpl;
    unfold data_getitem, flag_set; keep_buckets.
Qed.

Lemma job_handler_buckets job : preserves (keeps buckets_nonempty) (job_handler job).
Proof.
  intros w. unfold exec at 1, job_handler. simpl.
  destruct (job_func job).
  - apply call_listener_buckets.
  - apply execute_service_buckets.
Qed.

Lemma perform_buckets a w : buckets_nonempty w → buckets_nonempty (perform a w).
Proof.
  pose proof fire_buckets as Hfire. pose proof set_buckets as Hset.
  destruct a as [i|t d o|t f|t l|eid new attrs|dt]; simpl.
  - destruct (pending w !! i) as [job|]; [|done].
    intros Hw. by apply job_handler_buckets.
  - apply (preserves_bind (keeps buckets_nonempty)); auto.
  - apply listen_buckets.
  - apply remove_listener_buckets.
  - apply (preserves_bind (keeps buckets_nonempty)); auto.
  - done.
Qed.

Lemma run_steps_buckets steps w :
  buckets_nonempty w → buckets_nonempty (run_steps steps w).
Proof.
  revert w. induction steps as [|s steps IH]; intros w H; [done|].
  simpl. apply IH. by apply perform_buckets.
Qed.

Lemma initial_buckets t i : buckets_nonempty (initial t i).
Proof.
  intros t' b. unfold initial. simpl. intros [<- <-]%lookup_singleton_Some. done.
Qed.

(** X1.  The bus never keeps an empty bucket.  On a bus where every bucket
    holds a listener, this is still so after [listen], [listen_once],
    [remove_listener] and [fire], whatever their arguments, and after any
    steps of the other threads; the view [listeners] then gives every event
    type it lists a count of at least one. *)
Theorem bus_keeps_no_empty_bucket w :
  buckets_nonempty w →
  (∀ t l, buckets_nonempty (exec (EventBus.listen t l) w) ∧
          buckets_nonempty (exec (EventBus.listen_once t l) w) ∧
          buckets_nonempty (exec (EventBus.remove_listener t l) w)) ∧
  (∀ t data origin, buckets_nonempty (exec (EventBus.fire t data origin) w)) ∧
  (∀ steps, buckets_nonempty (run_steps steps w)) ∧
  (∀ counts t n,
     result EventBus.listeners w = Return counts →
     counts !! t = Some n → (0 < n)%nat).
Proof.
  intros H. split_and!.
  - intros t l. split_and!.
    + by apply listen_buckets.
    + by apply listen_once_buckets.
    + by apply remove_listener_buckets.
  - intros t data origin. by apply fire_buckets.
  - intros steps. by apply run_steps_buckets.
  - intros counts t n [= <-]. rewrite lookup_fmap.
    destruct (_listeners w !! t) as [b|] eqn:Hb; [|done].
    simpl. intros [= <-]. specialize (H t b Hb). destruct b; [done|simpl; lia].
Qed.

Lemma bus_keeps_no_empty_bucket_witness :
  let w := initial 0 0 in
  buckets_nonempty w ∧
  (∀ steps, buckets_nonempty (run_steps steps w)) ∧
  (∀ counts t n,
     result EventBus.listeners w = Return counts →
     counts !! t = Some n → (0 < n)%nat).
Proof.
  split; [apply initial_buckets|].
  destruct (bus_keeps_no_empty_bucket (initial 0 0) (initial_buckets 0 0))
    as (_ & _ & H1 & H2).
  split; [exact H1|exact H2].
Defined.

(** ** What the bus and the workers leave alone *)

Lemma same_registry_preorder : PreOrder same_registry.
Proof.
  split; [by intros w|].
  intros w1 w2 w3 (H1 & H2 & H3 & H4) (H1' & H2' & H3' & H4').
  unfold same_registry. by rewrite H1', H2', H3', H4'.
Qed.

#[local] Existing Instance same_registry_preorder.

Ltac keep_registry := keep same_registry ltac:(done).

Lemma new_data_same_registry d : preserves same_registry (new_data d).
Proof. by intros w. Qed.

Lemma new_fn_same_registry : preserves same_registry new_fn.
Proof. unfold new_fn. keep_registry. Qed.

Lemma new_flag_same_registry : preserves same_registry new_flag.
Proof. by intros w. Qed.

#[local] Hint Resolve new_data_same_registry new_fn_same_registry
  new_flag_same_registry : core.

#[local] Hint Extern 1 (preserves same_registry (read_data _)) =>
  apply read_data_keeps; apply _ : core.

#[local] Hint Extern 1 (preserves same_registry (read_state _)) =>
  apply read_state_keeps; apply _ : core.

Lemma fire_same_registry t data origin :
  preserves same_registry (EventBus.fire t data origin).
Proof.
  unfold EventBus.fire, Event.__init__, or_new_data, add_job. keep_registry.
Qed.

Lemma listen_same_registry t l : preserves same_registry (EventBus.listen t l).
Proof. unfold EventBus.listen. keep_registry. Qed.

Lemma remove_listener_same_registry t l :
  preserves same_registry (EventBus.remove_listener t l).
Proof. unfold EventBus.remove_listener. keep_registry. Qed.

#[local] Hint Resolve fire_same_registry listen_same_registry
  remove_listener_same_registry : core.

Lemma listen_once_same_registry t l :
  preserves same_registry (EventBus.listen_once t l).
Proof. unfold EventBus.listen_once. keep_registry. Qed.

Lemma event_to_service_call_same_registry event :
  preserves same_registry (ServiceRegistry._event_to_service_call event).
Proof.
  unfold ServiceRegistry._event_to_service_call, or_new_data, add_job.
  keep_registry.
Qed.

Lemma execute_service_same_registry f call :
  preserves same_registry (ServiceRegistry._execute_service f call).
Proof. unfold ServiceRegistry._execute_service, data_getitem. keep_registry. Qed.

#[local] Hint Resolve event_to_service_call_same_registry
  execute_service_same_registry : core.

Lemma call_listener_same_registry func event :
  preserves same_registry (call_listener func event).
Proof.
  induction func as [f|fn t target IH|fn call_id g|]; simpl;
    unfold data_getitem, flag_set; keep_registry.
Qed.

Lemma job_handler_same_registry job : preserves same_registry (job_handler job).
Proof.
  intros w. unfold exec at 1, job_handler. simpl.
  destruct (job_func job).
  - apply call_listener_same_registry.
  - apply execute_service_same_registry.
Qed.

Lemma register_same_registry domain service f :
  preserves same_registry (ServiceRegistry.register domain service f).
Proof. unfold ServiceRegistry.register. keep_registry. Qed.

(** ** The invariant of the state machine *)

Lemma stored_same_registry w w' key :
  same_registry w w' → stored w' key = stored w key.
Proof. intros (H1 & H2 & H3 & _). unfold stored. by rewrite H1, H2, H3. Qed.

Lemma same_registry_sound w w' :
  same_registry w w' → registry_sound w → registry_sound w'.
Proof.
  intros Hs [Hok H]. pose proof Hs as (H1 & H2 & H3 & H4). split.
  - intros key l. rewrite H1, H2, H3. apply Hok.
  - intros key s a. rewrite (stored_same_registry _ _ _ Hs), H4. apply H.
Qed.

Lemma more_attrs_sound w w' :
  more_attrs w w' → registry_sound w → registry_sound w'.
Proof.
  intros Hm [Hok H]. split; [by eapply more_attrs_registry_ok|].
  intros key s a. rewrite (more_attrs_stored w w' key Hm Hok).
  replace (clock w') with (clock w) by (by rewrite (proj2 Hm)). apply H.
Qed.

Lemma strip_microseconds_le t : strip_microseconds t ≤ t.
Proof.
  unfold strip_microseconds, second.
  pose proof (Z.mod_pos_bound t 1000000). lia.
Qed.

Lemma registry_sound_valid w : registry_sound w → registry_valid w.
Proof.
  intros [Hok H] key l Hl. destruct (Hok key l Hl) as (s & a & Hs & Ha).
  assert (stored w key = Some (s, a)) as Hst.
  { unfold stored. rewrite Hl. simpl. rewrite Hs. simpl. by rewrite Ha. }
  destruct (H key s a Hst) as (He & Hlow & Hm & _).
  exists s. rewrite He. split_and!; eauto.
Qed.

Lemma registry_sound_whole w : registry_sound w → registry_whole w.
Proof. intros [_ H] key s a Hst. by destruct (H key s a Hst) as (_ & _ & _ & ? & _). Qed.

Lemma set_sound w eid new attrs :
  registry_sound w → attrs_arg w attrs →
  registry_sound (exec (StateMachine.set eid new attrs) w).
Proof.
  intros Hw Ha. pose proof Hw as [Hok H].
  set (key := Str.lower eid). set (st := str new).
  destruct (same_pair w key st (attrs_contents w attrs)) eqn:Hsame.
  - destruct (set_identical w eid new attrs Hok Ha Hsame) as (w1 & E & Hm).
    unfold exec. rewrite E. simpl. by eapply more_attrs_sound.
  - destruct (ENTITY_ID_PATTERN_match key) as [de|] eqn:Hvalid.
    + assert (is_Some (ENTITY_ID_PATTERN_match key)) as Hv by (by rewrite Hvalid).
      destruct (set_changing_stored w eid new attrs Hok Ha Hsame Hv)
        as ([a Hs] & Hother & Hok').
      destruct (set_changing w eid new attrs Hok Ha Hsame Hv)
        as (l & a' & dl & w1 & E & _ & _ & _ & _ & _ & _ & _ & _ & _ & _ & Hclock).
      split; [done|]. intros k s b Hk.
      unfold exec in *. rewrite E in *. simpl in *. rewrite Hclock.
      destruct (decide (k = key)) as [->|Hne].
      * fold key st in Hs. rewrite Hs in Hk. injection Hk as <- <-.
        unfold State_sound. simpl. split_and!; try done.
        -- unfold key. apply lower_idemp.
        -- apply strip_microseconds_whole.
        -- etrans; [apply strip_microseconds_le|].
           unfold carried. destruct (stored w key) as [[s0 a0]|] eqn:Hs0; [|done].
           destruct (H key s0 a0 Hs0) as (_ & _ & _ & _ & ? & ?).
           case_bool_decide; simpl; lia.
      * rewrite Hother in Hk by done. by eapply H.
    + destruct (set_raising w eid new attrs Hok Ha Hsame Hvalid) as (w1 & E & Hm).
      unfold exec. rewrite E. simpl. by eapply more_attrs_sound.
Qed.

Lemma remove_spec w eid :
  StateMachine.remove eid w
  = (Return (bool_decide (is_Some (_states w !! Str.lower eid))),
     set_states (delete (Str.lower eid)) w).
Proof. done. Qed.

Lemma stored_delete w key k :
  stored (set_states (delete key) w) k
  = if decide (k = key) then None else stored w k.
Proof.
  unfold stored. simpl. case_decide as E.
  - subst. by rewrite lookup_delete_eq.
  - by rewrite lookup_delete_ne.
Qed.

Lemma remove_sound w eid :
  registry_sound w → registry_sound (exec (StateMachine.remove eid) w).
Proof.
  intros [Hok H]. unfold exec. rewrite remove_spec. simpl. split.
  - intros key l. simpl. intros Hl.
    apply lookup_delete_Some in Hl as [_ Hl]. exact (Hok key l Hl).
  - intros key s a. rewrite stored_delete. case_decide; [done|]. apply H.
Qed.

Lemma new_attrs_sound d w :
  registry_sound w → registry_sound (exec (new_attrs d) w).
Proof.
  intros Hw. destruct (new_attrs_spec d w) as (l & E & Hl).
  eapply more_attrs_sound; [|done]. unfold exec. rewrite E. simpl.
  by eapply new_attrs_more.
Qed.

Lemma tick_sound dt w :
  registry_sound w → registry_sound (set_clock (λ t, t + Z.max 0 dt) w).
Proof.
  intros [Hok H]. split; [done|]. intros key s a Hst.
  destruct (H key s a Hst) as (? & ? & ? & ? & ? & ?).
  unfold State_sound. simpl. split_and!; try done. lia.
Qed.

Lemma later_sound t w :
  clock w ≤ t → registry_sound w → registry_sound (set_clock (λ _, t) w).
Proof.
  intros Hle [Hok H]. split; [done|]. intros key s a Hst.
  destruct (H key s a Hst) as (? & ? & ? & ? & ? & ?).
  unfold State_sound. simpl. split_and!; try done. lia.
Qed.

Lemma perform_sound a w : registry_sound w → registry_sound (perform a w).
Proof.
  intros Hw. destruct a as [i|t d o|t f|t l|eid new attrs|dt]; simpl.
  - destruct (pending w !! i) as [job|]; [|done].
    eapply same_registry_sound; [apply job_handler_same_registry|].
    by eapply same_registry_sound; [|exact Hw].
  - eapply same_registry_sound; [|exact Hw].
    apply (preserves_bind same_registry); auto.
  - eapply same_registry_sound; [apply listen_same_registry|done].
  - eapply same_registry_sound; [apply remove_listener_same_registry|done].
  - unfold exec, mbind, M_bind.
    destruct (new_attrs_spec attrs w) as (l & E & Hl). rewrite E.
    apply set_sound.
    + pose proof (new_attrs_sound attrs w Hw) as Hn.
      unfold exec in Hn. by rewrite E in Hn.
    + simpl. rewrite lookup_insert_eq. eauto.
  - by apply tick_sound.
Qed.

Lemma run_steps_sound steps w :
  registry_sound w → registry_sound (run_steps steps w).
Proof.
  revert w. induction steps as [|s steps IH]; intros w H; [done|].
  simpl. apply IH. by apply perform_sound.
Qed.

Lemma initial_sound t i : registry_sound (initial t i).
Proof.
  split; [apply registry_initial|]. intros key s a. unfold stored. simpl.
  by rewrite lookup_empty.
Qed.

(** An assignment to the entity id of a stored [State] object breaks the
    invariant.  [get_since] and the data of the [state_changed] events hand
    the stored objects out, not copies. *)
Lemma assignment_breaks_sound w key l e :
  registry_sound w → _states w !! key = Some l → e ≠ key →
  ¬ registry_sound
      (exec (State_assign l (λ s, mkState e (state s) (attributes s)
                                    (last_changed s) (last_updated s))) w).
Proof.
  intros [Hok _] Hl Hne [_ H].
  destruct (Hok key l Hl) as (s & a & Hs & Ha).
  destruct (H key (mkState e (state s) (attributes s) (last_changed s) (last_updated s)) a)
    as [He _]; [|by simpl in He].
  unfold stored, exec, State_assign, modify. simpl. rewrite Hl. simpl.
  rewrite lookup_alter_eq, Hs. simpl. by rewrite Ha.
Qed.

(** X2.  The invariant of the methods of the state machine.  Every stored
    [State] is filed under its own entity id, which is in lower case and
    matches [ENTITY_ID_PATTERN]; its [last_changed] is a whole second and
    not after its [last_updated], which is not after the clock.  [set] and
    [remove], whatever their arguments, keep this, and so does every step
    of [perform]: a worker that runs a job, a call of [fire], [listen],
    [remove_listener] or [set], and the passing of time on a clock that
    does not run backwards.  It is no invariant of the [State] objects
    themselves: an assignment to the entity id of a stored object, which is
    no such step, breaks it. *)
Theorem state_machine_invariant w :
  registry_sound w →
  (∀ eid new attrs, attrs_arg w attrs →
     registry_sound (exec (StateMachine.set eid new attrs) w)) ∧
  (∀ eid, registry_sound (exec (StateMachine.remove eid) w)) ∧
  (∀ steps, registry_sound (run_steps steps w)) ∧
  (∀ key l, _states w !! key = Some l →
     ∃ s, state_objs w !! l = Some s ∧ State_sound (clock w) key s) ∧
  (∀ key l e, _states w !! key = Some l → e ≠ key →
     ¬ registry_sound
         (exec (State_assign l (λ s, mkState e (state s) (attributes s)
                                       (last_changed s) (last_updated s))) w)).
Proof.
  intros Hw. split_and!.
  - intros. by apply set_sound.
  - intros. by apply remove_sound.
  - intros. by apply run_steps_sound.
  - intros key l Hl. destruct Hw as [Hok H].
    destruct (Hok key l Hl) as (s & a & Hs & Ha). exists s. split; [done|].
    apply (H key s a). unfold stored. rewrite Hl. simpl. rewrite Hs. simpl.
    by rewrite Ha.
  - intros key l e Hl Hne. by apply (assignment_breaks_sound w key l e).
Qed.

Lemma state_machine_invariant_witness :
  registry_sound (initial 0 0) ∧
  ∀ steps, registry_sound (run_steps steps (initial 0 0)).
Proof.
  split; [apply initial_sound|].
  exact (proj1 (proj2 (proj2
    (state_machine_invariant (initial 0 0) (initial_sound 0 0))))).
Defined.

(** ** Writing a state and reading it back *)

Lemma stored_Some w key s a :
  stored w key = Some (s, a) ↔
  ∃ l, _states w !! key = Some l ∧ state_objs w !! l = Some s ∧
       attr_dicts w !! attributes s = Some a.
Proof.
  unfold stored. split.
  - destruct (_states w !! key) as [l|] eqn:Hl; [|done]. simpl.
    destruct (state_objs w !! l) as [s0|] eqn:Hs; [|done]. simpl.
    destruct (attr_dicts w !! attributes s0) as [a0|] eqn:Ha; [|done]. simpl.
    intros [= <- <-]. eauto.
  - intros (l & -> & Hs & Ha). simpl. rewrite Hs. simpl. by rewrite Ha.
Qed.

Lemma same_pair_true w key st d :
  same_pair w key st d = true ↔ ∃ s, stored w key = Some (s, d) ∧ state s = st.
Proof.
  unfold same_pair. destruct (stored w key) as [[s a]|]; [|split; [done|by intros (? & ? & _)]].
  rewrite andb_true_iff, !bool_decide_eq_true. split.
  - intros [<- <-]. eauto.
  - intros (s' & [= <- <-] & <-). done.
Qed.

Lemma more_attrs_lookup w w' l d :
  more_attrs w w' → attr_dicts w !! l = Some d → attr_dicts w' !! l = Some d.
Proof. intros [H _]. apply H. Qed.

Lemma more_attrs_fields w w' :
  more_attrs w w' →
  _states w' = _states w ∧ state_objs w' = state_objs w ∧
  fired w' = fired w ∧ pending w' = pending w ∧ clock w' = clock w ∧
  _listeners w' = _listeners w ∧ data_dicts w' = data_dicts w.
Proof. intros [_ ->]. done. Qed.

(** What [set] leaves when it returns: the pair of state and attributes
    is stored under the lowercased entity id. *)
Lemma set_stores w eid new attrs :
  let key := Str.lower eid in
  let w1 := exec (StateMachine.set eid new attrs) w in
  registry_sound w → attrs_arg w attrs →
  is_Some (ENTITY_ID_PATTERN_match key) →
  result (StateMachine.set eid new attrs) w = Return tt ∧
  (∃ s1, stored w1 key = Some (s1, attrs_contents w attrs) ∧ state s1 = str new) ∧
  (∀ x y, attr_dicts w !! x = Some y → attr_dicts w1 !! x = Some y) ∧
  registry_sound w1.
Proof.
  intros key w1 Hw Ha Hv. pose proof (set_sound w eid new attrs Hw Ha) as Hw1.
  fold w1 in Hw1. pose proof Hw as [Hok _]. subst w1. unfold exec, result in *.
  destruct (same_pair w key (str new) (attrs_contents w attrs)) eqn:Hsame.
  - destruct (set_identical w eid new attrs Hok Ha Hsame) as (w1 & E & Hm).
    rewrite E in *. simpl in *. split_and!; try done.
    + apply same_pair_true in Hsame as (s & Hs & Hst). exists s.
      by rewrite (more_attrs_stored w w1 key Hm Hok).
    + intros x y. by apply more_attrs_lookup.
  - destruct (set_changing_stored w eid new attrs Hok Ha Hsame Hv)
      as ([a Hs] & _ & _).
    destruct (set_changing w eid new attrs Hok Ha Hsame Hv)
      as (l & a' & dl & w1 & E & _ & _ & _ & Hmono & _).
    unfold exec in Hs. rewrite E in *. simpl in *. split_and!; try done.
    eexists. split; [exact Hs|done].
Qed.

Lemma is_state_stored w eid st s a :
  stored w (Str.lower eid) = Some (s, a) →
  StateMachine.is_state eid st w = (Return (bool_decide (state s = st)), w).
Proof.
  intros (l & Hl & Hs & _)%stored_Some. unfold StateMachine.is_state.
  cbv zeta. unfold mbind, M_bind, gets. cbn beta iota. rewrite Hl.
  by rewrite (read_state_Some w l s Hs).
Qed.

(** X3.  A state that was set is read back.  After
    [set(entity_id, new_state, attributes)] with an entity id whose lower
    case matches the pattern, and for every spelling of the entity id that
    differs in case only, [is_state] finds [str(new_state)], and [get]
    returns a [State] object, not the stored one and sharing no attributes
    with it, that holds the lowercased entity id, [str(new_state)] and the
    contents of [attributes]; [get] leaves the map of entities as it is. *)
Theorem set_then_get w eid eid' new attrs :
  let key := Str.lower eid in
  let w1 := exec (StateMachine.set eid new attrs) w in
  registry_sound w → attrs_arg w attrs →
  is_Some (ENTITY_ID_PATTERN_match key) →
  Str.lower eid' = key →
  result (StateMachine.is_state eid' (str new)) w1 = Return true ∧
  ∃ c w2 s,
    StateMachine.get eid' w1 = (Return (Some c), w2) ∧
    state_objs w2 !! c = Some s ∧
    entity_id s = key ∧ state s = str new ∧
    attr_dicts w2 !! attributes s = Some (attrs_contents w attrs) ∧
    unaliased w2 c ∧ _states w2 = _states w1.
Proof.
  intros key w1 Hw Ha Hv He.
  destruct (set_stores w eid new attrs Hw Ha Hv) as (_ & (s1 & Hs1 & Hst) & _ & Hw1).
  fold key w1 in Hs1, Hw1. split.
  - unfold result.
    rewrite (is_state_stored w1 eid' (str new) s1 (attrs_contents w attrs));
      [|by rewrite He].
    simpl. by rewrite bool_decide_eq_true_2.
  - pose proof (get_returns_copy w1 eid' (registry_sound_valid w1 Hw1)) as Hget.
    rewrite He in Hget.
    pose proof Hs1 as (l0 & Hl0 & Hs0 & Ha0)%stored_Some. rewrite Hl0 in Hget.
    destruct Hget as (c & w2 & E & Hext & Hun & Hcopy).
    destruct Hcopy as (s & s0 & d & Hc & Hs0' & Hd & Hd0 & Heid & Hstate & _).
    destruct Hext as (Hso & Hat & Hsts).
    pose proof (lookup_weaken _ _ _ _ Hs0 Hso) as Hs0''.
    rewrite Hs0'' in Hs0'. injection Hs0' as <-.
    pose proof (lookup_weaken _ _ _ _ Ha0 Hat) as Ha0'.
    rewrite Ha0' in Hd0. injection Hd0 as <-.
    destruct Hw1 as [_ Hsound].
    destruct (Hsound key s1 _ Hs1) as (Hk & _).
    exists c, w2, s. split_and!; try done; congruence.
Qed.

Lemma set_then_get_witness :
  let w := initial 0 0 in
  let w1 := exec (StateMachine.set "Light.Kitchen" (SInt 7) None) w in
  registry_sound w ∧ attrs_arg w None ∧
  is_Some (ENTITY_ID_PATTERN_match (Str.lower "Light.Kitchen")) ∧
  Str.lower "LIGHT.kitchen" = Str.lower "Light.Kitchen" ∧
  result (StateMachine.is_state "LIGHT.kitchen" "7") w1 = Return true ∧
  ∃ c w2 s,
    StateMachine.get "LIGHT.kitchen" w1 = (Return (Some c), w2) ∧
    state_objs w2 !! c = Some s ∧
    entity_id s = "light.kitchen" ∧ state s = "7".
Proof.
  assert (is_Some (ENTITY_ID_PATTERN_match (Str.lower "Light.Kitchen"))) as Hv
    by (vm_compute; eauto).
  destruct (set_then_get (initial 0 0) "Light.Kitchen" "LIGHT.kitchen" (SInt 7) None
              (initial_sound 0 0) I Hv eq_refl)
    as (H1 & c & w2 & s & E & Hs & He & Hst & _).
  split; [apply initial_sound|]. split; [exact I|]. split; [exact Hv|].
  split; [reflexivity|]. split; [exact H1|].
  exists c, w2, s. split; [exact E|]. split; [exact Hs|]. split; [exact He|exact Hst].
Defined.

(** X4.  [remove] forgets an entity and tells no one.  It returns whether
    the lowercased entity id was in the map.  Afterwards, under every
    spelling of the id, [get] returns [None], [is_state] is false for every
    state and a second [remove] returns [False]; the other entities are as
    before; no event is fired and no job is handed to the pool: listeners
    of [state_changed] do not hear of a removal. *)
Theorem remove_forgets w eid :
  let key := Str.lower eid in
  let w' := exec (StateMachine.remove eid) w in
  result (StateMachine.remove eid) w
  = Return (bool_decide (is_Some (_states w !! key))) ∧
  (∀ eid', Str.lower eid' = key →
     StateMachine.get eid' w' = (Return None, w') ∧
     (∀ st, StateMachine.is_state eid' st w' = (Return false, w')) ∧
     StateMachine.remove eid' w' = (Return false, w')) ∧
  (∀ k, k ≠ key → _states w' !! k = _states w !! k) ∧
  fired w' = fired w ∧ pending w' = pending w ∧ state_objs w' = state_objs w.
Proof.
  intros key w'. subst w'. unfold exec, result. rewrite remove_spec. fold key.
  simpl. split_and!; try done.
  - intros eid' He.
    assert (_states (set_states (delete key) w) !! Str.lower eid' = None) as Hn.
    { simpl. rewrite He. apply lookup_delete_eq. }
    split_and!.
    + unfold StateMachine.get, mbind, M_bind, gets. cbn beta iota. by rewrite Hn.
    + intros st. unfold StateMachine.is_state, mbind, M_bind, gets.
      cbn beta iota zeta. by rewrite Hn.
    + rewrite remove_spec, Hn, He. f_equal.
      unfold set_states. simpl. f_equal. apply delete_delete_eq.
  - intros k Hk. by rewrite lookup_delete_ne.
Qed.

(** X5.  [set] is idempotent.  After a [set] whose entity id matches the
    pattern in lower case, the same [set] again, under any spelling of the
    id that differs in case only, returns and changes nothing: the map and
    the stored objects are the same, no event is fired and no job is
    handed to the pool. *)
Theorem set_twice w eid eid' new attrs :
  let key := Str.lower eid in
  let w1 := exec (StateMachine.set eid new attrs) w in
  registry_sound w → attrs_arg w attrs →
  is_Some (ENTITY_ID_PATTERN_match key) →
  Str.lower eid' = key →
  ∃ w2,
    StateMachine.set eid' new attrs w1 = (Return tt, w2) ∧
    _states w2 = _states w1 ∧ state_objs w2 = state_objs w1 ∧
    fired w2 = fired w1 ∧ pending w2 = pending w1.
Proof.
  intros key w1 Hw Ha Hv He.
  destruct (set_stores w eid new attrs Hw Ha Hv)
    as (_ & (s1 & Hs1 & Hst) & Hmono & [Hok1 _]).
  fold key w1 in Hs1, Hok1, Hmono.
  assert (attrs_arg w1 attrs ∧ attrs_contents w1 attrs = attrs_contents w attrs)
    as [Ha1 Hc1].
  { destruct attrs as [l|]; [|done]. simpl in *. destruct Ha as [d Hd].
    rewrite (Hmono l d Hd), Hd. eauto. }
  destruct (set_identical w1 eid' new attrs Hok1 Ha1) as (w2 & E & Hm).
  { rewrite He, Hc1. apply same_pair_true. eauto. }
  exists w2. split; [exact E|].
  destruct (more_attrs_fields w1 w2 Hm) as (? & ? & ? & ? & _). done.
Qed.

Lemma set_twice_witness :
  let w := initial 0 0 in
  let w1 := exec (StateMachine.set "Light.Kitchen" (SStr "on") None) w in
  registry_sound w ∧ attrs_arg w None ∧
  is_Some (ENTITY_ID_PATTERN_match (Str.lower "Light.Kitchen")) ∧
  Str.lower "light.kitchen" = Str.lower "Light.Kitchen" ∧
  ∃ w2,
    StateMachine.set "light.kitchen" (SStr "on") None w1 = (Return tt, w2) ∧
    _states w2 = _states w1 ∧ state_objs w2 = state_objs w1 ∧
    fired w2 = fired w1 ∧ pending w2 = pending w1.
Proof.
  assert (is_Some (ENTITY_ID_PATTERN_match (Str.lower "Light.Kitchen"))) as Hv
    by (vm_compute; eauto).
  split; [apply initial_sound|]. split; [exact I|]. split; [exact Hv|].
  split; [reflexivity|].
  exact (set_twice (initial 0 0) "Light.Kitchen" "light.kitchen" (SStr "on") None
           (initial_sound 0 0) I Hv eq_refl).
Defined.

(** ** The attributes that [set] stores *)

Lemma data_setitem_same_registry l key value :
  preserves same_registry (data_setitem l key value).
Proof. unfold data_setitem. keep_registry. Qed.

Lemma exec_bind {A B} (m : M A) (f : A → M B) w a w' :
  m w = (Return a, w') → exec (m ≫= f) w = exec (f a) w'.
Proof. intros E. unfold exec. by rewrite (bind_Return _ _ _ _ _ E). Qed.

(** A changing [set] with a non-empty [dict] of attributes stores a
    [State] that refers to that very [dict]. *)
Lemma set_changing_shares w eid new l d :
  let key := Str.lower eid in
  let st := str new in
  let w1 := exec (StateMachine.set eid new (Some l)) w in
  registry_ok w → attr_dicts w !! l = Some d → d ≠ ∅ →
  same_pair w key st d = false →
  is_Some (ENTITY_ID_PATTERN_match key) →
  ∃ s, stored w1 key = Some (s, d) ∧ attributes s = l ∧ state s = st ∧
       attr_dicts w1 = attr_dicts w.
Proof.
  intros key st w1 Hok Hl Hd Hsame Hv.
  assert (attrs_arg w (Some l)) as Ha by (simpl; eauto).
  assert (attrs_contents w (Some l) = d) as Hc by (simpl; by rewrite Hl).
  destruct (set_unfold w eid new (Some l) Hok Ha) as (a0 & w0 & E0 & _ & _ & E).
  destruct (or_new_attrs_spec w (Some l) Ha) as (a0' & w0' & E0' & _ & _ & Hne & _).
  rewrite Hc in Hne. destruct (Hne Hd) as [[= <-] ->].
  rewrite E0' in E0. injection E0 as <- <-.
  fold key st in E. rewrite Hc, Hsame in E.
  destruct (State_init_returns w key st (Some l) (carried w key st) Hv Ha)
    as (l2 & a2 & w2 & _ & E2 & Hfresh & _ & _ & Hne2 & _).
  rewrite Hc in Hne2. destruct (Hne2 Hd) as [[= <-] ->].
  set (w3 := set_state_objs <[l2 := built w key st l (carried w key st)]> w) in E2.
  set (rest :=
    event_data ← new_data {[ "entity_id" := VStr key; "new_state" := VState l2 ]};
    _ ← match _states w !! key with
        | Some o => data_setitem event_data "old_state" (VState o)
        | None => mret tt
        end;
    EventBus.fire EVENT_STATE_CHANGED (Some event_data) local).
  assert (w1 = exec rest (set_states <[key := l2]> w3)) as ->.
  { subst w1. unfold exec at 1. rewrite E.
    rewrite (bind_Return _ _ _ _ _ E2). done. }
  assert (preserves same_registry rest) as Hrest.
  { unfold rest. pose proof data_setitem_same_registry.
    pose proof fire_same_registry. keep_registry. }
  destruct (Hrest (set_states <[key := l2]> w3)) as (H1 & H2 & H3 & _).
  exists (built w key st l (carried w key st)).
  split_and!.
  - apply stored_Some. exists l2. rewrite H1, H2, H3. simpl.
    rewrite !lookup_insert_eq. done.
  - done.
  - done.
  - by rewrite H2.
Qed.

Lemma attrs_setitem_spec w l key value :
  attrs_setitem l key value w
  = (Return tt, set_attr_dicts (alter <[key := value]> l) w).
Proof. done. Qed.

(** X6.  [set] stores the caller's [dict] of attributes, not a copy.
    After a changing [set(entity_id, new_state, attributes)] with a
    non-empty [dict], the stored [State] refers to that [dict].  When the
    caller then writes [attributes[k] = v], the attributes of the stored
    state change with it, and the same [set] again finds nothing changed:
    it fires no event and hands no job to the pool. *)
Theorem set_shares_attributes w eid new l d k v :
  let key := Str.lower eid in
  let w1 := exec (StateMachine.set eid new (Some l)) w in
  let w2 := exec (attrs_setitem l k v) w1 in
  let w3 := exec (StateMachine.set eid new (Some l)) w2 in
  registry_sound w → attr_dicts w !! l = Some d → d ≠ ∅ →
  same_pair w key (str new) d = false →
  is_Some (ENTITY_ID_PATTERN_match key) →
  (∃ s, stored w1 key = Some (s, d) ∧ attributes s = l) ∧
  (∃ s, stored w2 key = Some (s, <[k := v]> d) ∧ attributes s = l) ∧
  result (StateMachine.set eid new (Some l)) w2 = Return tt ∧
  _states w3 = _states w2 ∧ fired w3 = fired w2 ∧ pending w3 = pending w2.
Proof.
  intros key w1 w2 w3 Hw Hl Hd Hsame Hv. pose proof Hw as [Hok _].
  destruct (set_changing_shares w eid new l d Hok Hl Hd Hsame Hv)
    as (s & Hs & Hal & Hst & Hat).
  fold key w1 in Hs, Hat.
  assert (registry_ok w1) as Hok1.
  { apply (set_sound w eid new (Some l) Hw). simpl. eauto. }
  assert (w2 = set_attr_dicts (alter <[k := v]> l) w1) as Ew2 by done.
  clearbody w2.
  assert (stored w2 key = Some (s, <[k := v]> d)) as Hs2.
  { apply stored_Some in Hs as (l0 & Hl0 & Hs0 & Ha0). apply stored_Some.
    exists l0. rewrite Ew2. simpl. split_and!; try done.
    rewrite Hal in Ha0 |- *. by rewrite lookup_alter_eq, Ha0. }
  assert (registry_ok w2) as Hok2.
  { intros key' l' Hl'. rewrite Ew2 in Hl' |- *. simpl in Hl' |- *.
    destruct (Hok1 key' l' Hl') as (s' & a' & Hs' & Ha').
    exists s'. destruct (decide (attributes s' = l)) as [Heq|Hne].
    - exists (<[k := v]> a'). split; [done|].
      rewrite Heq in Ha' |- *. by rewrite lookup_alter_eq, Ha'.
    - exists a'. split; [done|]. by rewrite lookup_alter_ne. }
  assert (attr_dicts w2 !! l = Some (<[k := v]> d)) as Hl2.
  { apply stored_Some in Hs2 as (l0 & _ & _ & Ha0). by rewrite <- Hal. }
  destruct (set_identical w2 eid new (Some l) Hok2) as (w3' & E & Hm).
  { unfold attrs_arg. by rewrite Hl2. }
  { unfold attrs_contents. rewrite Hl2. simpl. apply same_pair_true. eauto. }
  subst w3. unfold exec at 1 2 3, result. rewrite E. simpl.
  destruct (more_attrs_fields w2 w3' Hm) as (? & ? & ? & ? & _).
  split_and!; eauto.
Qed.

Lemma set_shares_attributes_witness :
  let w := exec (new_attrs {[ "bri" := SInt 128 ]}) (initial 0 0) in
  let l := 1%positive in
  let w1 := exec (StateMachine.set "light.kitchen" (SStr "on") (Some l)) w in
  let w2 := exec (attrs_setitem l "bri" (SInt 255)) w1 in
  let w3 := exec (StateMachine.set "light.kitchen" (SStr "on") (Some l)) w2 in
  registry_sound w ∧ attr_dicts w !! l = Some {[ "bri" := SInt 128 ]} ∧
  ({[ "bri" := SInt 128 ]} : gmap string scalar) ≠ ∅ ∧
  same_pair w (Str.lower "light.kitchen") (str (SStr "on")) {[ "bri" := SInt 128 ]} = false ∧
  is_Some (ENTITY_ID_PATTERN_match (Str.lower "light.kitchen")) ∧
  (∃ s, stored w2 (Str.lower "light.kitchen")
        = Some (s, <[ "bri" := SInt 255 ]> {[ "bri" := SInt 128 ]}) ∧
        attributes s = l) ∧
  fired w3 = fired w2.
Proof.
  assert (registry_sound (exec (new_attrs {[ "bri" := SInt 128 ]}) (initial 0 0)))
    as Hw by (apply new_attrs_sound, initial_sound).
  assert (({[ "bri" := SInt 128 ]} : gmap string scalar) ≠ ∅) as Hd
    by apply insert_non_empty.
  assert (is_Some (ENTITY_ID_PATTERN_match (Str.lower "light.kitchen"))) as Hv
    by (vm_compute; eauto).
  destruct (set_shares_attributes _ "light.kitchen" (SStr "on") 1%positive
              {[ "bri" := SInt 128 ]} "bri" (SInt 255) Hw eq_refl Hd eq_refl Hv)
    as (_ & H2 & _ & _ & H3 & _).
  split; [exact Hw|]. split; [reflexivity|]. split; [exact Hd|].
  split; [reflexivity|]. split; [exact Hv|]. split; [exact H2|exact H3].
Defined.

(** ** Reading by time *)

(** X7.  [get_since] compares with the whole second of [point_in_time].
    It returns, without a change to anything, exactly the stored [State]
    objects whose [last_updated] is not before [point_in_time] truncated to
    whole seconds: so also every state that was updated before
    [point_in_time] but within the same second. *)
Theorem get_since_whole_second w point_in_time :
  registry_ok w →
  ∃ ls,
    StateMachine.get_since point_in_time w = (Return ls, w) ∧
    (∀ l, l ∈ ls ↔
          ∃ key s, _states w !! key = Some l ∧ state_objs w !! l = Some s ∧
                   strip_microseconds point_in_time ≤ last_updated s) ∧
    (∀ key l s,
       _states w !! key = Some l → state_objs w !! l = Some s →
       last_updated s `div` second = point_in_time `div` second →
       l ∈ ls).
Proof.
  intros Hok. unfold StateMachine.get_since. cbv zeta.
  unfold mbind, M_bind, gets. cbn beta iota.
  destruct (select_spec
              (λ s, bool_decide (strip_microseconds point_in_time ≤ last_updated s))
              (map_to_list (_states w)).*2 w) as (ls & E & Hls).
  { apply list.Forall_forall. intros l Hl.
    apply list_elem_of_fmap in Hl as ([key l'] & -> & Hin).
    apply elem_of_map_to_list in Hin. destruct (Hok _ _ Hin) as (s & _ & Hs & _).
    by exists s. }
  exists ls. split; [exact E|].
  assert (∀ l, l ∈ ls ↔
            ∃ key s, _states w !! key = Some l ∧ state_objs w !! l = Some s ∧
                     strip_microseconds point_in_time ≤ last_updated s) as Hiff.
  { intros l. rewrite Hls. split.
    - intros [Hin (s & Hs & Hk)].
      apply list_elem_of_fmap in Hin as ([key l'] & -> & Hin).
      apply elem_of_map_to_list in Hin. apply bool_decide_eq_true in Hk.
      by exists key, s.
    - intros (key & s & Hl & Hs & Hle). split.
      + apply list_elem_of_fmap. exists (key, l). split; [done|].
        by apply elem_of_map_to_list.
      + exists s. split; [done|]. by apply bool_decide_eq_true. }
  split; [exact Hiff|].
  intros key l s Hl Hs Hdiv. apply Hiff. exists key, s. split_and!; try done.
  unfold strip_microseconds, second in *.
  pose proof (Z.div_mod point_in_time 1000000).
  pose proof (Z.div_mod (last_updated s) 1000000).
  pose proof (Z.mod_pos_bound (last_updated s) 1000000). lia.
Qed.

Lemma get_since_whole_second_witness :
  let w := exec (StateMachine.set "light.kitchen" (SStr "on") None)
             (initial 1500000 0) in
  registry_ok w ∧
  ∃ ls l s,
    StateMachine.get_since 1900000 w = (Return ls, w) ∧
    _states w !! "light.kitchen" = Some l ∧ state_objs w !! l = Some s ∧
    last_updated s = 1500000 ∧ l ∈ ls.
Proof.
  assert (registry_sound (exec (StateMachine.set "light.kitchen" (SStr "on") None)
                            (initial 1500000 0))) as [Hok _].
  { apply set_sound; [apply initial_sound|exact I]. }
  split; [exact Hok|].
  destruct (get_since_whole_second _ 1900000 Hok) as (ls & E & _ & H).
  exists ls, 1%positive, (mkState "light.kitchen" "on" 2%positive 1000000 1500000).
  split; [exact E|]. split; [reflexivity|]. split; [reflexivity|].
  split; [reflexivity|].
  apply (H "light.kitchen" 1%positive
           (mkState "light.kitchen" "on" 2%positive 1000000 1500000));
    reflexivity.
Defined.

(** What [copy] builds: a new [State] object with the time of the copy
    as [last_updated]. *)
Lemma State_copy_fields w self s0 d :
  state_objs w !! self = Some s0 →
  attr_dicts w !! attributes s0 = Some d →
  is_Some (ENTITY_ID_PATTERN_match (entity_id s0)) →
  ∃ l a w',
    State.copy self w = (Return l, w') ∧
    state_objs w' !! l
    = Some (mkState (Str.lower (entity_id s0)) (state s0) a
              (strip_microseconds (last_changed s0)) (clock w)) ∧
    attr_dicts w' !! a = Some d.
Proof.
  intros Hs0 Hd Hm. unfold State.copy.
  rewrite (bind_Return _ _ _ _ _ (read_state_Some w self s0 Hs0)).
  rewrite (bind_Return _ _ _ _ _ (read_attrs_Some w _ d Hd)).
  destruct (new_attrs_spec d w) as (a0 & E0 & Hf0).
  rewrite (bind_Return _ _ _ _ _ E0).
  set (w1 := set_attr_dicts <[a0 := d]> w).
  destruct (State_init_returns w1 (entity_id s0) (state s0) (Some a0)
              (Some (last_changed s0)))
    as (l & a & w2 & _ & E & _ & _ & Hc & _); [done| |].
  { simpl. rewrite lookup_insert_eq. eauto. }
  rewrite E. simpl in Hc. rewrite lookup_insert_eq in Hc. simpl in Hc.
  eexists l, a, _. split; [reflexivity|]. simpl.
  rewrite lookup_insert_eq. done.
Qed.

(** X8.  [get] stamps its copy with the time of the read.  For an entity
    of a sound state machine, the [State] that [get] returns is equal
    ([==]) to the stored one and has its [last_changed], but its
    [last_updated] is the time of the call of [get], not the time at which
    the state was last set. *)
Theorem get_stamps_the_read w eid l0 s0 :
  registry_sound w →
  _states w !! Str.lower eid = Some l0 → state_objs w !! l0 = Some s0 →
  ∃ c w' s,
    StateMachine.get eid w = (Return (Some c), w') ∧
    state_objs w' !! c = Some s ∧
    last_updated s = clock w ∧
    last_changed s = last_changed s0 ∧
    State.__eq__ c l0 w' = (Return true, w').
Proof.
  intros Hw Hl0 Hs0. pose proof Hw as [Hok Hsound].
  destruct (Hok _ _ Hl0) as (s0' & d & Hs0' & Hd).
  rewrite Hs0 in Hs0'. injection Hs0' as <-.
  assert (stored w (Str.lower eid) = Some (s0, d)) as Hst.
  { apply stored_Some. eauto. }
  destruct (Hsound _ _ _ Hst) as (Heid & Hlow & Hm & Hwhole & _).
  destruct (State_copy_fields w l0 s0 d Hs0 Hd) as (c & a & w' & E & Hc & Ha).
  { by rewrite Heid. }
  pose proof (get_returns_copy w eid (registry_sound_valid w Hw)) as Hget.
  rewrite Hl0 in Hget. destruct Hget as (c' & w'' & E' & Hext & _ & Hcopy).
  assert (StateMachine.get eid w = (Return (Some c), w')) as Eget.
  { unfold StateMachine.get, mbind at 1, M_bind at 1, gets. rewrite Hl0.
    by rewrite (bind_Return _ _ _ _ _ E). }
  rewrite Eget in E'. injection E' as <- <-.
  destruct Hcopy as (s & s0' & d' & Hc' & Hs0' & Hd' & Hd0' & Heid' & Hstate' & _).
  rewrite Hc in Hc'. injection Hc' as <-.
  eexists c, w', _. split; [exact Eget|]. split; [exact Hc|]. simpl.
  split; [done|]. split; [by apply strip_microseconds_id|].
  rewrite (State_eq_spec w' c l0 _ s0' d' d' Hc Hs0' Hd' Hd0').
  by rewrite bool_decide_eq_true_2.
Qed.

Lemma get_stamps_the_read_witness :
  let w := kitchen_on in
  registry_sound w ∧
  ∃ l0 s0 c w' s,
    _states w !! Str.lower "Light.Kitchen" = Some l0 ∧
    state_objs w !! l0 = Some s0 ∧
    last_updated s0 = 1500000 ∧
    StateMachine.get "Light.Kitchen" w = (Return (Some c), w') ∧
    state_objs w' !! c = Some s ∧
    last_updated s = 2700000.
Proof.
  assert (registry_sound kitchen_on) as Hw.
  { unfold kitchen_on. apply later_sound; [by vm_compute|].
    erewrite exec_bind; [|reflexivity].
    apply set_sound; [|exact I].
    apply (new_attrs_sound {[ "bri" := SInt 128 ]} (initial 1500000 0)).
    apply initial_sound. }
  split; [exact Hw|].
  destruct (get_stamps_the_read kitchen_on "Light.Kitchen" 1%positive
              (mkState "light.kitchen" "on" 3%positive 1000000 1500000)
              Hw eq_refl eq_refl)
    as (c & w' & s & E & Hs & Hu & _).
  exists 1%positive, (mkState "light.kitchen" "on" 3%positive 1000000 1500000),
    c, w', s.
  split; [reflexivity|]. split; [reflexivity|]. split; [reflexivity|].
  split; [exact E|]. split; [exact Hs|exact Hu].
Defined.

(** ** The ids of service calls *)

Lemma to_int_norm z : Decimal.norm (Z.to_int z) = Z.to_int z.
Proof. by rewrite <- DecimalZ.to_of, DecimalZ.of_to. Qed.

Lemma to_int_digits z :
  Z.to_int z ≠ Decimal.Pos Decimal.Nil ∧ Z.to_int z ≠ Decimal.Neg Decimal.Nil.
Proof.
  rewrite <- to_int_norm. destruct (Z.to_int z) as [d|d]; simpl.
  - split; [|done]. intros [= E]. by apply (DecimalFacts.unorm_nonnil d).
  - destruct (Decimal.nzhead d); done.
Qed.

Lemma str_int_inj a b : str (SInt a) = str (SInt b) → a = b.
Proof.
  simpl. intros E. apply DecimalZ.to_int_inj.
  destruct (to_int_digits a) as [Ha1 Ha2]. destruct (to_int_digits b) as [Hb1 Hb2].
  pose proof (NilZero.isi _ Ha1 Ha2) as Ia. pose proof (NilZero.isi _ Hb1 Hb2) as Ib.
  rewrite E in Ia. congruence.
Qed.

Lemma string_app_inv_head a x y : a +:+ x = a +:+ y → x = y.
Proof. induction a as [|c a IH]; app_simpl; [done|]. intros [= E]. by apply IH. Qed.

Lemma next_call_id_inj w w' :
  self_id w' = self_id w → next_call_id w = next_call_id w' →
  _cur_id w = _cur_id w'.
Proof.
  unfold next_call_id. intros ->.
  intros E%string_app_inv_head%string_app_inv_head%str_int_inj. lia.
Qed.

Lemma same_counter_preorder : PreOrder same_counter.
Proof.
  split; [by intros w|].
  intros w1 w2 w3 [H1 H2] [H1' H2']. unfold same_counter. by rewrite H1', H2'.
Qed.

#[local] Existing Instance same_counter_preorder.

Ltac keep_counter := keep same_counter ltac:(done).

Lemma new_attrs_same_counter d : preserves same_counter (new_attrs d).
Proof. by intros w. Qed.

Lemma new_data_same_counter d : preserves same_counter (new_data d).
Proof. by intros w. Qed.

Lemma new_state_obj_same_counter s : preserves same_counter (new_state_obj s).
Proof. by intros w. Qed.

Lemma now_same_counter : preserves same_counter now.
Proof. by intros w. Qed.

#[local] Hint Resolve new_attrs_same_counter new_data_same_counter
  new_state_obj_same_counter now_same_counter : core.

#[local] Hint Extern 1 (preserves same_counter (read_attrs _)) =>
  apply read_attrs_keeps; apply _ : core.

#[local] Hint Extern 1 (preserves same_counter (read_data _)) =>
  apply read_data_keeps; apply _ : core.

#[local] Hint Extern 1 (preserves same_counter (read_state _)) =>
  apply read_state_keeps; apply _ : core.

Lemma fire_same_counter t data origin :
  preserves same_counter (EventBus.fire t data origin).
Proof.
  unfold EventBus.fire, Event.__init__, or_new_data, add_job. keep_counter.
Qed.

Lemma listen_same_counter t l : preserves same_counter (EventBus.listen t l).
Proof. unfold EventBus.listen. keep_counter. Qed.

Lemma remove_listener_same_counter t l :
  preserves same_counter (EventBus.remove_listener t l).
Proof. unfold EventBus.remove_listener. keep_counter. Qed.

#[local] Hint Resolve fire_same_counter listen_same_counter
  remove_listener_same_counter : core.

Lemma set_same_counter eid new attrs :
  preserves same_counter (StateMachine.set eid new attrs).
Proof.
  unfold StateMachine.set, State.__init__, or_new_attrs, data_setitem.
  keep_counter.
Qed.

Lemma event_to_service_call_same_counter event :
  preserves same_counter (ServiceRegistry._event_to_service_call event).
Proof.
  unfold ServiceRegistry._event_to_service_call, or_new_data, add_job.
  keep_counter.
Qed.

Lemma execute_service_same_counter f call :
  preserves same_counter (ServiceRegistry._execute_service f call).
Proof. unfold ServiceRegistry._execute_service, data_getitem. keep_counter. Qed.

#[local] Hint Resolve set_same_counter event_to_service_call_same_counter
  execute_service_same_counter : core.

Lemma call_listener_same_counter func event :
  preserves same_counter (call_listener func event).
Proof.
  induction func as [f|fn t target IH|fn call_id g|]; simpl;
    unfold data_getitem, flag_set; keep_counter.
Qed.

Lemma perform_same_counter a w : same_counter w (perform a w).
Proof.
  destruct a as [i|t d o|t f|t l|eid new attrs|dt]; simpl.
  - destruct (pending w !! i) as [job|]; [|done].
    unfold exec, job_handler. simpl. destruct (job_func job).
    + apply (call_listener_same_counter func arg (set_pending (delete i) w)).
    + apply (execute_service_same_counter service_func call
               (set_pending (delete i) w)).
  - apply (preserves_bind same_counter); auto.
  - apply listen_same_counter.
  - apply remove_listener_same_counter.
  - apply (preserves_bind same_counter); auto.
  - done.
Qed.

Lemma run_steps_same_counter steps w : same_counter w (run_steps steps w).
Proof.
  revert w. induction steps as [|s steps IH]; intros w; [done|].
  simpl. etrans; [apply perform_same_counter|apply IH].
Qed.

(** X9.  The ids of service calls are unique.  Two ids that one service
    registry generates at different values of its counter are different
    strings; so the id of a call differs from the id of the call before
    it, whatever the other threads did in between, and each call advances
    the counter by one. *)
Theorem call_ids_unique w w' :
  self_id w' = self_id w → _cur_id w' ≠ _cur_id w →
  result ServiceRegistry._generate_unique_id w'
  ≠ result ServiceRegistry._generate_unique_id w ∧
  (∀ steps,
     let w1 := exec ServiceRegistry._generate_unique_id w in
     _cur_id w1 = _cur_id w + 1 ∧
     result ServiceRegistry._generate_unique_id (run_steps steps w1)
     ≠ result ServiceRegistry._generate_unique_id w).
Proof.
  assert (∀ v v', self_id v' = self_id v → _cur_id v' ≠ _cur_id v →
            result ServiceRegistry._generate_unique_id v'
            ≠ result ServiceRegistry._generate_unique_id v) as Hgen.
  { intros v v' Hs Hc. unfold result. rewrite !generate_unique_id_spec. simpl.
    intros [= E]. apply Hc. symmetry. by apply next_call_id_inj. }
  intros Hs Hc. split; [by apply Hgen|].
  intros steps w1. subst w1. unfold exec at 1 2.
  rewrite generate_unique_id_spec. simpl. split; [done|].
  destruct (run_steps_same_counter steps (set_cur_id (λ n, n + 1) w)) as [H1 H2].
  apply Hgen; [by rewrite H2|]. rewrite H1. simpl. lia.
Qed.

Lemma call_ids_unique_witness :
  let w := initial 0 7 in
  let w' := exec ServiceRegistry._generate_unique_id w in
  self_id w' = self_id w ∧ _cur_id w' ≠ _cur_id w ∧
  result ServiceRegistry._generate_unique_id w'
  ≠ result ServiceRegistry._generate_unique_id w.
Proof.
  intros w w'.
  assert (self_id w' = self_id w) as Hs by reflexivity.
  assert (_cur_id w' ≠ _cur_id w) as Hc by (by vm_compute).
  split; [exact Hs|]. split; [exact Hc|].
  exact (proj1 (call_ids_unique w w' Hs Hc)).
Defined.

(** ** Registering and dispatching services *)

Lemma register_spec w dom srv f :
  ∃ event_data w',
    ServiceRegistry.register dom srv f w = (Return tt, w') ∧
    (∀ d s, registered w' d s
            = if decide (d = dom ∧ s = srv) then Some f else registered w d s) ∧
    data_dicts w !! event_data = None ∧
    data_dicts w' = <[event_data := service_registered_data dom srv]> (data_dicts w) ∧
    fired w' = fired w ++ [mkEvent EVENT_SERVICE_REGISTERED event_data local] ∧
    pending w'
    = pending w ++ jobs_of (mkEvent EVENT_SERVICE_REGISTERED event_data local)
                     (snapshot w EVENT_SERVICE_REGISTERED).
Proof.
  unfold ServiceRegistry.register.
  unfold mbind at 1, M_bind at 1, modify at 1.
  set (w1 := set_services _ w).
  destruct (new_data_spec (service_registered_data dom srv) w1) as (ed & E & Hed).
  unfold service_registered_data in E.
  rewrite (bind_Return _ _ _ _ _ E). clear E.
  set (w2 := set_data_dicts _ w1).
  destruct (fire_spec w2 EVENT_SERVICE_REGISTERED (Some ed) local)
    as (ed' & w3 & _ & _ & _ & Hne & E3).
  { simpl. rewrite lookup_insert_eq. eauto. }
  destruct Hne as [[= <-] ->].
  { simpl. rewrite lookup_insert_eq. simpl. apply insert_non_empty. }
  rewrite E3. exists ed. eexists. split; [reflexivity|]. simpl.
  split_and!; try done.
  intros d s. unfold registered. simpl.
  destruct (_services w !! dom) as [m|] eqn:Hm.
  - destruct (decide (d = dom)) as [->|Hd].
    + rewrite lookup_insert_eq, Hm. simpl.
      destruct (decide (s = srv)) as [->|Hs].
      * rewrite lookup_insert_eq. by rewrite decide_True.
      * rewrite lookup_insert_ne by done. rewrite decide_False by tauto. done.
    + rewrite lookup_insert_ne by done. rewrite decide_False by tauto. done.
  - destruct (decide (d = dom)) as [->|Hd].
    + rewrite lookup_insert_eq, Hm. simpl.
      destruct (decide (s = srv)) as [->|Hs].
      * rewrite lookup_singleton_eq. by rewrite decide_True.
      * rewrite lookup_singleton_ne by done. rewrite decide_False by tauto. done.
    + rewrite lookup_insert_ne by done. rewrite decide_False by tauto. done.
Qed.

Lemma has_service_registered w dom srv :
  ServiceRegistry.has_service dom srv w
  = (Return (bool_decide (is_Some (registered w dom srv))), w).
Proof.
  unfold ServiceRegistry.has_service, gets, registered. f_equal. f_equal.
  destruct (_services w !! dom) as [m|]; simpl; done.
Qed.

(** X10.  Registering a service.  [register(domain, service, f)] returns;
    afterwards [has_service(domain, service)] is true and [f] is the
    function of that service, also when the service had another function
    before; every other service is as before; exactly one event is fired,
    of type [service_registered], whose data hold the domain and the
    service.  In any world, [has_service] is true of exactly the services
    that the view [services] lists. *)
Theorem register_then_has_service w dom srv f :
  let w' := exec (ServiceRegistry.register dom srv f) w in
  result (ServiceRegistry.register dom srv f) w = Return tt ∧
  result (ServiceRegistry.has_service dom srv) w' = Return true ∧
  registered w' dom srv = Some f ∧
  (∀ d s, (d, s) ≠ (dom, srv) → registered w' d s = registered w d s) ∧
  (∃ event,
     fired w' = fired w ++ [event] ∧
     event_type event = EVENT_SERVICE_REGISTERED ∧
     data_dicts w' !! data event = Some (service_registered_data dom srv)) ∧
  (∀ v d s,
     result (ServiceRegistry.has_service d s) v = Return true ↔
     ∃ m names, result ServiceRegistry.services v = Return m ∧
                m !! d = Some names ∧ s ∈ names).
Proof.
  intros w'. subst w'. unfold exec, result.
  destruct (register_spec w dom srv f) as (ed & w' & E & Hreg & _ & Hdd & Hfi & _).
  rewrite E. cbn [fst snd]. split_and!.
  - done.
  - rewrite has_service_registered. cbn [fst]. rewrite Hreg.
    rewrite decide_True by done. by rewrite bool_decide_eq_true_2.
  - rewrite Hreg. by rewrite decide_True.
  - intros d s Hne. rewrite Hreg. rewrite decide_False; [done|].
    intros [-> ->]. done.
  - eexists. split; [exact Hfi|]. split; [done|]. simpl.
    by rewrite Hdd, lookup_insert_eq.
  - intros v d s. rewrite has_service_registered. cbn [fst].
    unfold ServiceRegistry.services, gets, registered. cbn [fst]. split.
    + intros [= Hb]. apply bool_decide_eq_true in Hb as [g Hg].
      destruct (_services v !! d) as [m|] eqn:Hm; [|done]. simpl in Hg.
      eexists _, _. split; [reflexivity|]. rewrite lookup_fmap, Hm. simpl.
      split; [reflexivity|]. apply list_elem_of_fmap. exists (s, g).
      split; [done|]. by apply elem_of_map_to_list.
    + intros (m & names & [= <-] & Hn & Hin). rewrite lookup_fmap in Hn.
      destruct (_services v !! d) as [m'|] eqn:Hm; [|done]. simpl in Hn.
      injection Hn as <-. apply list_elem_of_fmap in Hin as ([s' g] & -> & Hin).
      apply elem_of_map_to_list in Hin. simpl.
      f_equal. apply bool_decide_eq_true. by exists g.
Qed.

Lemma same_services_preorder : PreOrder same_services.
Proof.
  split; [by intros w|].
  intros w1 w2 w3 H1 H2. unfold same_services in *. by rewrite H2.
Qed.

#[local] Existing Instance same_services_preorder.

Ltac keep_services := keep same_services ltac:(done).

Lemma new_data_same_services d : preserves same_services (new_data d).
Proof. by intros w. Qed.

#[local] Hint Resolve new_data_same_services : core.

#[local] Hint Extern 1 (preserves same_services (read_data _)) =>
  apply read_data_keeps; apply _ : core.

Lemma fire_same_services t data origin :
  preserves same_services (EventBus.fire t data origin).
Proof.
  unfold EventBus.fire, Event.__init__, or_new_data, add_job. keep_services.
Qed.

(** A call that does not block does not register or drop a service. *)
Lemma call_same_services wait dom srv service_data :
  preserves same_services (ServiceRegistry.call wait dom srv service_data false).
Proof.
  pose proof fire_same_services.
  change (preserves same_services
    (call_id ← ServiceRegistry._generate_unique_id;
     event_data ← or_new_data service_data;
     _ ← data_setitem event_data ATTR_DOMAIN (VStr dom);
     _ ← data_setitem event_data ATTR_SERVICE (VStr srv);
     _ ← data_setitem event_data ATTR_SERVICE_CALL_ID (VStr call_id);
     _ ← EventBus.fire EVENT_CALL_SERVICE (Some event_data) local;
     mret (None : option bool))).
  unfold ServiceRegistry._generate_unique_id, or_new_data, data_setitem.
  keep_services.
Qed.

Lemma event_to_service_call_registered w event d dom srv f :
  data_dicts w !! data event = Some d →
  d !! ATTR_DOMAIN = Some (VStr dom) → d !! ATTR_SERVICE = Some (VStr srv) →
  registered w dom srv = Some f →
  ∃ sd w',
    ServiceRegistry._event_to_service_call event w = (Return tt, w') ∧
    pending w' = pending w ++ [mkJob EVENT_SERVICE (Execute f (mkServiceCall dom srv sd))] ∧
    data_dicts w !! sd = None ∧
    data_dicts w' !! sd = Some (delete ATTR_SERVICE (delete ATTR_DOMAIN d)) ∧
    (∀ x y, data_dicts w !! x = Some y → data_dicts w' !! x = Some y) ∧
    fired w' = fired w ∧ calls w' = calls w ∧ _listeners w' = _listeners w ∧
    _services w' = _services w ∧ flags w' = flags w.
Proof.
  intros Hd Hdom Hsrv Hreg. unfold ServiceRegistry._event_to_service_call.
  unfold mbind at 1, M_bind at 1, read_data at 1. rewrite Hd. simpl.
  set (d' := delete ATTR_SERVICE (delete ATTR_DOMAIN d)).
  destruct (new_data_spec d' w) as (sd & E & Hsd).
  rewrite (bind_Return _ _ _ _ _ E). clear E.
  set (w1 := set_data_dicts _ w).
  unfold mbind at 1, M_bind at 1, gets at 1. cbn beta iota.
  rewrite Hdom, Hsrv. unfold registered in Hreg.
  replace (_services w1) with (_services w) by done. rewrite Hreg.
  destruct (or_new_data_spec w1 (Some sd)) as (l & w2 & E & Hmore & Hc & Hne & He & Hdd).
  { simpl. rewrite lookup_insert_eq. eauto. }
  rewrite (bind_Return _ _ _ _ _ E). clear E.
  simpl in Hc, Hne, He, Hdd. rewrite lookup_insert_eq in Hc, Hne, He, Hdd.
  simpl in Hc, Hne, He, Hdd. pose proof (proj2 Hmore) as Ew2.
  exists l. eexists. split; [reflexivity|]. simpl.
  assert (data_dicts w !! l = None) as Hl.
  { destruct (decide (d' = ∅)) as [H0|H0].
    - specialize (He H0). destruct (decide (l = sd)) as [->|Hn].
      + by rewrite lookup_insert_eq in He.
      + by rewrite lookup_insert_ne in He.
    - destruct (Hne H0) as [[= <-] _]. done. }
  split_and!; try (by rewrite Ew2).
  - done.
  - intros x y Hx. apply (proj1 Hmore). simpl.
    rewrite lookup_insert_ne; [done|]. congruence.
Qed.

Lemma event_to_service_call_unknown w event d :
  data_dicts w !! data event = Some d →
  (∀ dom srv, d !! ATTR_DOMAIN = Some (VStr dom) →
              d !! ATTR_SERVICE = Some (VStr srv) → registered w dom srv = None) →
  ∃ w', ServiceRegistry._event_to_service_call event w = (Return tt, w') ∧
        more_data w w'.
Proof.
  intros Hd Hno. unfold ServiceRegistry._event_to_service_call.
  unfold mbind at 1, M_bind at 1, read_data at 1. rewrite Hd. simpl.
  set (d' := delete ATTR_SERVICE (delete ATTR_DOMAIN d)).
  destruct (new_data_spec d' w) as (sd & E & Hsd).
  rewrite (bind_Return _ _ _ _ _ E).
  destruct (new_data_more _ _ _ _ E) as (Hmore & _).
  set (w1 := set_data_dicts _ w) in *.
  unfold mbind at 1, M_bind at 1, gets at 1. cbn beta iota.
  exists w1. split; [|done].
  destruct (d !! ATTR_DOMAIN) as [[| |dom| |]|] eqn:Hdom; try done.
  destruct (d !! ATTR_SERVICE) as [[| |srv| |]|] eqn:Hsrv; try done.
  specialize (Hno dom srv eq_refl eq_refl). unfold registered in Hno.
  replace (_services w1) with (_services w) by done. by rewrite Hno.
Qed.

Lemma execute_service_spec w f call d id :
  data_dicts w !! call_data call = Some d →
  d !! ATTR_SERVICE_CALL_ID = Some id →
  ∃ ed w',
    ServiceRegistry._execute_service f call w = (Return tt, w') ∧
    calls w' = calls w ++ [Served f call] ∧
    data_dicts w !! ed = None ∧
    data_dicts w' = <[ed := {[ ATTR_SERVICE_CALL_ID := id ]}]> (data_dicts w) ∧
    fired w' = fired w ++ [mkEvent EVENT_SERVICE_EXECUTED ed local] ∧
    pending w'
    = pending w ++ jobs_of (mkEvent EVENT_SERVICE_EXECUTED ed local)
                     (snapshot w EVENT_SERVICE_EXECUTED) ∧
    _listeners w' = _listeners w ∧ flags w' = flags w.
Proof.
  intros Hd Hid. unfold ServiceRegistry._execute_service.
  unfold mbind at 1, M_bind at 1, modify at 1.
  set (w1 := set_calls _ w).
  assert (data_getitem (call_data call) ATTR_SERVICE_CALL_ID w1 = (Return id, w1)) as E.
  { unfold data_getitem, mbind, M_bind, read_data. simpl. rewrite Hd. simpl.
    by rewrite Hid. }
  rewrite (bind_Return _ _ _ _ _ E). clear E.
  destruct (new_data_spec {[ ATTR_SERVICE_CALL_ID := id ]} w1) as (ed & E & Hed).
  rewrite (bind_Return _ _ _ _ _ E). clear E.
  set (w2 := set_data_dicts _ w1).
  destruct (fire_spec w2 EVENT_SERVICE_EXECUTED (Some ed) local)
    as (ed' & w3 & _ & _ & _ & Hne & E3).
  { simpl. rewrite lookup_insert_eq. eauto. }
  destruct Hne as [[= <-] ->].
  { simpl. rewrite lookup_insert_eq. simpl. apply insert_non_empty. }
  rewrite E3. exists ed. eexists. split; [reflexivity|]. simpl. done.
Qed.

Lemma execute_service_no_id w f call d :
  data_dicts w !! call_data call = Some d →
  d !! ATTR_SERVICE_CALL_ID = None →
  ServiceRegistry._execute_service f call w
  = (Raise KeyError, set_calls (λ h, h ++ [Served f call]) w).
Proof.
  intros Hd Hid. unfold ServiceRegistry._execute_service.
  unfold mbind at 1, M_bind at 1, modify at 1.
  apply bind_Raise.
  unfold data_getitem, mbind, M_bind, read_data. simpl. rewrite Hd. simpl.
  by rewrite Hid.
Qed.

Lemma call_service_data_lookup w dom srv service_data :
  call_service_data w dom srv service_data !! ATTR_DOMAIN = Some (VStr dom) ∧
  call_service_data w dom srv service_data !! ATTR_SERVICE = Some (VStr srv) ∧
  delete ATTR_SERVICE (delete ATTR_DOMAIN (call_service_data w dom srv service_data))
  = service_call_data w service_data.
Proof.
  unfold call_service_data, service_call_data. split_and!.
  - rewrite !lookup_insert_ne by done. by rewrite lookup_insert_eq.
  - rewrite lookup_insert_ne by done. by rewrite lookup_insert_eq.
  - rewrite (delete_insert_ne _ ATTR_DOMAIN ATTR_SERVICE_CALL_ID) by done.
    rewrite (delete_insert_ne _ ATTR_SERVICE ATTR_SERVICE_CALL_ID) by done.
    f_equal.
    rewrite (delete_insert_ne _ ATTR_DOMAIN ATTR_SERVICE) by done.
    rewrite delete_insert_eq. by rewrite delete_insert_eq.
Qed.

Lemma job_handler_Execute p f call w :
  job_handler (mkJob p (Execute f call)) w
  = (Return tt, exec (ServiceRegistry._execute_service f call) w).
Proof. done. Qed.

Lemma exec_job_Listen p func event w :
  exec (job_handler (mkJob p (Listen func event))) w
  = exec (call_listener func event) w.
Proof. done. Qed.

Lemma exec_job_Execute p f call w :
  exec (job_handler (mkJob p (Execute f call))) w
  = exec (ServiceRegistry._execute_service f call) w.
Proof. done. Qed.

(** X11.  From a call to the service.  A call, without blocking, of a
    registered service returns no value and fires one [call_service]
    event, for which every listener of the bus gets a job.  When a worker
    runs the job of the service registry, the registry hands the pool one
    job, of priority [EVENT_SERVICE], for the function of the service; the
    call it carries holds the domain, the service and, as data, the data of
    the caller without the keys [domain] and [service] and with the id of
    the call.  When a worker runs that job, the function is called once,
    with that call, and then one [service_executed] event is fired whose
    data hold the id of the call and nothing else. *)
Theorem call_reaches_service wait w dom srv service_data f :
  data_arg w service_data →
  registered w dom srv = Some f →
  ∃ event w1 call,
    ServiceRegistry.call wait dom srv service_data false w = (Return None, w1) ∧
    fired w1 = fired w ++ [event] ∧ event_type event = EVENT_CALL_SERVICE ∧
    pending w1 = pending w ++ jobs_of event (snapshot w EVENT_CALL_SERVICE) ∧
    let w2 := exec (job_handler
                      (mkJob EVENT_SERVICE (Listen _event_to_service_call event))) w1 in
    pending w2 = pending w1 ++ [mkJob EVENT_SERVICE (Execute f call)] ∧
    domain call = dom ∧ service call = srv ∧
    data_dicts w2 !! call_data call = Some (service_call_data w service_data) ∧
    fired w2 = fired w1 ∧ calls w2 = calls w ∧
    let w3 := exec (job_handler (mkJob EVENT_SERVICE (Execute f call))) w2 in
    calls w3 = calls w ++ [Served f call] ∧
    ∃ executed,
      fired w3 = fired w1 ++ [executed] ∧
      event_type executed = EVENT_SERVICE_EXECUTED ∧
      data_dicts w3 !! data executed
      = Some {[ ATTR_SERVICE_CALL_ID := VStr (next_call_id w) ]}.
Proof.
  intros Ha Hreg.
  destruct (call_spec wait w dom srv service_data false Ha)
    as (ed & w1 & E & _ & _ & Hdd & Hfi & Hpe & _ & _ & _ & _ & _ & Hca & _).
  simpl in E.
  assert (_services w1 = _services w) as Hse.
  { pose proof (call_same_services wait dom srv service_data w) as H.
    unfold exec in H. by rewrite E in H. }
  destruct (call_service_data_lookup w dom srv service_data) as (Hdom & Hsrv & Hdel).
  destruct (event_to_service_call_registered w1 (mkEvent EVENT_CALL_SERVICE ed local)
              (call_service_data w dom srv service_data) dom srv f)
    as (sd & w2 & E2 & Hpe2 & _ & Hsd & _ & Hfi2 & Hca2 & _ & _); try done.
  { simpl. by rewrite Hdd, lookup_insert_eq. }
  { unfold registered. by rewrite Hse. }
  rewrite Hdel in Hsd.
  destruct (execute_service_spec w2 f (mkServiceCall dom srv sd)
              (service_call_data w service_data) (VStr (next_call_id w)) Hsd)
    as (ed3 & w3 & E3 & Hca3 & _ & Hdd3 & Hfi3 & _).
  { unfold service_call_data. by rewrite lookup_insert_eq. }
  exists (mkEvent EVENT_CALL_SERVICE ed local), w1, (mkServiceCall dom srv sd).
  split; [exact E|]. split; [exact Hfi|]. split; [done|]. split; [exact Hpe|].
  cbv zeta. rewrite exec_job_Listen.
  change (call_listener _event_to_service_call)
    with ServiceRegistry._event_to_service_call.
  assert (exec (ServiceRegistry._event_to_service_call
                  (mkEvent EVENT_CALL_SERVICE ed local)) w1 = w2) as ->.
  { unfold exec. by rewrite E2. }
  split; [exact Hpe2|]. split; [done|]. split; [done|]. split; [exact Hsd|].
  split; [exact Hfi2|]. split; [by rewrite Hca2|].
  rewrite exec_job_Execute. unfold exec. rewrite E3. cbn [snd].
  split; [by rewrite Hca3, Hca2, Hca|].
  eexists. split; [by rewrite Hfi3, Hfi2|]. split; [done|]. simpl.
  by rewrite Hdd3, lookup_insert_eq.
Qed.

Lemma call_reaches_service_witness :
  let w := ping_registered in
  data_arg w None ∧ registered w "test" "ping" = Some 5%nat ∧
  ∃ event w1 call,
    ServiceRegistry.call (Event_wait []) "test" "ping" None false w = (Return None, w1) ∧
    let w2 := exec (job_handler
                      (mkJob EVENT_SERVICE (Listen _event_to_service_call event))) w1 in
    let w3 := exec (job_handler (mkJob EVENT_SERVICE (Execute 5%nat call))) w2 in
    calls w3 = calls w ++ [Served 5%nat call] ∧
    data_dicts w2 !! call_data call
    = Some {[ ATTR_SERVICE_CALL_ID := VStr "7-1" ]}.
Proof.
  split; [exact I|]. split; [reflexivity|].
  destruct (call_reaches_service (Event_wait []) ping_registered "test" "ping" None
              5%nat I eq_refl)
    as (event & w1 & call & E & _ & _ & _ & _ & _ & _ & Hd & _ & _ & Hc & _).
  exists event, w1, call. split; [exact E|]. split; [exact Hc|exact Hd].
Defined.

(** X12.  What the dispatch of services drops.  For a [call_service]
    event that names no registered service (no string under [domain] or
    [service], or a pair that is not registered), the job of the service
    registry hands no job to the pool, fires no event and calls no
    function: no [service_executed] event will answer it.  For a call whose
    data hold no [service_call_id], the job of the service calls the
    function, and then ends in a [KeyError] that the worker swallows: no
    [service_executed] event is fired. *)
Theorem dispatch_drops w :
  (∀ event d,
     data_dicts w !! data event = Some d →
     (∀ dom srv, d !! ATTR_DOMAIN = Some (VStr dom) →
                 d !! ATTR_SERVICE = Some (VStr srv) → registered w dom srv = None) →
     let w' := exec (job_handler
                       (mkJob EVENT_SERVICE (Listen _event_to_service_call event))) w in
     pending w' = pending w ∧ fired w' = fired w ∧ calls w' = calls w ∧
     flags w' = flags w ∧ _listeners w' = _listeners w) ∧
  (∀ f call d,
     data_dicts w !! call_data call = Some d →
     d !! ATTR_SERVICE_CALL_ID = None →
     result (ServiceRegistry._execute_service f call) w = Raise KeyError ∧
     job_handler (mkJob EVENT_SERVICE (Execute f call)) w
     = (Return tt, set_calls (λ h, h ++ [Served f call]) w)).
Proof.
  split.
  - intros event d Hd Hno w'. subst w'. rewrite exec_job_Listen.
    change (call_listener _event_to_service_call)
      with ServiceRegistry._event_to_service_call.
    destruct (event_to_service_call_unknown w event d Hd Hno) as (w' & E & [_ Ew]).
    unfold exec. rewrite E. cbn [snd]. by rewrite Ew.
  - intros f call d Hd Hid. rewrite job_handler_Execute. unfold exec, result.
    by rewrite (execute_service_no_id w f call d Hd Hid).
Qed.

Lemma dispatch_drops_witness :
  let w := exec (new_data {[ ATTR_DOMAIN := VStr "test"; ATTR_SERVICE := VStr "ping" ]})
             (initial 0 7) in
  let event := mkEvent EVENT_CALL_SERVICE 1%positive local in
  let call := mkServiceCall "test" "ping" 1%positive in
  let w' := exec (job_handler
                    (mkJob EVENT_SERVICE (Listen _event_to_service_call event))) w in
  (pending w' = pending w ∧ fired w' = fired w ∧ calls w' = calls w) ∧
  job_handler (mkJob EVENT_SERVICE (Execute 5%nat call)) w
  = (Return tt, set_calls (λ h, h ++ [Served 5%nat call]) w).
Proof.
  intros w event call w'.
  destruct (dispatch_drops w) as [H1 H2].
  assert (data_dicts w !! 1%positive
          = Some {[ ATTR_DOMAIN := VStr "test"; ATTR_SERVICE := VStr "ping" ]})
    as Hd by reflexivity.
  split.
  - destruct (H1 event _ Hd) as (Hp & Hf & Hc & _); [|by split_and!].
    intros dom srv _ _. reflexivity.
  - exact (proj2 (H2 5%nat call _ Hd eq_refl)).
Defined.

(** ** Tracking state changes *)

(** X13.  Patterns.  A subject matches the pattern made of a parameter in
    exactly four cases: the parameter is [None]; it is the string
    [MATCH_ALL]; it is the subject itself; it is an iterable that holds the
    subject.  So the empty iterable matches nothing, and an iterable that
    holds [MATCH_ALL] matches only that string. *)
Theorem matcher_spec subject parameter :
  (_matcher subject (_process_match_param parameter) = true ↔
   parameter = One SNone ∨ parameter = One (SStr MATCH_ALL) ∨
   parameter = One subject ∨ ∃ l, parameter = Several l ∧ subject ∈ l) ∧
  _matcher subject (_process_match_param (Several [])) = false ∧
  (_matcher subject (_process_match_param (Several [SStr MATCH_ALL])) = true ↔
   subject = SStr MATCH_ALL).
Proof.
  split_and!.
  - destruct parameter as [[|z|s]|l]; simpl.
    + split; [tauto|done].
    + rewrite bool_decide_eq_true, list_elem_of_singleton. split.
      * intros ->. tauto.
      * intros [|[|[[= ->]|(l & [=] & _)]]]; done.
    + destruct (decide (s = MATCH_ALL)) as [->|Hs]; simpl.
      * split; [tauto|done].
      * rewrite bool_decide_eq_true, list_elem_of_singleton. split.
        -- intros ->. tauto.
        -- intros [|[[= ?]|[[= ->]|(l & [=] & _)]]]; done.
    + rewrite bool_decide_eq_true. split.
      * intros Hin. right. right. right. by exists l.
      * intros [|[|[|(l' & [= <-] & Hin)]]]; done.
  - done.
  - simpl. by rewrite bool_decide_eq_true, list_elem_of_singleton.
Qed.

(** X14.  A listener of [track_change] and [set].  For the event that a
    changing [set] fires, the listener that [track_change] makes of
    [entity_ids], [from_state] and [to_state] calls [action], with the
    lowercased entity id, the old [State] object (or [None]) and the new
    one, exactly when the lowercased entity id is among the lowercased
    [entity_ids], the state of the old [State] ([None] for a new entity)
    matches [from_state], and [str(new_state)] matches [to_state];
    otherwise it returns without a call.  It changes nothing. *)
Theorem track_change_hears_set w eid new attrs entity_ids from_state to_state :
  let key := Str.lower eid in
  let w1 := exec (StateMachine.set eid new attrs) w in
  registry_sound w → attrs_arg w attrs →
  is_Some (ENTITY_ID_PATTERN_match key) →
  same_pair w key (str new) (attrs_contents w attrs) = false →
  ∃ event l,
    fired w1 = fired w ++ [event] ∧ _states w1 !! key = Some l ∧
    StateMachine.state_listener (StateMachine.lower_entity_ids entity_ids)
      (_process_match_param from_state) (_process_match_param to_state) event w1
    = (Return
         (if bool_decide (key ∈ StateMachine.lower_entity_ids entity_ids)
             && _matcher (old_subject w key) (_process_match_param from_state)
             && _matcher (SStr (str new)) (_process_match_param to_state)
          then StateMachine.Calls (VStr key) (old_value w key) (VState l)
          else StateMachine.No_call),
       w1).
Proof.
  intros key w1 [Hok _] Ha Hv Hsame.
  destruct (set_changing w eid new attrs Hok Ha Hsame Hv)
    as (l & a & dl & w' & E & Hfresh & Hso & _ & _ & Hst & _ & Hdd & Hfi & _).
  fold key in Hso, Hst, Hdd.
  assert (w1 = w') as -> by (subst w1; unfold exec; by rewrite E).
  exists (mkEvent EVENT_STATE_CHANGED dl local), l.
  split; [exact Hfi|]. split; [by rewrite Hst, lookup_insert_eq|].
  destruct (state_changed_data_lookup w key l) as (Hd1 & Hd2 & Hd3).
  unfold StateMachine.state_listener.
  unfold mbind at 1, M_bind at 1, read_data at 1. simpl data.
  rewrite Hdd, lookup_insert_eq. simpl. rewrite Hd1.
  set (ids := StateMachine.lower_entity_ids entity_ids).
  assert (bool_decide (VStr key ∈ VStr <$> ids) = bool_decide (key ∈ ids)) as ->.
  { apply bool_decide_ext. rewrite list_elem_of_fmap. split.
    - by intros (y & [= ->] & Hy).
    - intros Hy. by exists key. }
  destruct (bool_decide (key ∈ ids)); [|done]. simpl.
  rewrite Hd3, Hd2.
  assert (StateMachine.state_of (VState l) w' = (Return (Some (SStr (str new))), w'))
    as Enew.
  { unfold StateMachine.state_of.
    erewrite (bind_Return _ _ w' _ w');
      [|apply read_state_Some; rewrite Hso; apply lookup_insert_eq].
    done. }
  assert ((match VState <$> _states w !! key with
           | Some old => StateMachine.state_of old
           | None => mret (Some SNone)
           end) w' = (Return (Some (old_subject w key)), w')) as Eold.
  { unfold old_subject, stored.
    destruct (_states w !! key) as [o|] eqn:Ho; simpl; [|done].
    destruct (Hok key o Ho) as (s & b & Hs & Hb). rewrite Hs. simpl. rewrite Hb.
    simpl. unfold StateMachine.state_of.
    erewrite (bind_Return _ _ w' s w'); [done|].
    apply read_state_Some. rewrite Hso, lookup_insert_ne; [done|]. congruence. }
  rewrite (bind_Return _ _ _ _ _ Eold).
  destruct (_matcher (old_subject w key) (_process_match_param from_state)); [|done].
  rewrite (bind_Return _ _ _ _ _ Enew). simpl.
  unfold old_value.
  destruct (_matcher (SStr (str new)) (_process_match_param to_state));
    destruct (_states w !! key); done.
Qed.

Lemma track_change_hears_set_witness :
  let w := initial 0 0 in
  let w1 := exec (StateMachine.set "Light.Kitchen" (SStr "on") None) w in
  registry_sound w ∧ attrs_arg w None ∧
  is_Some (ENTITY_ID_PATTERN_match (Str.lower "Light.Kitchen")) ∧
  same_pair w (Str.lower "Light.Kitchen") (str (SStr "on")) (attrs_contents w None)
  = false ∧
  ∃ event l,
    fired w1 = fired w ++ [event] ∧
    StateMachine.state_listener ["light.kitchen"] Match_all (Allowed [SStr "on"])
      event w1
    = (Return (StateMachine.Calls (VStr "light.kitchen") VNone (VState l)), w1) ∧
    StateMachine.state_listener ["light.kitchen"] (Allowed [SStr "off"]) Match_all
      event w1
    = (Return StateMachine.No_call, w1).
Proof.
  assert (is_Some (ENTITY_ID_PATTERN_match (Str.lower "Light.Kitchen"))) as Hv
    by (vm_compute; eauto).
  split; [apply initial_sound|]. split; [exact I|]. split; [exact Hv|].
  split; [reflexivity|].
  destruct (track_change_hears_set (initial 0 0) "Light.Kitchen" (SStr "on") None
              (inl "LIGHT.KITCHEN") (One SNone) (One (SStr "on"))
              (initial_sound 0 0) I Hv eq_refl)
    as (event & l & Hfi & Hl & E1).
  destruct (track_change_hears_set (initial 0 0) "Light.Kitchen" (SStr "on") None
              (inl "LIGHT.KITCHEN") (One (SStr "off")) (One SNone)
              (initial_sound 0 0) I Hv eq_refl)
    as (event' & l' & Hfi' & Hl' & E2).
  rewrite Hfi in Hfi'. apply app_inv_head in Hfi'. injection Hfi' as <-.
  exists event, l. split; [exact Hfi|]. split; [exact E1|exact E2].
Defined.

(** ** Subscribing and unsubscribing *)

Lemma set_listeners_same w ls : ls = _listeners w → set_listeners (λ _, ls) w = w.
Proof. intros ->. by destruct w. Qed.

Lemma listen_then_remove_eq w t l b1 b2 :
  EventBus.get w t ++ [l] = b1 ++ l :: b2 → l ∉ b1 →
  listen_then_remove t l w
  = (Return tt,
     set_listeners (λ _, if decide (b1 ++ b2 = []) then delete t (_listeners w)
                         else <[t := b1 ++ b2]> (_listeners w)) w).
Proof.
  intros Hb Hn. unfold listen_then_remove.
  rewrite (bind_Return _ _ _ _ _ (listen_spec w t l)).
  rewrite (remove_listener_present _ t l b1 b2); [|simpl; by rewrite lookup_insert_eq, Hb|done].
  f_equal. destruct w. unfold set_listeners. simpl. f_equal.
  case_decide.
  - by rewrite delete_insert_eq.
  - by rewrite insert_insert_eq.
Qed.

Lemma listen_then_remove_restores w t l :
  buckets_nonempty w → l ∉ EventBus.get w t →
  listen_then_remove t l w = (Return tt, w).
Proof.
  intros Hne Hn.
  rewrite (listen_then_remove_eq w t l (EventBus.get w t) []); [|done|done].
  f_equal. apply set_listeners_same. rewrite app_nil_r.
  unfold EventBus.get in *. case_decide as E.
  - destruct (_listeners w !! t) as [b|] eqn:Hb; [|by apply delete_id].
    simpl in E. by apply (Hne t) in Hb.
  - destruct (_listeners w !! t) as [b|] eqn:Hb; [|done].
    by apply insert_id.
Qed.

(** X15.  [listen] followed by [remove_listener].  For a listener that is
    not in the bucket of the event type, on a bus without an empty bucket,
    the two calls leave the bus exactly as it was.  For a listener that is
    in the bucket already, it is its first entry that is taken out and the
    new entry stays: the listener has as many entries as before, and the
    one that was first is now last in the bucket. *)
Theorem listen_then_remove_roundtrip w t l :
  buckets_nonempty w →
  (l ∉ EventBus.get w t → listen_then_remove t l w = (Return tt, w)) ∧
  (∀ b1 b2, EventBus.get w t = b1 ++ l :: b2 → l ∉ b1 →
     ∃ w', listen_then_remove t l w = (Return tt, w') ∧
           EventBus.get w' t = b1 ++ b2 ++ [l] ∧
           ∀ t', t' ≠ t → EventBus.get w' t' = EventBus.get w t').
Proof.
  intros Hne. split; [by apply listen_then_remove_restores|].
  intros b1 b2 Hb Hn.
  rewrite (listen_then_remove_eq w t l b1 (b2 ++ [l])); [|by rewrite Hb, <- app_assoc|done].
  eexists. split; [reflexivity|].
  case_decide as E; [by destruct b1, b2|].
  split.
  - unfold EventBus.get. simpl. by rewrite lookup_insert_eq.
  - intros t' Ht. unfold EventBus.get. simpl. by rewrite lookup_insert_ne.
Qed.

Lemma listen_then_remove_roundtrip_witness :
  let w := exec (_ ← EventBus.listen "x" (Callback 1);
                 EventBus.listen "x" (Callback 2)) (initial 0 0) in
  buckets_nonempty w ∧
  (Callback 3 ∉ EventBus.get w "x") ∧
  listen_then_remove "x" (Callback 3) w = (Return tt, w) ∧
  ∃ w', listen_then_remove "x" (Callback 1) w = (Return tt, w') ∧
        EventBus.get w' "x" = [Callback 2; Callback 1].
Proof.
  set (w := exec (_ ← EventBus.listen "x" (Callback 1);
                  EventBus.listen "x" (Callback 2)) (initial 0 0)).
  assert (buckets_nonempty w) as Hw.
  { unfold w. erewrite exec_bind; [|reflexivity].
    apply listen_buckets. apply (listen_buckets "x" (Callback 1) (initial 0 0)).
    apply initial_buckets. }
  assert (Callback 3 ∉ EventBus.get w "x") as Hn.
  { vm_compute. intros H. by repeat (apply elem_of_cons in H as [H|H]; [done|]);
      apply elem_of_nil in H. }
  destruct (listen_then_remove_roundtrip w "x" (Callback 1) Hw) as [_ H2].
  destruct (H2 [] [Callback 2] eq_refl) as (w' & E & Hg & _);
    [apply not_elem_of_nil|].
  split; [exact Hw|]. split; [exact Hn|].
  split; [exact (proj1 (listen_then_remove_roundtrip w "x" (Callback 3) Hw) Hn)|].
  exists w'. split; [exact E|exact Hg].
Defined.

(** ** A one-time listener from subscription to its call *)

Lemma guards_allocated_fresh w t t' target :
  guards_allocated w → onetime_listener (next_fn w) t' target ∉ EventBus.get w t.
Proof. intros [_ H] Hin. apply H in Hin. lia. Qed.

Lemma remove_listener_listeners t l w w' :
  _listeners w = _listeners w' →
  _listeners (exec (EventBus.remove_listener t l) w)
  = _listeners (exec (EventBus.remove_listener t l) w').
Proof.
  intros E. unfold exec, EventBus.remove_listener, modify. simpl. by rewrite E.
Qed.

Lemma enqueued_by_fire w t data origin :
  data_arg w data →
  ∃ event, fired (exec (EventBus.fire t data origin) w) = fired w ++ [event] ∧
           event_type event = t ∧
           enqueued_by (EventBus.fire t data origin) w = jobs_of event (snapshot w t) ∧
           _listeners (exec (EventBus.fire t data origin) w) = _listeners w ∧
           run_attr (exec (EventBus.fire t data origin) w) = run_attr w ∧
           calls (exec (EventBus.fire t data origin) w) = calls w.
Proof.
  intros Ha. destruct (fire_spec w t data origin Ha) as (d & w1 & _ & [_ Ew] & _ & _ & E).
  exists (mkEvent t d origin). unfold enqueued_by, exec. rewrite E. simpl.
  rewrite Ew. simpl. split_and!; try done.
  by rewrite drop_app_length.
Qed.

Lemma onetime_listener_first fn t f event w :
  fn ∉ run_attr w →
  exec (call_listener (onetime_listener fn t (Callback f)) event) w
  = set_calls (λ h, h ++ [Called f event])
      (exec (EventBus.remove_listener t (onetime_listener fn t (Callback f)))
         (set_run_attr (λ r, {[fn]} ∪ r) w)).
Proof. intros Hn. unfold exec. simpl. run. by rewrite bool_decide_eq_false_2. Qed.

Lemma onetime_listener_later fn t target event w :
  fn ∈ run_attr w →
  exec (call_listener (onetime_listener fn t target) event) w = w.
Proof. intros Hn. unfold exec. simpl. run. by rewrite bool_decide_eq_true_2. Qed.

(** X16.  A one-time listener from subscription to its call.  After
    [listen_once(t, f)], for a callable [f] of a component and an event
    type other than [MATCH_ALL], a [fire(t)] hands the pool exactly one job
    for the new closure.  When a worker runs that job, [f] is called once,
    with the event, and the bus has the listeners that it had before
    [listen_once]: a later [fire(t)] hands the pool no job for the closure,
    and a later run of the closure does nothing. *)
Theorem listen_once_hears_once w t f data origin :
  let guard := onetime_listener (next_fn w) t (Callback f) in
  let w1 := exec (EventBus.listen_once t (Callback f)) w in
  let w2 := exec (EventBus.fire t data origin) w1 in
  buckets_nonempty w → guards_allocated w → data_arg w data → t ≠ MATCH_ALL →
  ∃ event,
    fired w2 = fired w1 ++ [event] ∧ event_type event = t ∧
    jobs_for guard (enqueued_by (EventBus.fire t data origin) w1) = 1%nat ∧
    let w3 := exec (job_handler (mkJob (JobPriority.from_event_type t)
                                   (Listen guard event))) w2 in
    calls w3 = calls w ++ [Called f event] ∧
    _listeners w3 = _listeners w ∧
    (∀ data' origin', data_arg w3 data' →
       jobs_for guard (enqueued_by (EventBus.fire t data' origin') w3) = 0%nat) ∧
    (∀ p event', exec (job_handler (mkJob p (Listen guard event'))) w3 = w3).
Proof.
  intros guard w1 w2 Hne Hg Ha Ht.
  pose proof (guards_allocated_fresh w) as Hfresh.
  assert (w1 = set_listeners <[t := EventBus.get w t ++ [guard]]> (set_next_fn S w))
    as Ew1.
  { subst w1. unfold exec. by rewrite listen_once_spec. }
  assert (data_arg w1 data) as Ha1 by (rewrite Ew1; by destruct data).
  destruct (enqueued_by_fire w1 t data origin Ha1)
    as (event & Hfi & Het & Henq & Hl2 & Hr2 & Hc2).
  fold w2 in Hfi, Hl2, Hr2, Hc2. exists event.
  split; [exact Hfi|]. split; [exact Het|]. split.
  { rewrite Henq, jobs_for_jobs_of. unfold snapshot. rewrite registrations_app.
    rewrite Ew1 at 1 2. rewrite !get_set_listeners. simpl.
    rewrite lookup_insert_ne by done. rewrite lookup_insert_eq. simpl.
    rewrite registrations_app. simpl. rewrite decide_True by done.
    pose proof (proj2 (registrations_0 guard (default [] (_listeners w !! MATCH_ALL)))
                  (Hfresh MATCH_ALL t (Callback f) Hg)) as ->.
    pose proof (proj2 (registrations_0 guard (EventBus.get w t))
                  (Hfresh t t (Callback f) Hg)) as ->.
    done. }
  cbv zeta. rewrite exec_job_Listen.
  assert (next_fn w ∉ run_attr w2) as Hrun.
  { rewrite Hr2, Ew1. simpl. intros Hin%(proj1 Hg). lia. }
  set (w3 := exec (call_listener guard event) w2).
  assert (w3 = set_calls (λ h, h ++ [Called f event])
                 (exec (EventBus.remove_listener t guard)
                    (set_run_attr (λ r, {[next_fn w]} ∪ r) w2))) as Ew3.
  { subst w3. by apply onetime_listener_first. }
  assert (_listeners w3 = _listeners w) as Hl3.
  { rewrite Ew3.
    transitivity (_listeners (exec (EventBus.remove_listener t guard)
                                (set_run_attr (λ r, {[next_fn w]} ∪ r) w2)));
      [done|].
    rewrite (remove_listener_listeners t guard _ w1) by (simpl; by rewrite Hl2).
    pose proof (listen_then_remove_restores w t guard Hne
                  (Hfresh t t (Callback f) Hg)) as E.
    unfold listen_then_remove in E.
    rewrite (bind_Return _ _ _ _ _ (listen_spec w t guard)) in E.
    rewrite Ew1.
    rewrite (remove_listener_listeners t guard _
               (set_listeners <[t := EventBus.get w t ++ [guard]]> w)) by done.
    unfold exec. by rewrite E. }
  split; [by rewrite Ew3; simpl; rewrite Hc2, Ew1|].
  split; [exact Hl3|]. split.
  - intros data' origin' Ha'.
    destruct (enqueued_by_fire w3 t data' origin' Ha') as (e' & _ & _ & -> & _).
    rewrite jobs_for_jobs_of. apply registrations_0.
    unfold snapshot, EventBus.get. rewrite Hl3.
    apply not_elem_of_app. split; by apply Hfresh.
  - intros p event'. rewrite exec_job_Listen. apply onetime_listener_later.
    rewrite Ew3. simpl. apply elem_of_union_l. by apply elem_of_singleton.
Qed.

Lemma guards_allocated_initial t i : guards_allocated (initial t i).
Proof.
  split.
  - intros n Hn. simpl in Hn. set_solver.
  - intros t' fn t'' target Hin. exfalso. unfold EventBus.get, initial in Hin.
    simpl in Hin. destruct (decide (t' = EVENT_CALL_SERVICE)) as [->|Hne].
    + rewrite lookup_singleton_eq in Hin. simpl in Hin.
      apply list_elem_of_singleton in Hin. discriminate.
    + rewrite lookup_singleton_ne in Hin by done. simpl in Hin.
      by apply elem_of_nil in Hin.
Qed.

Lemma listen_once_hears_once_witness :
  let w := initial 0 0 in
  let guard := onetime_listener 0 "x" (Callback 1) in
  let w1 := exec (EventBus.listen_once "x" (Callback 1)) w in
  let w2 := exec (EventBus.fire "x" None local) w1 in
  buckets_nonempty w ∧ guards_allocated w ∧ data_arg w None ∧ "x" ≠ MATCH_ALL ∧
  ∃ event,
    fired w2 = fired w1 ++ [event] ∧
    let w3 := exec (job_handler (mkJob (JobPriority.from_event_type "x")
                                   (Listen guard event))) w2 in
    calls w3 = calls w ++ [Called 1 event] ∧ _listeners w3 = _listeners w.
Proof.
  split; [apply initial_buckets|]. split; [apply guards_allocated_initial|].
  split; [exact I|]. split; [done|].
  destruct (listen_once_hears_once (initial 0 0) "x" 1%nat None local
              (initial_buckets 0 0) (guards_allocated_initial 0 0) I)
    as (event & Hfi & _ & _ & Hc & Hl & _); [done|].
  exists event. split; [exact Hfi|]. split; [exact Hc|exact Hl].
Defined.

(** ** States to and from dictionaries *)

(** X17.  [State.from_dict] by cases.  Without the key [entity_id] or the
    key [state] it returns [None] and builds nothing.  With both keys and
    an entity id that does not match the pattern it raises
    [InvalidEntityFormatError].  Otherwise it returns a new [State] with
    the lowercased entity id, the state, the contents of the attributes
    (none when the key is absent), the time of the call as [last_updated],
    and as [last_changed] the whole second of what [str_to_datetime] made
    of the key [last_changed], or of the time of the call when the key is
    absent, empty or not a time. *)
Theorem from_dict_by_cases std w j :
  attrs_arg w (json_attributes j) →
  (json_entity_id j = None ∨ json_state j = None →
     State.from_dict std j w = (Return None, w)) ∧
  (∀ eid st, json_entity_id j = Some eid → json_state j = Some st →
     ENTITY_ID_PATTERN_match eid = None →
     State.from_dict std j w = (Raise InvalidEntityFormatError, w)) ∧
  (∀ eid st, json_entity_id j = Some eid → json_state j = Some st →
     is_Some (ENTITY_ID_PATTERN_match eid) →
     ∃ l w' s,
       State.from_dict std j w = (Return (Some l), w') ∧
       state_objs w !! l = None ∧ state_objs w' !! l = Some s ∧
       entity_id s = Str.lower eid ∧ state s = st ∧
       last_updated s = clock w ∧
       last_changed s
       = strip_microseconds (default (clock w) (parsed_last_changed std j)) ∧
       attr_dicts w' !! attributes s
       = Some (attrs_contents w (json_attributes j))).
Proof.
  intros Ha. unfold State.from_dict. split_and!.
  - intros [->| ->]; [done|]. by destruct (json_entity_id j).
  - intros eid st -> -> Hm.
    apply bind_Raise. by apply State_init_raises.
  - intros eid st -> -> Hm.
    destruct (State_init_returns w eid st (json_attributes j)
                (parsed_last_changed std j) Hm Ha)
      as (l & a & w1 & _ & E & Hfresh & Hmore & Hc & _).
    fold (parsed_last_changed std j).
    rewrite (bind_Return _ _ _ _ _ E).
    eexists l, _, _. split; [reflexivity|]. simpl. rewrite lookup_insert_eq.
    split_and!; done.
Qed.

Lemma from_dict_by_cases_witness :
  let w := initial 1500000 0 in
  let j := mkJson (Some "Light.Kitchen") (Some "on") None (Some "") in
  attrs_arg w (json_attributes j) ∧
  State.from_dict (λ _, Some 0) (mkJson None (Some "on") None None) w
  = (Return None, w) ∧
  ∃ l w' s,
    State.from_dict (λ _, Some 0) j w = (Return (Some l), w') ∧
    state_objs w' !! l = Some s ∧
    entity_id s = "light.kitchen" ∧ last_changed s = 1000000.
Proof.
  split; [exact I|]. split; [reflexivity|].
  destruct (from_dict_by_cases (λ _, Some 0) (initial 1500000 0)
              (mkJson (Some "Light.Kitchen") (Some "on") None (Some "")) I)
    as (_ & _ & H).
  destruct (H "Light.Kitchen" "on" eq_refl eq_refl) as (l & w' & s & E & _ & Hs & He & _ & _ & Hc & _).
  { vm_compute. eauto. }
  exists l, w', s. split; [exact E|]. split; [exact Hs|]. split; [exact He|exact Hc].
Defined.

(** X18.  [as_dict] hands out the attributes themselves.  The dictionary
    of a [State] holds, under [attributes], the [dict] of the [State], not
    a copy.  So the [State] that [from_dict] reads back from it is another
    object that shares its attributes with the first when they are not
    empty: a write to the attributes of one is a write to those of the
    other.  When they are empty, the [State] read back has a new [dict]. *)
Theorem as_dict_shares_attributes dts std w self s d :
  state_objs w !! self = Some s →
  attr_dicts w !! attributes s = Some d →
  is_Some (ENTITY_ID_PATTERN_match (entity_id s)) →
  State.as_dict dts self w
  = (Return (mkJson (Some (entity_id s)) (Some (state s)) (Some (attributes s))
               (Some (dts (last_changed s)))), w) ∧
  ∃ other w' s',
    (j ← State.as_dict dts self; State.from_dict std j) w = (Return (Some other), w') ∧
    other ≠ self ∧ state_objs w' !! other = Some s' ∧
    (d ≠ ∅ → attributes s' = attributes s ∧
             ∀ key value,
               attr_dicts (exec (attrs_setitem (attributes s') key value) w')
                 !! attributes s = Some (<[key := value]> d)) ∧
    (d = ∅ → attr_dicts w !! attributes s' = None).
Proof.
  intros Hs Hd Hm.
  assert (State.as_dict dts self w
          = (Return (mkJson (Some (entity_id s)) (Some (state s)) (Some (attributes s))
                       (Some (dts (last_changed s)))), w)) as Eas.
  { unfold State.as_dict. by rewrite (bind_Return _ _ _ _ _ (read_state_Some w self s Hs)). }
  split; [exact Eas|].
  rewrite (bind_Return _ _ _ _ _ Eas). unfold State.from_dict. simpl.
  destruct (State_init_returns w (entity_id s) (state s) (Some (attributes s))
              (if Str.nonempty (dts (last_changed s))
               then std (dts (last_changed s)) else None) Hm)
    as (l & a & w1 & _ & E & Hfresh & Hmore & Hc & Hne & He).
  { simpl. eauto. }
  rewrite (bind_Return _ _ _ _ _ E).
  simpl in Hc, Hne, He. rewrite Hd in Hc, Hne, He. simpl in Hc, Hne, He.
  eexists l, _, _. split; [reflexivity|].
  split; [congruence|]. simpl. rewrite lookup_insert_eq. split; [done|]. simpl.
  split.
  - intros H0. destruct (Hne H0) as [[= <-] ->]. split; [done|].
    intros key value. unfold exec, attrs_setitem, modify. simpl.
    by rewrite lookup_alter_eq, Hd.
  - exact He.
Qed.

Lemma as_dict_shares_attributes_witness :
  let w := exec (a ← new_attrs {[ "bri" := SInt 128 ]};
                 State.__init__ "light.kitchen" "on" (Some a) None) (initial 0 0) in
  let s := mkState "light.kitchen" "on" 1%positive 0 0 in
  state_objs w !! 1%positive = Some s ∧
  attr_dicts w !! attributes s = Some {[ "bri" := SInt 128 ]} ∧
  is_Some (ENTITY_ID_PATTERN_match (entity_id s)) ∧
  ∃ other w' s',
    (j ← State.as_dict (λ _, "") 1%positive; State.from_dict (λ _, None) j) w
    = (Return (Some other), w') ∧
    other ≠ 1%positive ∧ state_objs w' !! other = Some s'.
Proof.
  intros w s.
  assert (is_Some (ENTITY_ID_PATTERN_match (entity_id s))) as Hm
    by (vm_compute; eauto).
  assert (state_objs w !! 1%positive = Some s) as Hs by reflexivity.
  assert (attr_dicts w !! attributes s = Some {[ "bri" := SInt 128 ]}) as Hd
    by reflexivity.
  split; [exact Hs|]. split; [exact Hd|]. split; [exact Hm|].
  destruct (as_dict_shares_attributes (λ _, "") (λ _, None) w 1%positive s
              {[ "bri" := SInt 128 ]} Hs Hd Hm)
    as (_ & other & w' & s' & E & Hne & Hs' & _).
  exists other, w', s'. split; [exact E|]. split; [exact Hne|exact Hs'].
Defined.

(** ** A blocking call from start to end *)

Lemma set_data_dicts_twice f g w :
  set_data_dicts f (set_data_dicts g w) = set_data_dicts (λ m, f (g m)) w.
Proof. done. Qed.

Lemma call_start wait w dom srv service_data blocking :
  data_arg w service_data →
  ∃ event_data,
    ServiceRegistry.call wait dom srv service_data blocking w
    = call_finish wait
        (if blocking then Some (next_flag w, next_closure w) else None)
        (call_world w dom srv service_data blocking event_data).
Proof.
  intros Ha. unfold ServiceRegistry.call.
  rewrite (bind_Return _ _ _ _ _ (generate_unique_id_spec w)).
  set (w0 := set_cur_id (λ n, n + 1) w).
  assert (data_arg w0 service_data) as Ha0 by (by destruct service_data).
  assert (data_contents w0 service_data = data_contents w service_data) as Hc0
    by (by destruct service_data).
  destruct (or_new_data_spec w0 service_data Ha0)
    as (ed & w1 & E & [_ Ew1] & Hc & _ & _ & Hdd).
  rewrite Hc0 in Hc, Hdd.
  rewrite (bind_Return _ _ _ _ _ E). clear E.
  erewrite (bind_Return _ _ w1); [|by apply data_setitem_spec].
  erewrite (bind_Return _ _ (set_data_dicts _ w1));
    [|apply data_setitem_spec; simpl; by rewrite lookup_insert_eq].
  erewrite (bind_Return _ _ (set_data_dicts _ (set_data_dicts _ w1)));
    [|apply data_setitem_spec; simpl; by rewrite lookup_insert_eq].
  fold (call_service_data w dom srv service_data).
  set (w2 := set_data_dicts _ (set_data_dicts _ (set_data_dicts _ w1))).
  assert (w2 = set_data_dicts <[ed := call_service_data w dom srv service_data]> w0)
    as Ew2.
  { unfold w2. rewrite Ew1. unfold set_data_dicts. simpl. f_equal.
    rewrite Hdd. by rewrite !insert_insert_eq. }
  clearbody w2. subst w2. exists ed.
  destruct blocking.
  - set (w2 := set_data_dicts _ w0).
    set (w3 := set_listeners
                 <[EVENT_SERVICE_EXECUTED :=
                     EventBus.get w EVENT_SERVICE_EXECUTED ++ [next_closure w]]>
                 (set_next_fn S (set_flags <[next_flag w := false]> w2))).
    assert ((executed_event ← new_flag;
             fn ← new_fn;
             _ ← EventBus.listen EVENT_SERVICE_EXECUTED
                   (service_executed fn (next_call_id w) executed_event);
             mret (Some (executed_event,
                         service_executed fn (next_call_id w) executed_event))) w2
            = (Return (Some (next_flag w, next_closure w)), w3)) as E3.
    { unfold new_flag, new_fn, mbind, M_bind, mret, M_ret, gets, modify.
      cbn beta iota. rewrite listen_spec. done. }
    rewrite (bind_Return _ _ _ _ _ E3). clear E3.
    destruct (fire_spec w3 EVENT_CALL_SERVICE (Some ed) local)
      as (ed' & w4 & _ & _ & _ & Hsame & E4).
    { simpl. rewrite lookup_insert_eq. eauto. }
    destruct Hsame as [[= <-] ->].
    { simpl. rewrite lookup_insert_eq. simpl. apply call_service_data_nonempty. }
    rewrite (bind_Return _ _ _ _ _ E4). clear E4.
    unfold call_world. cbv zeta. fold w0 w2 w3.
    do 3 f_equal. unfold jobs_of, snapshot, EventBus.get. simpl.
    rewrite !lookup_insert_ne by done. done.
  - unfold mbind at 1, M_bind at 1, mret at 1, M_ret at 1. cbn beta iota.
    destruct (fire_spec (set_data_dicts <[ed := call_service_data w dom srv service_data]> w0)
                EVENT_CALL_SERVICE (Some ed) local)
      as (ed' & w4 & _ & _ & _ & Hsame & E4).
    { simpl. rewrite lookup_insert_eq. eauto. }
    destruct Hsame as [[= <-] ->].
    { simpl. rewrite lookup_insert_eq. simpl. apply call_service_data_nonempty. }
    rewrite (bind_Return _ _ _ _ _ E4). done.
Qed.

Lemma service_executed_matching w fn id g event d :
  data_dicts w !! data event = Some d →
  d !! ATTR_SERVICE_CALL_ID = Some (VStr id) →
  call_listener (service_executed fn id g) event w
  = (Return tt,
     exec (EventBus.remove_listener EVENT_SERVICE_EXECUTED (service_executed fn id g))
       (set_flags <[g := true]> w)).
Proof.
  intros Hd Hid. simpl. unfold data_getitem, read_data, flag_set.
  unfold mbind, M_bind, modify, deref. rewrite Hd.
  unfold mret, M_ret. cbn beta iota. rewrite Hid. cbn beta iota.
  case_decide; done.
Qed.

Lemma perform_Work_head job q w :
  pending w = job :: q →
  perform (Work 0) w = exec (job_handler job) (set_pending (λ _, q) w).
Proof.
  intros Hp. simpl. rewrite Hp. simpl. f_equal.
  destruct w. unfold set_pending. simpl in *. by rewrite Hp.
Qed.

Lemma Event_wait_step t a rest flag timeout w :
  is_set flag w = false → t ≤ timeout * second →
  Event_wait ((t, a) :: rest) flag timeout w
  = Event_wait rest flag timeout (perform a w).
Proof. intros Hf Ht. simpl. rewrite Hf. by rewrite decide_True. Qed.

Lemma Event_wait_set others flag timeout w :
  is_set flag w = true → Event_wait others flag timeout w = (Return true, w).
Proof. intros Hf. destruct others as [|[t a] rest]; simpl; by rewrite Hf. Qed.

(** X19.  A blocking call from start to end.  On a bus whose only
    listener of [call_service] is the service registry and that has no
    listener of [service_executed] or of [MATCH_ALL], with no job pending,
    a blocking call of a registered service, during which workers run the
    three jobs that it causes within the limit, returns [True]: the service
    was called once, with the call, and the closure of the call has
    removed itself, so that the bus has the listeners it had before the
    call, and no job is pending. *)
Theorem blocking_call_completes w dom srv service_data f t1 t2 t3 rest :
  let steps := (t1, Work 0) :: (t2, Work 0) :: (t3, Work 0) :: rest in
  data_arg w service_data → registered w dom srv = Some f →
  pending w = [] →
  EventBus.get w MATCH_ALL = [] →
  EventBus.get w EVENT_CALL_SERVICE = [_event_to_service_call] →
  EventBus.get w EVENT_SERVICE_EXECUTED = [] →
  t1 ≤ SERVICE_CALL_LIMIT * second → t2 ≤ SERVICE_CALL_LIMIT * second →
  t3 ≤ SERVICE_CALL_LIMIT * second →
  ∃ w' call,
    ServiceRegistry.call (Event_wait steps) dom srv service_data true w
    = (Return (Some true), w') ∧
    calls w' = calls w ++ [Served f call] ∧
    domain call = dom ∧ service call = srv ∧
    data_dicts w' !! call_data call = Some (service_call_data w service_data) ∧
    (∀ t, EventBus.get w' t = EventBus.get w t) ∧
    pending w' = [].
Proof.
  intros steps Ha Hreg Hp Hall Hcs Hex Ht1 Ht2 Ht3.
  destruct (call_start (Event_wait steps) w dom srv service_data true Ha) as (ed & E).
  rewrite E. clear E. unfold call_finish.
  set (flag := next_flag w). set (closure := next_closure w).
  set (event := mkEvent EVENT_CALL_SERVICE ed local).
  set (w1 := call_world w dom srv service_data true ed).
  set (job1 := mkJob (JobPriority.from_event_type EVENT_CALL_SERVICE)
                 (Listen _event_to_service_call event)).
  assert (pending w1 = [job1]) as Hp1.
  { unfold w1, call_world. simpl. rewrite Hp. unfold snapshot. by rewrite Hall, Hcs. }
  assert (is_set flag w1 = false) as Hf1.
  { unfold w1, call_world, is_set. simpl. by rewrite lookup_insert_eq. }
  (* the job of the service registry *)
  set (w1' := set_pending (λ _, []) w1).
  destruct (call_service_data_lookup w dom srv service_data) as (Hdom & Hsrv & Hdel).
  destruct (event_to_service_call_registered w1' event
              (call_service_data w dom srv service_data) dom srv f)
    as (sd & w2 & E2 & Hp2 & _ & Hsd & Hmono2 & Hfi2 & Hca2 & Hl2 & _ & Hfl2);
    try done.
  { simpl. by rewrite lookup_insert_eq. }
  rewrite Hdel in Hsd.
  set (call := mkServiceCall dom srv sd).
  assert (perform (Work 0) w1 = w2) as Hstep1.
  { rewrite (perform_Work_head job1 [] w1 Hp1). unfold job1.
    rewrite exec_job_Listen. unfold exec.
    change (call_listener _event_to_service_call)
      with ServiceRegistry._event_to_service_call.
    fold w1'. by rewrite E2. }
  assert (is_set flag w2 = false) as Hf2.
  { unfold is_set. rewrite Hfl2. exact Hf1. }
  (* the job of the service *)
  set (w2' := set_pending (λ _, []) w2).
  destruct (execute_service_spec w2' f call (service_call_data w service_data)
              (VStr (next_call_id w)) Hsd)
    as (ed3 & w3 & E3 & Hca3 & Hfresh3 & Hdd3 & Hfi3 & Hp3 & Hl3 & Hfl3).
  { unfold service_call_data. by rewrite lookup_insert_eq. }
  assert (perform (Work 0) w2 = w3) as Hstep2.
  { rewrite (perform_Work_head (mkJob EVENT_SERVICE (Execute f call)) [] w2 Hp2).
    rewrite exec_job_Execute. unfold exec. fold w2'. by rewrite E3. }
  assert (is_set flag w3 = false) as Hf3.
  { unfold is_set. rewrite Hfl3. exact Hf2. }
  set (executed := mkEvent EVENT_SERVICE_EXECUTED ed3 local).
  assert (_listeners w3
          = <[EVENT_SERVICE_EXECUTED := [closure]]> (_listeners w)) as Hls3.
  { rewrite Hl3. simpl. rewrite Hl2. unfold w1', w1, call_world. simpl.
    by rewrite Hex. }
  set (job3 := mkJob (JobPriority.from_event_type EVENT_SERVICE_EXECUTED)
                 (Listen closure executed)).
  assert (pending w3 = [job3]) as Hp3'.
  { rewrite Hp3. simpl. unfold snapshot, EventBus.get. simpl. rewrite Hl2.
    unfold w1', w1, call_world. simpl. rewrite Hex.
    rewrite lookup_insert_ne by done. rewrite lookup_insert_eq.
    unfold EventBus.get in Hall. by rewrite Hall. }
  (* the job of the closure *)
  set (w3' := set_pending (λ _, []) w3).
  set (w4 := exec (EventBus.remove_listener EVENT_SERVICE_EXECUTED closure)
               (set_flags <[flag := true]> w3')).
  assert (perform (Work 0) w3 = w4) as Hstep3.
  { rewrite (perform_Work_head job3 [] w3 Hp3'). unfold job3.
    rewrite exec_job_Listen. unfold exec at 1.
    unfold closure, next_closure.
    rewrite (service_executed_matching w3' _ _ _ executed
               {[ ATTR_SERVICE_CALL_ID := VStr (next_call_id w) ]}).
    - done.
    - simpl. by rewrite Hdd3, lookup_insert_eq.
    - by rewrite lookup_singleton_eq. }
  assert (EventBus.remove_listener EVENT_SERVICE_EXECUTED closure
            (set_flags <[flag := true]> w3')
          = (Return tt,
             set_listeners (λ ls, delete EVENT_SERVICE_EXECUTED ls)
               (set_flags <[flag := true]> w3'))) as E4.
  { rewrite (remove_listener_present _ EVENT_SERVICE_EXECUTED closure [] []).
    - done.
    - simpl. by rewrite Hls3, lookup_insert_eq.
    - apply not_elem_of_nil. }
  assert (is_set flag w4 = true) as Hf4.
  { unfold w4, exec. rewrite E4. unfold is_set. simpl. by rewrite lookup_insert_eq. }
  unfold steps.
  rewrite (bind_Return _ _ w1 true w4).
  2:{ rewrite (Event_wait_step _ _ _ _ _ _ Hf1 Ht1), Hstep1.
      rewrite (Event_wait_step _ _ _ _ _ _ Hf2 Ht2), Hstep2.
      rewrite (Event_wait_step _ _ _ _ _ _ Hf3 Ht3), Hstep3.
      by apply Event_wait_set. }
  exists w4, call. split; [done|].
  unfold w4, exec. rewrite E4. simpl.
  split_and!.
  - rewrite Hca3. simpl. rewrite Hca2. done.
  - done.
  - done.
  - rewrite Hdd3. rewrite lookup_insert_ne; [done|]. intros <-.
    simpl in Hfresh3. by rewrite Hsd in Hfresh3.
  - intros t. unfold EventBus.get. simpl. rewrite Hls3.
    rewrite delete_insert_eq.
    destruct (decide (t = EVENT_SERVICE_EXECUTED)) as [->|Hne].
    + rewrite lookup_delete_eq. unfold EventBus.get in Hex.
      destruct (_listeners w !! EVENT_SERVICE_EXECUTED); simpl in *; done.
    + by rewrite lookup_delete_ne.
  - done.
Qed.

Lemma blocking_call_completes_witness :
  let w := ping_registered in
  data_arg w None ∧ registered w "test" "ping" = Some 5%nat ∧
  pending w = [] ∧ EventBus.get w MATCH_ALL = [] ∧
  EventBus.get w EVENT_CALL_SERVICE = [_event_to_service_call] ∧
  EventBus.get w EVENT_SERVICE_EXECUTED = [] ∧
  100000 ≤ SERVICE_CALL_LIMIT * second ∧
  ∃ w' call,
    ServiceRegistry.call (Event_wait ping_steps) "test" "ping" None true w
    = (Return (Some true), w') ∧
    calls w' = calls w ++ [Served 5%nat call].
Proof.
  assert (100000 ≤ SERVICE_CALL_LIMIT * second) as H1 by (by vm_compute).
  assert (200000 ≤ SERVICE_CALL_LIMIT * second) as H2 by (by vm_compute).
  assert (300000 ≤ SERVICE_CALL_LIMIT * second) as H3 by (by vm_compute).
  destruct (blocking_call_completes ping_registered "test" "ping" None 5%nat
              100000 200000 300000 [] I eq_refl eq_refl eq_refl eq_refl eq_refl
              H1 H2 H3)
    as (w' & call & E & Hc & _).
  split; [exact I|]. split; [reflexivity|]. split; [reflexivity|].
  split; [reflexivity|]. split; [reflexivity|]. split; [reflexivity|].
  split; [exact H1|]. exists w', call. split; [exact E|exact Hc].
Defined.

(** ** Equality of states *)

(** X20.  [==] on states is an equivalence that ignores the times.  For
    [State] objects of the store, [==] is reflexive, symmetric and
    transitive, changes nothing, and holds between an object and any
    object with the same entity id, state and contents of the attributes,
    whatever their [last_changed] and [last_updated]. *)
Theorem State_eq_equivalence w x y z sx sy sz a b c :
  state_objs w !! x = Some sx → state_objs w !! y = Some sy →
  state_objs w !! z = Some sz →
  attr_dicts w !! attributes sx = Some a → attr_dicts w !! attributes sy = Some b →
  attr_dicts w !! attributes sz = Some c →
  State.__eq__ x x w = (Return true, w) ∧
  State.__eq__ x y w = State.__eq__ y x w ∧
  (State.__eq__ x y w = (Return true, w) → State.__eq__ y z w = (Return true, w) →
   State.__eq__ x z w = (Return true, w)) ∧
  (entity_id sx = entity_id sy → state sx = state sy → a = b →
   State.__eq__ x y w = (Return true, w)).
Proof.
  intros Hx Hy Hz Ha Hb Hc.
  rewrite (State_eq_spec w x x sx sx a a Hx Hx Ha Ha).
  rewrite (State_eq_spec w x y sx sy a b Hx Hy Ha Hb).
  rewrite (State_eq_spec w y x sy sx b a Hy Hx Hb Ha).
  rewrite (State_eq_spec w y z sy sz b c Hy Hz Hb Hc).
  rewrite (State_eq_spec w x z sx sz a c Hx Hz Ha Hc).
  split_and!.
  - by rewrite bool_decide_eq_true_2.
  - do 2 f_equal. apply bool_decide_ext. split; intros (-> & -> & ->); done.
  - intros [= H1] [= H2]. apply bool_decide_eq_true in H1 as (-> & -> & ->).
    apply bool_decide_eq_true in H2 as (-> & -> & ->).
    by rewrite bool_decide_eq_true_2.
  - intros. by rewrite bool_decide_eq_true_2.
Qed.

Lemma State_eq_equivalence_witness :
  let w := exec (_ ← State.__init__ "light.kitchen" "on" None None;
                 _ ← modify (set_clock (λ _, 5000000));
                 State.__init__ "Light.Kitchen" "on" None None) (initial 0 0) in
  let sx := mkState "light.kitchen" "on" 1%positive 0 0 in
  let sy := mkState "light.kitchen" "on" 2%positive 5000000 5000000 in
  state_objs w !! 1%positive = Some sx ∧ state_objs w !! 2%positive = Some sy ∧
  attr_dicts w !! attributes sx = Some ∅ ∧ attr_dicts w !! attributes sy = Some ∅ ∧
  State.__eq__ 1%positive 2%positive w = (Return true, w).
Proof.
  intros w sx sy.
  assert (state_objs w !! 1%positive = Some sx) as Hx by reflexivity.
  assert (state_objs w !! 2%positive = Some sy) as Hy by reflexivity.
  assert (attr_dicts w !! attributes sx = Some ∅) as Ha by reflexivity.
  assert (attr_dicts w !! attributes sy = Some ∅) as Hb by reflexivity.
  split; [exact Hx|]. split; [exact Hy|]. split; [exact Ha|]. split; [exact Hb|].
  destruct (State_eq_equivalence w 1%positive 2%positive 1%positive sx sy sx
              ∅ ∅ ∅ Hx Hy Hx Ha Hb Ha) as (_ & _ & _ & H).
  by apply H.
Defined.

(** ** Edge cases of [fire] and of empty dictionaries *)

(** X21.  [fire] with the sentinel as event type.  For the event type
    [MATCH_ALL] itself, [fire] takes the bucket of [MATCH_ALL] twice: every
    listener gets two jobs for each of its entries in that bucket. *)
Theorem fire_match_all_twice w data origin l :
  data_arg w data →
  jobs_for l (enqueued_by (EventBus.fire MATCH_ALL data origin) w)
  = (2 * registrations l (EventBus.get w MATCH_ALL))%nat ∧
  length (enqueued_by (EventBus.fire MATCH_ALL data origin) w)
  = (2 * length (EventBus.get w MATCH_ALL))%nat.
Proof.
  intros Ha.
  destruct (enqueued_by_fire w MATCH_ALL data origin Ha) as (event & _ & _ & -> & _).
  split.
  - rewrite jobs_for_jobs_of. unfold snapshot. rewrite registrations_app. lia.
  - unfold jobs_of, snapshot. rewrite length_map, length_app. lia.
Qed.

Lemma fire_match_all_twice_witness :
  let w := exec (EventBus.listen MATCH_ALL (Callback 1)) (initial 0 0) in
  data_arg w None ∧
  jobs_for (Callback 1) (enqueued_by (EventBus.fire MATCH_ALL None local) w) = 2%nat.
Proof.
  split; [exact I|].
  exact (proj1 (fire_match_all_twice
                  (exec (EventBus.listen MATCH_ALL (Callback 1)) (initial 0 0))
                  None local (Callback 1) I)).
Defined.

(** X22.  An empty [dict] is not kept.  [data or {}] and
    [attributes or {}] replace an empty [dict] by a new one: the event that
    [fire] builds from an empty [dict], the event that [call] fires for an
    empty [service_data], and the [State] built with an empty [dict] of
    attributes refer to a new [dict], and the [dict] of the caller stays
    empty. *)
Theorem empty_dict_is_replaced w l :
  (data_dicts w !! l = Some ∅ →
   (∀ t origin, ∃ event,
      fired (exec (EventBus.fire t (Some l) origin) w) = fired w ++ [event] ∧
      data event ≠ l ∧
      data_dicts (exec (EventBus.fire t (Some l) origin) w) !! l = Some ∅) ∧
   (∀ wait dom srv, ∃ event w1,
      ServiceRegistry.call wait dom srv (Some l) false w = (Return None, w1) ∧
      fired w1 = fired w ++ [event] ∧ data event ≠ l ∧
      data_dicts w1 !! l = Some ∅ ∧
      data_dicts w1 !! data event = Some (call_service_data w dom srv None))) ∧
  (attr_dicts w !! l = Some ∅ →
   ∀ eid st changed, is_Some (ENTITY_ID_PATTERN_match eid) →
     ∃ self w' s,
       State.__init__ eid st (Some l) changed w = (Return self, w') ∧
       state_objs w' !! self = Some s ∧ attributes s ≠ l ∧
       attr_dicts w' !! attributes s = Some ∅ ∧ attr_dicts w' !! l = Some ∅).
Proof.
  split.
  - intros Hl. split.
    + intros t origin.
      destruct (fire_spec w t (Some l) origin) as (d & w1 & Eo & Hmore & _ & _ & E).
      { simpl. eauto. }
      destruct (or_new_data_spec w (Some l)) as (d' & w1' & Eo' & _ & _ & _ & He & _).
      { simpl. eauto. }
      rewrite Eo in Eo'. injection Eo' as <- <-.
      simpl in He. rewrite Hl in He. simpl in He. specialize (He eq_refl).
      assert (d ≠ l) as Hne by (intros ->; by rewrite Hl in He).
      exists (mkEvent t d origin). unfold exec. rewrite E. simpl.
      split; [by rewrite (proj2 Hmore)|]. split; [exact Hne|].
      by apply (proj1 Hmore).
    + intros wait dom srv.
      destruct (call_spec wait w dom srv (Some l) false) as
        (ed & w1 & E & _ & He & Hdd & Hfi & _).
      { simpl. eauto. }
      simpl in He. rewrite Hl in He. simpl in He. specialize (He eq_refl).
      assert (ed ≠ l) as Hne by (intros ->; by rewrite Hl in He).
      exists (mkEvent EVENT_CALL_SERVICE ed local), w1. simpl in E.
      split; [exact E|]. split; [exact Hfi|]. split; [exact Hne|]. split.
      * rewrite Hdd. by rewrite lookup_insert_ne.
      * simpl. rewrite Hdd, lookup_insert_eq. unfold call_service_data. simpl.
        by rewrite Hl.
  - intros Hl eid st changed Hm.
    destruct (State_init_returns w eid st (Some l) changed Hm)
      as (self & a & w1 & _ & E & _ & Hmore & Hc & _ & He).
    { simpl. eauto. }
    simpl in Hc, He. rewrite Hl in Hc, He. simpl in Hc, He. specialize (He eq_refl).
    assert (a ≠ l) as Hne by (intros ->; by rewrite Hl in He).
    eexists self, _, _. split; [exact E|]. simpl. rewrite lookup_insert_eq.
    split; [done|]. split; [exact Hne|]. split; [exact Hc|].
    by apply (proj1 Hmore).
Qed.

Lemma empty_dict_is_replaced_witness :
  let w := exec (_ ← new_data ∅; new_attrs ∅) (initial 0 7) in
  data_dicts w !! 1%positive = Some ∅ ∧ attr_dicts w !! 1%positive = Some ∅ ∧
  (∃ event,
     fired (exec (EventBus.fire "x" (Some 1%positive) local) w) = fired w ++ [event] ∧
     data event ≠ 1%positive) ∧
  ∃ self w' s,
    State.__init__ "light.kitchen" "on" (Some 1%positive) None w = (Return self, w') ∧
    state_objs w' !! self = Some s ∧ attributes s ≠ 1%positive.
Proof.
  intros w.
  assert (data_dicts w !! 1%positive = Some ∅) as Hd by reflexivity.
  assert (attr_dicts w !! 1%positive = Some ∅) as Ha by reflexivity.
  destruct (empty_dict_is_replaced w 1%positive) as [H1 H2].
  split; [exact Hd|]. split; [exact Ha|]. split.
  - destruct (proj1 (H1 Hd) "x" local) as (event & Hf & Hne & _).
    exists event. split; [exact Hf|exact Hne].
  - destruct (H2 Ha "light.kitchen" "on" None) as (self & w' & s & E & Hs & Hne & _).
    { vm_compute. eauto. }
    exists self, w', s. split; [exact E|]. split; [exact Hs|exact Hne].
Defined.

(** ** A listener for a point in time *)

Lemma point_in_time_listener_spec self_ fn point_in_time event w n :
  now_of w event = Some n →
  HomeAssistant.point_in_time_listener self_ fn point_in_time event w
  = if bool_decide (point_in_time ≤ n) && negb (bool_decide (fn ∈ run_attr w))
    then (Return (Some n),
          exec (EventBus.remove_listener EVENT_TIME_CHANGED self_)
            (set_run_attr (λ r, {[fn]} ∪ r) w))
    else (Return None, w).
Proof.
  unfold now_of. intros Hn.
  destruct (data_dicts w !! data event) as [d|] eqn:Hd; [|done]. simpl in Hn.
  destruct (d !! ATTR_NOW) as [v|] eqn:Hv; [|done]. simpl in Hn.
  destruct v; try done. injection Hn as ->.
  unfold HomeAssistant.point_in_time_listener, data_getitem, read_data.
  unfold mbind, M_bind, deref, gets, modify. rewrite Hd.
  unfold mret, M_ret. cbn beta iota. rewrite Hv. cbn beta iota.
  destruct (bool_decide (point_in_time ≤ n) && negb (bool_decide (fn ∈ run_attr w)));
    done.
Qed.

Lemma now_of_same w w' event :
  data_dicts w' = data_dicts w → now_of w' event = now_of w event.
Proof. unfold now_of. by intros ->. Qed.

Lemma first_due_same w w' point_in_time events :
  data_dicts w' = data_dicts w →
  first_due w' point_in_time events = first_due w point_in_time events.
Proof.
  intros E. induction events as [|e r IH]; simpl; [done|].
  by rewrite (now_of_same w w' e E), IH.
Qed.

Lemma hear_all_done self_ fn point_in_time events w :
  fn ∈ run_attr w →
  Forall (λ e, is_Some (now_of w e)) events →
  hear_all (HomeAssistant.point_in_time_listener self_ fn point_in_time) events w
  = (Return [], w).
Proof.
  intros Hrun Hev. induction Hev as [|e r [n Hn] _ IH]; [done|].
  cbn [hear_all].
  assert (HomeAssistant.point_in_time_listener self_ fn point_in_time e w
          = (Return None, w)) as E.
  { rewrite (point_in_time_listener_spec self_ fn point_in_time e w n Hn).
    rewrite (bool_decide_eq_true_2 (fn ∈ run_attr w)) by done.
    by rewrite andb_false_r. }
  rewrite (bind_Return _ _ _ _ _ E). by rewrite (bind_Return _ _ _ _ _ IH).
Qed.

(** X23.  A listener for a point in time acts once.  The listener of
    [track_point_in_time] hears [time_changed] events, one after the
    other, each of which carries a time.  It acts on the first event whose
    time is at or after [point_in_time], and on no other: for that event
    it calls [action] with the time of the event and takes itself off the
    bus; for the events before and after, it calls nothing.  When no event
    is due, it stays on the bus and the world is as before. *)
Theorem point_in_time_listener_acts_once self_ fn point_in_time events w :
  fn ∉ run_attr w →
  Forall (λ e, is_Some (now_of w e)) events →
  let hear := hear_all (HomeAssistant.point_in_time_listener self_ fn point_in_time)
                events in
  result hear w = Return (first_due w point_in_time events) ∧
  (length (first_due w point_in_time events) ≤ 1)%nat ∧
  Forall (λ n, point_in_time ≤ n) (first_due w point_in_time events) ∧
  (first_due w point_in_time events = [] → exec hear w = w) ∧
  (first_due w point_in_time events ≠ [] →
   exec hear w
   = exec (EventBus.remove_listener EVENT_TIME_CHANGED self_)
       (set_run_attr (λ r, {[fn]} ∪ r) w)).
Proof.
  intros Hrun Hev. cbv zeta. unfold result, exec.
  induction Hev as [|e r [n Hn] Hr IH].
  { simpl. split_and!; try done. lia. }
  cbn [hear_all first_due]. rewrite Hn.
  pose proof (point_in_time_listener_spec self_ fn point_in_time e w n Hn) as E.
  rewrite (bool_decide_eq_false_2 (fn ∈ run_attr w)) in E by done.
  rewrite andb_true_r in E.
  destruct (bool_decide (point_in_time ≤ n)) eqn:Hdue.
  - rewrite (bind_Return _ _ _ _ _ E).
    set (w' := exec (EventBus.remove_listener EVENT_TIME_CHANGED self_)
                 (set_run_attr (λ r, {[fn]} ∪ r) w)).
    assert (hear_all (HomeAssistant.point_in_time_listener self_ fn point_in_time) r w'
            = (Return [], w')) as Erest.
    { apply hear_all_done.
      - unfold w', exec, EventBus.remove_listener, modify. simpl.
        apply elem_of_union_l. by apply elem_of_singleton.
      - eapply list.Forall_impl; [exact Hr|]. intros e' He'. simpl in He'.
        by rewrite (now_of_same w w' e'). }
    rewrite (bind_Return _ _ _ _ _ Erest). simpl.
    apply bool_decide_eq_true in Hdue.
    split; [done|]. split; [simpl; lia|]. split; [by repeat constructor|].
    split; done.
  - rewrite (bind_Return _ _ _ _ _ E).
    destruct IH as (IH1 & IH2 & IH3 & IH4 & IH5).
    destruct (hear_all _ r w) as [[later|ex] w'] eqn:Er; simpl in *; [|done].
    injection IH1 as ->. rewrite (bind_Return _ _ _ _ _ Er). done.
Qed.

Lemma point_in_time_listener_acts_once_witness :
  let w := exec (_ ← new_data {[ ATTR_NOW := VTime 1000000 ]};
                 _ ← new_data {[ ATTR_NOW := VTime 2000000 ]};
                 new_data {[ ATTR_NOW := VTime 3000000 ]}) (initial 0 0) in
  let events := [mkEvent EVENT_TIME_CHANGED 1%positive local;
                 mkEvent EVENT_TIME_CHANGED 2%positive local;
                 mkEvent EVENT_TIME_CHANGED 3%positive local] in
  (0%nat ∉ run_attr w) ∧
  Forall (λ e, is_Some (now_of w e)) events ∧
  result (hear_all (HomeAssistant.point_in_time_listener (Callback 9) 0 1500000)
            events) w
  = Return [2000000].
Proof.
  intros w events.
  assert (0%nat ∉ run_attr w) as Hrun by apply not_elem_of_empty.
  assert (Forall (λ e, is_Some (now_of w e)) events) as Hev.
  { repeat constructor; vm_compute; eauto. }
  split; [exact Hrun|]. split; [exact Hev|].
  exact (proj1 (point_in_time_listener_acts_once (Callback 9) 0 1500000 events w
                  Hrun Hev)).
Defined.
